(** * TessQuiz: the quiz-answer prober of [old quizzes/index.js]

    A shallow embedding of the Express server in [old quizzes/index.js]:
    the remote client ([getScore], [attemptQuizApi], [getUnitTopics],
    [resultQuiz]), the answer prober ([attemptQuiz]), the quiz runner
    ([attemptOneQuiz]) and the [app.post('/')] handler, followed by the
    properties of the prober, of the runner and of the handler.

    Modelling choices.
    - Every [await axios...] and [fs.writeFile] is a call to an external
      world.  The world is an arbitrary deterministic state machine
      ([Service]); each call either returns a well-formed payload or fails
      (a rejected promise, which also stands for a malformed body whose
      field access raises a [TypeError] inside the same [try]).
    - The module-level [let ACCESS_TOKEN], the console and the sequence of
      external calls issued so far are fields of the program state [St];
      each remote call is recorded with the [Authorization] header it
      carried and the answer it got.
    - [async] functions are state-passing functions whose result is a value,
      a thrown error, or [OutOfFuel]: the [while] loop of [attemptQuiz] has
      no bound, so it is run with a number of passes it may make ([fuel]);
      the [for...of] loops are recursions on their arrays.
    - Scores and identifiers are JavaScript numbers holding integers; they
      are [Z] here (exact below 2^53) and are printed in decimal.  The
      fields of the request body are absent or strings.  Strings are byte
      strings, so [sanitize] is the source's regular expression on ASCII
      topic names. *)

From Stdlib Require Import ZArith Lia Ascii String.
From stdpp Require Import base list strings pretty.

Open Scope string_scope.
Open Scope list_scope.
Open Scope Z_scope.

(** ** Values exchanged with the remote service *)

(** A JavaScript [Error]: [error.name] and [error.message]. *)
Record Err := mkErr { ename : string; emessage : string }.

(** [Error.prototype.toString], used by the template literal [${error}]. *)
Definition Err_toString (e : Err) : string :=
  if decide (ename e = "") then emessage e
  else if decide (emessage e = "") then ename e
  else ename e +:+ ": " +:+ emessage e.

(** The outcome of one awaited external call. *)
Inductive Resp (A : Type) : Type :=
| Ok (a : A)
| Fail (e : Err).
Arguments Ok {A} a.
Arguments Fail {A} e.

(** One element of [data.payload.topics]. *)
Module Topic.
Record t := mk { id : Z; name : string; contentFlag : bool }.
End Topic.

(** One element of [data.payload.questions]; [options] is the object's
    entry list, in the order [Object.entries] enumerates it. *)
Module Question.
Record t := mk { questionId : Z; question : string;
                 options : list (string * string) }.
End Question.

(** [data.payload] of the create-quiz endpoint. *)
Module Payload.
Record t := mk { quizId : Z; questions : list Question.t }.
End Payload.

(** The value of [options[i]] or of [correctOption]: [null], [undefined]
    or a string. *)
Inductive jsval : Type :=
| JsNull
| JsUndefined
| JsStr (s : string).

(** ** The external world *)

(** Every external call the program issues, with the [Authorization] header
    it carried (the value of [ACCESS_TOKEN] at the time of the call) and the
    outcome it got. *)
Inductive Event : Type :=
| EvSaveAnswer (auth : option string) (quizId questionId : Z)
               (userAnswer : option string) (r : Resp unit)
| EvSubmitQuiz (auth : option string) (quizId : Z) (r : Resp Z)
| EvCreateQuiz (auth : option string) (quizId : Z) (r : Resp Payload.t)
| EvTopicsUnit (auth : option string) (unitId : string)
               (r : Resp (list Topic.t))
| EvQuizResult (auth : option string) (topicId : Z) (r : Resp Z)
| EvWriteFile (file content : string) (r : Resp unit).

(** The remote quiz service and the file system, as a state machine over an
    arbitrary state [World]. *)
Record Service (World : Type) : Type := mkService {
  (* POST quizquestionattempts/save-user-quiz-answer {quizId, questionId, userAnswer} *)
  save_user_quiz_answer :
    World -> option string -> Z -> Z -> option string -> World * Resp unit;
  (* POST quizattempts/submit-quiz {quizId}: response.data.payload.score *)
  submit_quiz : World -> option string -> Z -> World * Resp Z;
  (* GET quizattempts/create-quiz/:quizId: response.data.payload *)
  create_quiz : World -> option string -> Z -> World * Resp Payload.t;
  (* GET studentmaster/get-topics-unit/:unitId: response.data.payload.topics *)
  get_topics_unit :
    World -> option string -> string -> World * Resp (list Topic.t);
  (* GET quizattempts/quiz-result/:topicId: response.data.payload.badge *)
  quiz_result : World -> option string -> Z -> World * Resp Z;
  (* fs.writeFile(file, content) *)
  writeFile : World -> string -> string -> World * Resp unit
}.
Arguments save_user_quiz_answer {World} _ _ _ _ _ _.
Arguments submit_quiz {World} _ _ _ _.
Arguments create_quiz {World} _ _ _ _.
Arguments get_topics_unit {World} _ _ _ _.
Arguments quiz_result {World} _ _ _ _.
Arguments writeFile {World} _ _ _ _.

(** ** Console *)

Inductive ConsoleEntry : Type :=
| Log (line : string)                   (* console.log(line) *)
| LogError (line : string) (e : Err).   (* console.error(line, error) *)

(** ** Program state and the monad of [async] functions *)

Record St (World : Type) : Type := mkSt {
  world : World;
  ACCESS_TOKEN : option string;     (* let ACCESS_TOKEN = process.env.ACCESS_TOKEN *)
  trace : list Event;               (* external calls issued so far *)
  console : list ConsoleEntry       (* console output so far *)
}.
Arguments mkSt {World} _ _ _ _.
Arguments world {World} _.
Arguments ACCESS_TOKEN {World} _.
Arguments trace {World} _.
Arguments console {World} _.

Inductive Res (A : Type) : Type :=
| Val (a : A)          (* the promise is fulfilled *)
| Throw (e : Err)      (* the promise is rejected *)
| OutOfFuel.           (* still running when the iteration budget ended *)
Arguments Val {A} a.
Arguments Throw {A} e.
Arguments OutOfFuel {A}.

Definition M (World A : Type) : Type := St World -> Res A * St World.

Definition ret {World A} (a : A) : M World A := fun s => (Val a, s).

Definition throw {World A} (e : Err) : M World A := fun s => (Throw e, s).

Definition out_of_fuel {World A} : M World A := fun s => (OutOfFuel, s).

Definition bind {World A B} (m : M World A) (k : A -> M World B) : M World B :=
  fun s =>
    match m s with
    | (Val a, s') => k a s'
    | (Throw e, s') => (Throw e, s')
    | (OutOfFuel, s') => (OutOfFuel, s')
    end.

(** [try { m } catch (error) { h error }] *)
Definition try_catch {World A} (m : M World A) (h : Err -> M World A)
  : M World A :=
  fun s =>
    match m s with
    | (Throw e, s') => h e s'
    | other => other
    end.

Declare Scope js_scope.
Delimit Scope js_scope with js.
Notation "x <- m ;; k" := (bind m (fun x => k))
  (at level 100, m at next level, right associativity) : js_scope.
Notation "m ;; k" := (bind m (fun _ => k))
  (at level 100, right associativity) : js_scope.
Open Scope js_scope.

Definition console_log {World} (line : string) : M World unit :=
  fun s => (Val tt, mkSt (world s) (ACCESS_TOKEN s) (trace s)
                         (console s ++ [Log line])).

Definition console_error {World} (line : string) (e : Err) : M World unit :=
  fun s => (Val tt, mkSt (world s) (ACCESS_TOKEN s) (trace s)
                         (console s ++ [LogError line e])).

Definition set_ACCESS_TOKEN {World} (tok : option string) : M World unit :=
  fun s => (Val tt, mkSt (world s) tok (trace s) (console s)).

(** An awaited external call: the service moves the world, the call is
    appended to the trace, a failure becomes an exception. *)
Definition await {World A} (call : World -> World * Resp A)
    (ev : Resp A -> Event) : M World A :=
  fun s =>
    let '(w', r) := call (world s) in
    let s' := mkSt w' (ACCESS_TOKEN s) (trace s ++ [ev r]) (console s) in
    match r with
    | Ok a => (Val a, s')
    | Fail e => (Throw e, s')
    end.

(** An awaited axios call: as [await], with the current [ACCESS_TOKEN] as
    the [Authorization] header. *)
Definition axios {World A} (call : World -> option string -> World * Resp A)
    (ev : option string -> Resp A -> Event) : M World A :=
  fun s => await (fun w => call w (ACCESS_TOKEN s)) (ev (ACCESS_TOKEN s)) s.

(** ** Small JavaScript helpers *)

(** [`${v}`] for a value that is a string or [undefined]. *)
Definition show_undefined (v : option string) : string :=
  match v with
  | Some s => s
  | None => "undefined"
  end.

Definition jsval_of_lookup (v : option string) : jsval :=
  match v with
  | Some s => JsStr s
  | None => JsUndefined
  end.

(** [v || dflt] followed by string interpolation, for [v] a [jsval]. *)
Definition or_default (v : jsval) (dflt : string) : string :=
  match v with
  | JsStr s => if decide (s = "") then dflt else s
  | JsNull | JsUndefined => dflt
  end.

(** [!v] for a request-body field that is absent or a string. *)
Definition falsy (v : option string) : bool :=
  match v with
  | None => true
  | Some s => bool_decide (s = "")
  end.

(** [s.split(' ')] *)
Fixpoint split_space (s : string) : list string :=
  match s with
  | EmptyString => [EmptyString]
  | String c rest =>
      if Ascii.eqb c " "%char then EmptyString :: split_space rest
      else match split_space rest with
           | h :: t => String c h :: t
           | [] => [String c EmptyString]
           end
  end.

Definition is_alnum (c : ascii) : bool :=
  let n := Ascii.nat_of_ascii c in
  ((48 <=? n) && (n <=? 57) || (65 <=? n) && (n <=? 90)
   || (97 <=? n) && (n <=? 122))%nat.

Definition to_lower (c : ascii) : ascii :=
  let n := Ascii.nat_of_ascii c in
  if ((65 <=? n) && (n <=? 90))%nat then Ascii.ascii_of_nat (n + 32) else c.

Fixpoint string_map (f : ascii -> ascii) (s : string) : string :=
  match s with
  | EmptyString => EmptyString
  | String c rest => String (f c) (string_map f rest)
  end.

(** [topicName.replace(/[^a-z0-9]/gi, '_').toLowerCase()] *)
Definition sanitize (topicName : string) : string :=
  string_map to_lower
    (string_map (fun c => if is_alnum c then c else "_"%char) topicName).

(** [for (const x of l) { acc = body x acc }]: a [for...of] loop over an
    array, threading the variables the body assigns. *)
Fixpoint for_of {World A S} (l : list A) (body : A -> S -> M World S)
    (acc : S) : M World S :=
  match l with
  | [] => ret acc
  | x :: rest => acc' <- body x acc ;; for_of rest body acc'
  end.

(** The line feed of the template literals. *)
Definition nl : string := String (Ascii.ascii_of_nat 10) EmptyString.

(** ** Results of the program's functions *)

(** [{ score, correctOption }], returned by [attemptQuiz]. *)
Record ProbeResult := mkProbeResult { score : Z; correctOption : jsval }.

(** [{ quizId, finalScore }], returned by [attemptOneQuiz]. *)
Record RunResult := mkRunResult { quizId : Z; finalScore : Z }.

(** [{ topicId, topicName }], the elements [getUnitTopics] returns. *)
Record TopicRef := mkTopicRef { topicId : Z; topicName : string }.

(** [req.body] of the POST request: two fields, each absent or a string. *)
Record ReqBody := mkReqBody {
  accessToken : option string;
  unitId : option string
}.

(** [res.status(n).json(body)] *)
Inductive JsonBody : Type :=
| ErrorBody (error : string)                        (* { error } *)
| DoneBody (logs : list string) (message : string). (* { logs, message } *)

Record HttpResponse := mkHttpResponse { status : Z; json : JsonBody }.

(** What one pass through the body of the [while] loop of [attemptQuiz]
    leaves: the assigned variables, or the [break] of its [catch]. *)
Inductive Iteration : Type :=
| Continue (score : Z) (correctOption : jsval)
| Break.

(** [const options = ['a', 'b', 'c', 'd']] *)
Definition options : list string := ["a"; "b"; "c"; "d"].

(** [let logs = []]: the module-level array, which nothing pushes to. *)
Definition logs : list string := [].

(** ** The program *)

Section Program.
Context {World : Type} (svc : Service World).

Definition getScore (quizId : Z) : M World Z :=
  try_catch
    (axios (fun w tok => submit_quiz svc w tok quizId)
           (fun tok r => EvSubmitQuiz tok quizId r))
    (fun error =>
       console_error ("Error submitting quiz " +:+ pretty quizId +:+ ":")
                     error ;;
       throw error).

Definition attemptQuizApi (quizId questionId : Z)
    (userAnswer : option string) : M World Z :=
  try_catch
    (axios (fun w tok =>
              save_user_quiz_answer svc w tok quizId questionId userAnswer)
           (fun tok r => EvSaveAnswer tok quizId questionId userAnswer r) ;;
     getScore quizId)
    (fun error =>
       console_error ("Error attempting quiz " +:+ pretty quizId
                      +:+ ", question " +:+ pretty questionId +:+ ":")
                     error ;;
       throw error).

(** The [while (score !== currentScore + 1)] loop of [attemptQuiz], from
    the values [score], [i] and [correctOption] of its variables, with at
    most [fuel] passes through its body. *)
Fixpoint attemptQuiz_while (fuel : nat) (quizId questionId currentScore : Z)
    (score : Z) (i : nat) (correctOption : jsval) : M World ProbeResult :=
  if score =? currentScore + 1 then ret (mkProbeResult score correctOption)
  else
    match fuel with
    | O => out_of_fuel
    | S fuel' =>
        it <- try_catch
                (score' <- attemptQuizApi quizId questionId (options !! i) ;;
                 if score' =? currentScore + 1 then
                   console_log ("Option " +:+ show_undefined (options !! i)
                                +:+ " locked for question "
                                +:+ pretty questionId) ;;
                   ret (Continue score' (jsval_of_lookup (options !! i)))
                 else ret (Continue score' correctOption))
                (fun error =>
                   console_log ("Error with quiz " +:+ pretty quizId
                                +:+ ", question " +:+ pretty questionId
                                +:+ ", stopping attempts.") ;;
                   ret Break) ;;
        match it with
        | Break => ret (mkProbeResult score correctOption)
        | Continue score' correctOption' =>
            attemptQuiz_while fuel' quizId questionId currentScore
                              score' (i + 1) correctOption'
        end
    end.

Definition attemptQuiz (fuel : nat) (quizId questionId currentScore : Z)
  : M World ProbeResult :=
  attemptQuiz_while fuel quizId questionId currentScore
                    currentScore 0 JsNull.

(** The body of [for (const question of data.payload.questions)] in
    [attemptOneQuiz], on the variables [currentScore] and [content]. *)
Definition question_body (fuel : nat) (quiz_Id : Z) (question : Question.t)
    (vars : Z * string) : M World (Z * string) :=
  let '(currentScore, content) := vars in
  let content :=
    content +:+ ("Question ID: " +:+ pretty (Question.questionId question)
                 +:+ nl) in
  let content :=
    content +:+ ("Question: " +:+ Question.question question +:+ nl) in
  let content := content +:+ ("Options:" +:+ nl) in
  let content :=
    fold_left (fun content '(key, value) =>
                 content +:+ (key +:+ ": " +:+ value +:+ nl))
              (Question.options question) content in
  result <- attemptQuiz fuel quiz_Id (Question.questionId question)
                        currentScore ;;
  let currentScore := score result in
  let content :=
    content +:+ ("Correct Option: "
                 +:+ or_default (correctOption result) "Not locked"
                 +:+ nl +:+ nl) in
  ret (currentScore, content).

(** [let currentScore = 0; let content = ''; for (const question of
    questions) { ... }] of [attemptOneQuiz]: the final values of the two
    variables. *)
Definition questions_loop (fuel : nat) (quiz_Id : Z)
    (questions : list Question.t) : M World (Z * string) :=
  for_of questions (question_body fuel quiz_Id) (0, "").

Definition attemptOneQuiz (fuel : nat) (quizId : Z) (topicName : string)
  : M World RunResult :=
  try_catch
    (data <- axios (fun w tok => create_quiz svc w tok quizId)
                   (fun tok r => EvCreateQuiz tok quizId r) ;;
     let quiz_Id := Payload.quizId data in
     vars <- questions_loop fuel quiz_Id (Payload.questions data) ;;
     let '(currentScore, content) := vars in
     let sanitizedTopicName := sanitize topicName in
     await (fun w => writeFile svc w (sanitizedTopicName +:+ ".txt") content)
           (fun r => EvWriteFile (sanitizedTopicName +:+ ".txt") content r) ;;
     console_log ("Quiz questions saved to " +:+ sanitizedTopicName
                  +:+ ".txt") ;;
     ret (mkRunResult (Payload.quizId data) currentScore))
    (fun error =>
       console_log ("Error creating quiz " +:+ pretty quizId +:+ ": "
                    +:+ Err_toString error) ;;
       throw error).

Definition getUnitTopics (unitId : string) : M World (list TopicRef) :=
  try_catch
    (topics <- axios (fun w tok => get_topics_unit svc w tok unitId)
                     (fun tok r => EvTopicsUnit tok unitId r) ;;
     ret (map (fun topic => mkTopicRef (Topic.id topic) (Topic.name topic))
              (filter (fun topic => Topic.contentFlag topic = true) topics)))
    (fun error =>
       console_log ("Error fetching topics for unit " +:+ unitId +:+ ": "
                    +:+ Err_toString error) ;;
       throw error).

Definition resultQuiz (topicId : Z) : M World bool :=
  try_catch
    (badge <- axios (fun w tok => quiz_result svc w tok topicId)
                    (fun tok r => EvQuizResult tok topicId r) ;;
     ret (badge =? 1))
    (fun error =>
       console_log ("Error fetching quiz result for topic "
                    +:+ pretty topicId +:+ ": " +:+ Err_toString error) ;;
       throw error).

(** The body of the second [for (const topic of topics)] of the handler. *)
Definition topic_body (fuel : nat) (topic : TopicRef) (_ : unit)
  : M World unit :=
  done <- resultQuiz (topicId topic) ;;
  if done : bool then
    console_log ("Quiz with id " +:+ pretty (topicId topic)
                 +:+ " is already done!")
  else
    console_log ("Solving quiz " +:+ pretty (topicId topic)) ;;
    attemptOneQuiz fuel (topicId topic) (topicName topic) ;;
    console_log ("Quiz " +:+ pretty (topicId topic) +:+ " is finished.") ;;
    console_log "".

(** The body of [for (const unit of unitIds)]. *)
Definition unit_body (fuel : nat) (unit : string) (_ : Datatypes.unit)
  : M World Datatypes.unit :=
  topics <- getUnitTopics unit ;;
  for_of topics
         (fun topic _ =>
            console_log (pretty (topicId topic) +:+ ": "
                         +:+ topicName topic))
         tt ;;
  for_of topics (topic_body fuel) tt.

(** [app.post('/', async (req, res) => ...)]: the response sent. *)
Definition app_post (fuel : nat) (body : ReqBody) : M World HttpResponse :=
  if falsy (accessToken body) || falsy (unitId body) then
    ret (mkHttpResponse 400
           (ErrorBody "Missing accessToken or unitId in request data."))
  else
    set_ACCESS_TOKEN (accessToken body) ;;
    try_catch
      (let unitIds := split_space (default "" (unitId body)) in
       for_of unitIds (unit_body fuel) tt ;;
       ret (mkHttpResponse 200 (DoneBody logs "Processing complete")))
      (fun error => ret (mkHttpResponse 500 (ErrorBody (emessage error)))).

End Program.

Arguments getScore {World} svc quizId _.
Arguments attemptQuizApi {World} svc quizId questionId userAnswer _.
Arguments attemptQuiz_while {World} svc fuel quizId questionId currentScore
  score i correctOption _.
Arguments attemptQuiz {World} svc fuel quizId questionId currentScore _.
Arguments question_body {World} svc fuel quiz_Id question vars _.
Arguments questions_loop {World} svc fuel quiz_Id questions _.
Arguments attemptOneQuiz {World} svc fuel quizId topicName _.
Arguments getUnitTopics {World} svc unitId _.
Arguments resultQuiz {World} svc topicId _.
Arguments topic_body {World} svc fuel topic _ _.
Arguments unit_body {World} svc fuel unit _ _.
Arguments app_post {World} svc fuel body _.

(** ** Observations on a run *)

(** The [userAnswer] of every save-user-quiz-answer request of a trace, in
    the order issued: the options the prober submitted. *)
Fixpoint submitted (tr : list Event) : list (option string) :=
  match tr with
  | [] => []
  | EvSaveAnswer _ _ _ userAnswer _ :: rest => userAnswer :: submitted rest
  | _ :: rest => submitted rest
  end.

(** The score of the last successful submit-quiz readback of a trace, or
    [dflt] when it has none. *)
Fixpoint last_readback (tr : list Event) (dflt : Z) : Z :=
  match tr with
  | [] => dflt
  | EvSubmitQuiz _ _ (Ok sc) :: rest => last_readback rest sc
  | _ :: rest => last_readback rest dflt
  end.

(** The quizzes whose creation a trace requests, in the order requested: one
    per invocation of the quiz runner. *)
Fixpoint creations (tr : list Event) : list Z :=
  match tr with
  | [] => []
  | EvCreateQuiz _ quizId _ :: rest => quizId :: creations rest
  | _ :: rest => creations rest
  end.

(** Tests on events, and the number of events of a trace that pass one. *)
Definition is_create (ev : Event) : bool :=
  match ev with EvCreateQuiz _ _ _ => true | _ => false end.

Definition is_write (ev : Event) : bool :=
  match ev with EvWriteFile _ _ _ => true | _ => false end.

Definition count_events (p : Event -> bool) (tr : list Event) : nat :=
  length (List.filter p tr).

(** The [Authorization] header of a remote call ([None] for a file write,
    which carries none). *)
Definition auth_of (ev : Event) : option (option string) :=
  match ev with
  | EvSaveAnswer auth _ _ _ _ | EvSubmitQuiz auth _ _ | EvCreateQuiz auth _ _
  | EvTopicsUnit auth _ _ | EvQuizResult auth _ _ => Some auth
  | EvWriteFile _ _ _ => None
  end.

(** A remote call carried the credential [tok]; a file write carries
    none. *)
Definition carries (tok : option string) (ev : Event) : Prop :=
  match auth_of ev with
  | Some auth => auth = tok
  | None => True
  end.

(** The entry logged when a topic is skipped. *)
Definition skip_entry (topicId : Z) : ConsoleEntry :=
  Log ("Quiz with id " +:+ pretty topicId +:+ " is already done!").

(** The skip entries of a console: the lines that start as [skip_entry]
    does. *)
Definition is_skip (entry : ConsoleEntry) : bool :=
  match entry with
  | Log line => String.prefix "Quiz with id " line
  | LogError _ _ => false
  end.

Definition skipped (c : list ConsoleEntry) : list ConsoleEntry :=
  List.filter is_skip c.

(** ** States the program passes through *)

(** The state of a freshly started process: [ACCESS_TOKEN] from the
    environment, nothing issued, nothing printed. *)
Definition start {World} (w : World) (env_token : option string) : St World :=
  mkSt w env_token [] [].

(** The state after [console.log(line)]. *)
Definition logged {World} (line : string) (s : St World) : St World :=
  mkSt (world s) (ACCESS_TOKEN s) (trace s) (console s ++ [Log line]).

(** The state in which the handler runs its [try] block: [ACCESS_TOKEN]
    holds the request's credential. *)
Definition with_token {World} (tok : option string) (s : St World)
  : St World :=
  mkSt (world s) tok (trace s) (console s).

(** The state after [for (const topic of topics) console.log(...)], the
    first loop of the handler over a unit's topics. *)
Definition names_logged {World} (topics : list TopicRef) (s : St World)
  : St World :=
  mkSt (world s) (ACCESS_TOKEN s) (trace s)
       (console s
          ++ map (fun topic => Log (pretty (topicId topic) +:+ ": "
                                    +:+ topicName topic)) topics).

(** The eligible topics of a listing, as [getUnitTopics] returns them. *)
Definition eligible (topics : list Topic.t) : list TopicRef :=
  map (fun topic => mkTopicRef (Topic.id topic) (Topic.name topic))
      (filter (fun topic => Topic.contentFlag topic = true) topics).

(** ** What the service answers to a sequence of requests *)

(** The candidates [options[i], ..., options[i + n - 1]] the loop submits in
    [n] passes from index [i]; past the array they are [undefined]. *)
Definition candidates (i n : nat) : list (option string) :=
  map (fun j => options !! j) (seq i n).

(** What the service answers when the options [answers] are submitted one
    after the other for a question, each through [attemptQuizApi]. *)
Fixpoint submissions {World} (svc : Service World) (quizId questionId : Z)
    (answers : list (option string)) (s : St World)
  : list (Res Z) * St World :=
  match answers with
  | [] => ([], s)
  | userAnswer :: rest =>
      let '(r, s1) := attemptQuizApi svc quizId questionId userAnswer s in
      let '(rs, s2) := submissions svc quizId questionId rest s1 in
      (r :: rs, s2)
  end.

(** What the service answers when the completion status of the topics [ids]
    is queried one after the other. *)
Fixpoint poll_results {World} (svc : Service World) (auth : option string)
    (ids : list Z) (w : World) : list (Resp Z) * World :=
  match ids with
  | [] => ([], w)
  | id :: rest =>
      let '(w1, r) := quiz_result svc w auth id in
      let '(rs, w2) := poll_results svc auth rest w1 in
      (r :: rs, w2)
  end.

(** The value a variable holds after being assigned the elements of [l] one
    after the other, starting from [x]. *)
Definition last_assigned {A} (l : list A) (x : A) : A :=
  fold_left (fun _ y => y) l x.

(** ** Properties of computations and values *)

(** [s'] is reached from [s] by code that leaves [ACCESS_TOKEN] alone: the
    trace only grew, and every remote call added to it carried the
    credential of [s]. *)
Definition evolves {World} (s s' : St World) : Prop :=
  ACCESS_TOKEN s' = ACCESS_TOKEN s /\
  exists ext, trace s' = trace s ++ ext /\ Forall (carries (ACCESS_TOKEN s)) ext.

(** A computation all of whose runs evolve the state in this way. *)
Definition Evolving {World A} (m : M World A) : Prop :=
  forall s, evolves s (snd (m s)).

(** A computation that always settles: it never runs out of fuel. *)
Definition Settles {World A} (m : M World A) : Prop :=
  forall s, fst (m s) <> OutOfFuel.

(** A computation that requests no quiz creation and logs no skip entry. *)
Definition Quiet {World A} (m : M World A) : Prop :=
  forall s,
    exists ext c,
      trace (snd (m s)) = trace s ++ ext /\ creations ext = [] /\
      console (snd (m s)) = console s ++ c /\ skipped c = [].

(** The values [correctOption] can hold: [null], [undefined], or one of the
    four option keys. *)
Definition capturable (v : jsval) : Prop :=
  match v with
  | JsNull | JsUndefined => True
  | JsStr o => In o options
  end.

(** The characters a printed integer can start with. *)
Definition numeric_chars : list ascii :=
  list_ascii_of_string "0123456789-".

(** The first character of [s] is a decimal digit or a minus sign. *)
Definition starts_numeric (s : string) : Prop :=
  exists ch rest, s = String ch rest /\ In ch numeric_chars.

(** ** The report format, as the specification words it *)

(** One block of the report: the question's id, its text, its options and
    the value of the "Correct Option:" line. *)
Record Block := mkBlock {
  block_id : Z;
  block_question : string;
  block_options : list (string * string);
  block_correct : string
}.

(** The strings of [l], one after the other. *)
Definition concat_strings (l : list string) : string :=
  fold_right String.append "" l.

(** One "key: text" line. *)
Definition render_option (kv : string * string) : string :=
  fst kv +:+ ": " +:+ snd kv +:+ nl.

(** A block: a "Question ID:" line, a "Question:" line, an "Options:"
    section with one "key: text" line per option, a "Correct Option:" line
    and a blank line. *)
Definition render_block (b : Block) : string :=
  "Question ID: " +:+ pretty (block_id b) +:+ nl
  +:+ "Question: " +:+ block_question b +:+ nl
  +:+ "Options:" +:+ nl
  +:+ concat_strings (map render_option (block_options b))
  +:+ "Correct Option: " +:+ block_correct b +:+ nl
  +:+ nl.

(** The report: its blocks, one after the other. *)
Definition render_report (bs : list Block) : string :=
  concat_strings (map render_block bs).

(** The values a "Correct Option:" line may carry. *)
Definition correct_values : list string :=
  ["a"; "b"; "c"; "d"; "Not locked"].

(** The block the runner writes for a question whose probe returned
    [result]. *)
Definition block_of (question : Question.t) (result : ProbeResult) : Block :=
  mkBlock (Question.questionId question) (Question.question question)
          (Question.options question)
          (or_default (correctOption result) "Not locked").

(** A block that reports [question]: its id, text and options, and a
    "Correct Option:" value among [a], [b], [c], [d] and "Not locked". *)
Definition block_for (question : Question.t) (b : Block) : Prop :=
  block_id b = Question.questionId question /\
  block_question b = Question.question question /\
  block_options b = Question.options question /\
  In (block_correct b) correct_values.

(** ** Concrete services and runs *)

(** The error of a call that did not get through. *)
Definition unavailable : Err := mkErr "AxiosError" "Network Error".

(** A service whose score readback is always [sc]: every answer is saved,
    no submission changes the score, nothing else is served. *)
Definition steady_service (sc : Z) : Service unit :=
  mkService unit
    (fun w _ _ _ _ => (w, Ok tt))
    (fun w _ _ => (w, Ok sc))
    (fun w _ _ => (w, Fail unavailable))
    (fun w _ _ => (w, Fail unavailable))
    (fun w _ _ => (w, Fail unavailable))
    (fun w _ _ => (w, Ok tt)).

(** A scripted service: each endpoint answers its successive calls with the
    successive elements of its own queue, and fails once the queue is
    empty. *)
Record Script := mkScript {
  on_save : list (Resp unit);
  on_score : list (Resp Z);
  on_create : list (Resp Payload.t);
  on_topics : list (Resp (list Topic.t));
  on_result : list (Resp Z);
  on_write : list (Resp unit)
}.

(** The head of a queue of answers, or a failure when it is empty. *)
Definition next {A} (queue : list (Resp A)) : list (Resp A) * Resp A :=
  match queue with
  | [] => ([], Fail unavailable)
  | r :: rest => (rest, r)
  end.

Definition scripted : Service Script :=
  mkService Script
    (fun w _ _ _ _ =>
       let '(q, r) := next (on_save w) in
       (mkScript q (on_score w) (on_create w) (on_topics w) (on_result w)
                 (on_write w), r))
    (fun w _ _ =>
       let '(q, r) := next (on_score w) in
       (mkScript (on_save w) q (on_create w) (on_topics w) (on_result w)
                 (on_write w), r))
    (fun w _ _ =>
       let '(q, r) := next (on_create w) in
       (mkScript (on_save w) (on_score w) q (on_topics w) (on_result w)
                 (on_write w), r))
    (fun w _ _ =>
       let '(q, r) := next (on_topics w) in
       (mkScript (on_save w) (on_score w) (on_create w) q (on_result w)
                 (on_write w), r))
    (fun w _ _ =>
       let '(q, r) := next (on_result w) in
       (mkScript (on_save w) (on_score w) (on_create w) (on_topics w) q
                 (on_write w), r))
    (fun w _ _ =>
       let '(q, r) := next (on_write w) in
       (mkScript (on_save w) (on_score w) (on_create w) (on_topics w)
                 (on_result w) q, r)).

(** A question whose correct option is [d]: the first three readbacks leave
    the score at 0, the fourth raises it to 1. *)
Definition script_d : Script :=
  mkScript [Ok tt; Ok tt; Ok tt; Ok tt] [Ok 0; Ok 0; Ok 0; Ok 1] [] [] [] [].

(** An attempt that already holds three correct answers when its first
    question is probed from [currentScore = 0]: the first readback is 3, the
    second submission fails. *)
Definition script_stale : Script :=
  mkScript [Ok tt; Ok tt] [Ok 3] [] [] [] [].

(** A question probed from [currentScore = 0] whose first readback is 0 and
    whose second submission fails. *)
Definition script_fail_second : Script :=
  mkScript [Ok tt; Ok tt] [Ok 0] [] [] [] [].

(** A quiz of two questions: the first is locked on [b]; the first
    submission for the second fails. *)
Definition first_question : Question.t :=
  Question.mk 26180 "What is a reward?"
    [("a", "A benefit"); ("b", "A signal"); ("c", "A state");
     ("d", "A policy")].

Definition second_question : Question.t :=
  Question.mk 26183 "What is a policy?"
    [("a", "A value"); ("b", "A strategy")].

Definition two_questions : Payload.t :=
  Payload.mk 77 [first_question; second_question].

(** The service during that quiz: [a] then [b] are saved and read back 0
    then 1; the save for the second question fails; the file is written. *)
Definition script_two_questions : Script :=
  mkScript [Ok tt; Ok tt; Fail unavailable] [Ok 0; Ok 1]
           [Ok two_questions] [] [] [Ok tt].

(** A stateless service with one unit of three topics, two of them
    eligible (5 and 7): [passed] tells which topics carry the badge,
    [create] what creating the quiz of a topic answers; scores never move. *)
Definition campus_topics : list Topic.t :=
  [Topic.mk 5 "Intro RL" true; Topic.mk 6 "Draft" false;
   Topic.mk 7 "Bandits" true].

Definition campus (passed : Z -> bool) (create : Z -> Resp Payload.t)
  : Service unit :=
  mkService unit
    (fun w _ _ _ _ => (w, Ok tt))
    (fun w _ _ => (w, Ok 0))
    (fun w _ topic => (w, create topic))
    (fun w _ _ => (w, Ok campus_topics))
    (fun w _ topic => (w, Ok (if passed topic then 1 else 0)))
    (fun w _ _ => (w, Ok tt)).

(** Creating a quiz without questions. *)
Definition empty_quiz (topic : Z) : Resp Payload.t :=
  Ok (Payload.mk (topic + 100) []).

(** Creating the quiz of topic 5 fails; the other topics have an empty
    quiz. *)
Definition create_breaks_first (topic : Z) : Resp Payload.t :=
  if topic =? 5 then Fail unavailable else empty_quiz topic.

(** No quiz can be created. *)
Definition create_fails (topic : Z) : Resp Payload.t := Fail unavailable.

(** The first question of the repository's report
    [RL_GEN-AI/rl-1/applying_bandits_to_optimize_ad_placements.txt] and a
    service on which its option [b] is the correct one. *)
Definition sample_question : Question.t :=
  Question.mk 28006
    "What does using deep learning in contextual bandits help with?"
    [("a", "Storing all possible state-action pairs");
     ("b", "Approximate the function mapping states to optimal actions");
     ("c", "Reducing the need for context");
     ("d", "Maximizing user interactions")].

Definition script_sample : Script :=
  mkScript [Ok tt; Ok tt] [Ok 0; Ok 1]
           [Ok (Payload.mk 4001 [sample_question])] [] [] [Ok tt].

(** ** Further observations *)

(** A computation that only adds events satisfying [P] to the trace. *)
Definition Emits {World A} (P : Event -> Prop) (m : M World A) : Prop :=
  forall s, exists ext, trace (snd (m s)) = trace s ++ ext /\ Forall P ext.

(** The requests of a probe of question [questionId] of quiz [quizId]: the
    saves of an answer to that question and the score readbacks of that
    quiz. *)
Definition probe_event (quizId questionId : Z) (ev : Event) : Prop :=
  match ev with
  | EvSaveAnswer _ quiz question _ _ => quiz = quizId /\ question = questionId
  | EvSubmitQuiz _ quiz _ => quiz = quizId
  | _ => False
  end.

(** The number of score readbacks a trace requests. *)
Definition is_readback (ev : Event) : bool :=
  match ev with EvSubmitQuiz _ _ _ => true | _ => false end.

(** The units whose topics a trace lists, in the order listed. *)
Fixpoint listed (tr : list Event) : list string :=
  match tr with
  | [] => []
  | EvTopicsUnit _ unitId _ :: rest => unitId :: listed rest
  | _ :: rest => listed rest
  end.

(** A call that the service answered. *)
Definition answered {A} (r : Resp A) : Prop :=
  match r with
  | Ok _ => True
  | Fail _ => False
  end.

(** An event that is a submission of the prober, or else a call that the
    service answered. *)
Definition probe_or_answered (ev : Event) : Prop :=
  match ev with
  | EvSaveAnswer _ _ _ _ _ | EvSubmitQuiz _ _ _ => True
  | EvCreateQuiz _ _ r => answered r
  | EvTopicsUnit _ _ r => answered r
  | EvQuizResult _ _ r => answered r
  | EvWriteFile _ _ r => answered r
  end.

(** A computation whose trace, when it returns a value, only gained events
    satisfying [P]. *)
Definition Vouches {World A} (P : Event -> Prop) (m : M World A) : Prop :=
  forall s,
    exists ext,
      trace (snd (m s)) = trace s ++ ext /\
      forall a, fst (m s) = Val a -> Forall P ext.

(** A computation that never returns a value after a failure: it throws or
    runs out of fuel. *)
Definition Rethrows {World A} (m : M World A) : Prop :=
  forall s a, fst (m s) <> Val a.

(** A character of a sanitized file name: a lower-case letter, a digit or
    an underscore. *)
Definition is_file_char (c : ascii) : bool :=
  let n := Ascii.nat_of_ascii c in
  ((48 <=? n) && (n <=? 57) || (97 <=? n) && (n <=? 122) || (n =? 95))%nat.

Fixpoint string_forallb (p : ascii -> bool) (s : string) : bool :=
  match s with
  | EmptyString => true
  | String c rest => p c && string_forallb p rest
  end.

(** The call recorded by [ev] failed with the error [e]. *)
Definition failed_with (e : Err) (ev : Event) : Prop :=
  match ev with
  | EvSaveAnswer _ _ _ _ (Fail e') | EvSubmitQuiz _ _ (Fail e')
  | EvCreateQuiz _ _ (Fail e') | EvTopicsUnit _ _ (Fail e')
  | EvQuizResult _ _ (Fail e') | EvWriteFile _ _ (Fail e') => e' = e
  | _ => False
  end.

(** [pieces.join(' ')] *)
Fixpoint join_space (pieces : list string) : string :=
  match pieces with
  | [] => ""
  | [piece] => piece
  | piece :: rest => piece +:+ " " +:+ join_space rest
  end.

Definition no_space (s : string) : bool :=
  string_forallb (fun c => negb (Ascii.eqb c " "%char)) s.

(** An event that is not the listing of a unit's topics. *)
Definition not_listing (ev : Event) : Prop :=
  match ev with
  | EvTopicsUnit _ _ _ => False
  | _ => True
  end.

(** An event that is not the writing of a file. *)
Definition not_write (ev : Event) : Prop := is_write ev = false.

(** An event of some probe: a save of an answer or a score readback. *)
Definition probing (ev : Event) : Prop :=
  match ev with
  | EvSaveAnswer _ _ _ _ _ | EvSubmitQuiz _ _ _ => True
  | _ => False
  end.

(** The block of a question that was not locked. *)
Definition not_locked_block (question : Question.t) : Block :=
  mkBlock (Question.questionId question) (Question.question question)
          (Question.options question) "Not locked".

(** A service that rejects every answer: the save request always fails. *)
Definition rejects_every_answer {World} (svc : Service World) : Prop :=
  forall w tok quizId questionId userAnswer,
  exists e,
    snd (save_user_quiz_answer svc w tok quizId questionId userAnswer)
    = Fail e.

(** A service on which no answer can be saved but quizzes are created and
    files written. *)
Definition offline_answers (quiz : Payload.t) : Service unit :=
  mkService unit
    (fun w _ _ _ _ => (w, Fail unavailable))
    (fun w _ _ => (w, Ok 0))
    (fun w _ _ => (w, Ok quiz))
    (fun w _ _ => (w, Fail unavailable))
    (fun w _ _ => (w, Fail unavailable))
    (fun w _ _ => (w, Ok tt)).

(** A service that creates the quiz but cannot write the file. *)
Definition script_disk_full : Script :=
  mkScript [] [] [Ok (Payload.mk 77 [])] [] []
           [Fail (mkErr "Error" "ENOSPC: no space left on device")].

(** ** A service that scores answers against a key *)

(** The service keeps the last answer saved for each question and reads back
    the number of questions whose saved answer is the one of the key. *)
Definition forget (questionId : Z) (saved : list (Z * option string))
  : list (Z * option string) :=
  List.filter (fun entry => negb (fst entry =? questionId)) saved.

Definition is_correct (key : Z -> string) (entry : Z * option string) : bool :=
  match snd entry with
  | Some answer => String.eqb answer (key (fst entry))
  | None => false
  end.

Definition keyed_score (key : Z -> string) (saved : list (Z * option string))
  : Z :=
  Z.of_nat (length (List.filter (is_correct key) saved)).

Definition keyed (key : Z -> string) (quiz : Payload.t)
  : Service (list (Z * option string)) :=
  mkService (list (Z * option string))
    (fun w _ _ questionId userAnswer =>
       ((questionId, userAnswer) :: forget questionId w, Ok tt))
    (fun w _ _ => (w, Ok (keyed_score key w)))
    (fun w _ _ => (w, Ok quiz))
    (fun w _ _ => (w, Fail unavailable))
    (fun w _ _ => (w, Fail unavailable))
    (fun w _ _ => (w, Ok tt)).

(** The block of a question locked on the option of the key. *)
Definition keyed_block (key : Z -> string) (question : Question.t) : Block :=
  mkBlock (Question.questionId question) (Question.question question)
          (Question.options question) (key (Question.questionId question)).

(** The key of the two questions of [two_questions]: [b] and [d]. *)
Definition two_keys (questionId : Z) : string :=
  if questionId =? 26180 then "b" else "d".

(** ** The form of [public/script.js] *)

(** What becomes of [fetch('/', ...)]: the promise stays pending, is
    rejected, or is fulfilled with a response (its status and its body). *)
Inductive FetchOutcome : Type :=
| FetchPending
| FetchRejected (e : Err)
| FetchResponse (status : Z) (blob : JsonBody).

(** What the submit listener does, in order. *)
Inductive UiAction : Type :=
| PreventDefault                          (* event.preventDefault() *)
| Alert (message : string)                (* alert(message) *)
| Fetch (body : ReqBody)                  (* fetch('/', { method: 'POST', body }) *)
| Download (download : string) (blob : JsonBody)
                                          (* the <a download> element, clicked *)
| ConsoleError (line : string) (e : Err). (* console.error(line, error) *)

(** [response.ok] *)
Definition response_ok (status : Z) : bool :=
  (200 <=? status) && (status <=? 299).

Definition fetch_failed_alert : string :=
  "Failed to trigger main function in Express.js. Please try again later.".

(** The listener of the form's [submit] event, on the values of the two
    inputs; [trim] is [String.prototype.trim] and [fetch] what the network
    and the server make of the request. *)
Definition on_submit (trim : string -> string)
    (fetch : ReqBody -> FetchOutcome) (accessTokenValue unitIdValue : string)
  : list UiAction :=
  let accessToken := trim accessTokenValue in
  let unitId := trim unitIdValue in
  PreventDefault ::
  if String.eqb accessToken "" || String.eqb unitId "" then
    [Alert "Please enter both Access Token and Unit ID."]
  else
    let body := mkReqBody (Some accessToken) (Some unitId) in
    Fetch body ::
    match fetch body with
    | FetchPending => []
    | FetchRejected error =>
        [ConsoleError "Fetch error:" error; Alert fetch_failed_alert]
    | FetchResponse status blob =>
        if response_ok status then [Download "quizzes.txt" blob]
        else [ConsoleError "Fetch error:"
                (mkErr "Error" "Network response was not ok");
              Alert fetch_failed_alert]
    end.

(** The server behind [fetch]: the answer of the handler to the posted
    body, from the process state [s]; no answer while the handler runs. *)
Definition serve {World} (svc : Service World) (fuel : nat) (s : St World)
    (body : ReqBody) : FetchOutcome :=
  match fst (app_post svc fuel body s) with
  | Val response => FetchResponse (status response) (json response)
  | Throw e => FetchRejected e
  | OutOfFuel => FetchPending
  end.

(** [trim] on ASCII white space. *)
Definition is_space (c : ascii) : bool :=
  let n := Ascii.nat_of_ascii c in
  ((9 <=? n) && (n <=? 13) || (n =? 32))%nat.

Fixpoint trim_start (s : string) : string :=
  match s with
  | EmptyString => EmptyString
  | String c rest => if is_space c then trim_start rest else s
  end.

Fixpoint trim_end (s : string) : string :=
  match s with
  | EmptyString => EmptyString
  | String c rest =>
      match trim_end rest with
      | EmptyString => if is_space c then EmptyString else String c EmptyString
      | rest' => String c rest'
      end
  end.

Definition trim_ascii (s : string) : string := trim_end (trim_start s).

(** ** Reading a report *)

(** The lines of a text: its pieces between line feeds. *)
Fixpoint text_lines (s : string) : list string :=
  match s with
  | EmptyString => [EmptyString]
  | String c rest =>
      if Ascii.eqb c (Ascii.ascii_of_nat 10) then
        EmptyString :: text_lines rest
      else
        match text_lines rest with
        | line :: more => String c line :: more
        | [] => [String c EmptyString]
        end
  end.

Definition is_blank (line : string) : bool :=
  match line with
  | EmptyString => true
  | String _ _ => false
  end.

(** The lines between blank lines, group by group. *)
Fixpoint split_blank (ls : list string) : list (list string) :=
  match ls with
  | [] => [[]]
  | line :: rest =>
      if is_blank line then [] :: split_blank rest
      else
        match split_blank rest with
        | group :: more => (line :: group) :: more
        | [] => [[line]]
        end
  end.

Definition has_lines (group : list string) : bool :=
  match group with
  | [] => false
  | _ :: _ => true
  end.

(** The blocks a reader of the report finds: the runs of lines that blank
    lines separate. *)
Definition report_blocks (content : string) : list (list string) :=
  List.filter has_lines (split_blank (text_lines content)).

(** The lines of a block, as the format lists them. *)
Definition block_lines (b : Block) : list string :=
  ["Question ID: " +:+ pretty (block_id b);
   "Question: " +:+ block_question b;
   "Options:"]
  ++ map (fun kv => fst kv +:+ ": " +:+ snd kv) (block_options b)
  ++ ["Correct Option: " +:+ block_correct b].

(** A text without line feed. *)
Definition no_line_feed (s : string) : bool :=
  string_forallb (fun c => negb (Ascii.eqb c (Ascii.ascii_of_nat 10))) s.

(** A question whose text, option keys and option texts hold no line
    feed. *)
Definition single_line (question : Question.t) : Prop :=
  no_line_feed (Question.question question) = true /\
  Forall (fun kv => no_line_feed (fst kv) = true /\
                    no_line_feed (snd kv) = true)
         (Question.options question).

(** A quiz of one question whose text is made of two paragraphs. *)
Definition two_paragraph_question : Question.t :=
  Question.mk 26190
    ("Consider an agent in a maze." +:+ nl +:+ nl
     +:+ "What does it maximise?")
    [("a", "Reward"); ("b", "Regret")].

Definition two_paragraph_quiz : Payload.t :=
  Payload.mk 78 [two_paragraph_question].

(** ** Runs that do not end *)

(** A computation that is out of fuel only when a probe has used all of it:
    the trace then ends with the [fuel] submissions [options[0]], ...,
    [options[fuel-1]] of one probe. *)
Definition StallsInProbe {World A} (fuel : nat) (m : M World A) : Prop :=
  forall s,
    exists ext,
      trace (snd (m s)) = trace s ++ ext /\
      (fst (m s) = OutOfFuel ->
       exists before, submitted ext = before ++ candidates 0 fuel).

(** A block whose question text, option keys, option texts and "Correct
    Option:" value hold no line feed. *)
Definition single_line_block (b : Block) : Prop :=
  no_line_feed (block_question b) = true /\
  Forall (fun kv => no_line_feed (fst kv) = true /\
                    no_line_feed (snd kv) = true) (block_options b) /\
  no_line_feed (block_correct b) = true.

(** * Facts about the program *)

(** ** The monad *)

Section MonadFacts.
Context {World : Type}.
Implicit Types s : St World.

Lemma evolves_refl s : evolves s s.
Proof.
  split; [reflexivity|]. exists []. rewrite app_nil_r. split; [reflexivity|].
  constructor.
Qed.

Lemma evolves_trans s1 s2 s3 : evolves s1 s2 -> evolves s2 s3 -> evolves s1 s3.
Proof.
  intros [Ht1 (e1 & He1 & Hf1)] [Ht2 (e2 & He2 & Hf2)].
  split; [congruence|].
  exists (e1 ++ e2). split.
  - rewrite He2, He1. symmetry. apply app_assoc.
  - apply Forall_app. split; [exact Hf1|]. rewrite <- Ht1. exact Hf2.
Qed.

Lemma Evolving_ret {A} (a : A) : Evolving (World:=World) (ret a).
Proof. intros s. apply evolves_refl. Qed.

Lemma Evolving_throw {A} e : Evolving (World:=World) (A:=A) (throw e).
Proof. intros s. apply evolves_refl. Qed.

Lemma Evolving_out_of_fuel {A} : Evolving (World:=World) (A:=A) out_of_fuel.
Proof. intros s. apply evolves_refl. Qed.

Lemma Evolving_console_log line : Evolving (World:=World) (console_log line).
Proof.
  intros s. split; [reflexivity|]. exists []. simpl. rewrite app_nil_r.
  split; [reflexivity|constructor].
Qed.

Lemma Evolving_console_error line e :
  Evolving (World:=World) (console_error line e).
Proof.
  intros s. split; [reflexivity|]. exists []. simpl. rewrite app_nil_r.
  split; [reflexivity|constructor].
Qed.

Lemma Evolving_bind {A B} (m : M World A) (k : A -> M World B) :
  Evolving m -> (forall a, Evolving (k a)) -> Evolving (bind m k).
Proof.
  intros Hm Hk s. unfold bind. specialize (Hm s).
  destruct (m s) as [[a|e|] s1]; simpl in *; [|exact Hm|exact Hm].
  eapply evolves_trans; [exact Hm|]. apply Hk.
Qed.

Lemma Evolving_try_catch {A} (m : M World A) (h : Err -> M World A) :
  Evolving m -> (forall e, Evolving (h e)) -> Evolving (try_catch m h).
Proof.
  intros Hm Hh s. unfold try_catch. specialize (Hm s).
  destruct (m s) as [[a|e|] s1]; simpl in *; [exact Hm| |exact Hm].
  eapply evolves_trans; [exact Hm|]. apply Hh.
Qed.

Lemma Evolving_await {A} (call : World -> World * Resp A) ev :
  (forall r, auth_of (ev r) = None) -> Evolving (await call ev).
Proof.
  intros Hev s. unfold await.
  destruct (call (world s)) as [w' r].
  assert (evolves s (mkSt w' (ACCESS_TOKEN s) (trace s ++ [ev r]) (console s)))
    as H.
  { split; [reflexivity|]. exists [ev r]. split; [reflexivity|].
    constructor; [|constructor]. unfold carries. now rewrite Hev. }
  destruct r; exact H.
Qed.

Lemma Evolving_axios {A} (call : World -> option string -> World * Resp A) ev :
  (forall tok r, auth_of (ev tok r) = Some tok) -> Evolving (axios call ev).
Proof.
  intros Hev s. unfold axios, await.
  destruct (call (world s) (ACCESS_TOKEN s)) as [w' r].
  assert (evolves s (mkSt w' (ACCESS_TOKEN s)
                          (trace s ++ [ev (ACCESS_TOKEN s) r]) (console s)))
    as H.
  { split; [reflexivity|]. exists [ev (ACCESS_TOKEN s) r].
    split; [reflexivity|].
    constructor; [|constructor]. unfold carries. now rewrite Hev. }
  destruct r; exact H.
Qed.

Lemma Evolving_for_of {A S} (l : list A) (body : A -> S -> M World S) acc :
  (forall x a, Evolving (body x a)) -> Evolving (for_of l body acc).
Proof.
  intros Hb. revert acc.
  induction l as [|x rest IH]; intros acc; simpl.
  - apply Evolving_ret.
  - apply Evolving_bind; [apply Hb|]. intros a. apply IH.
Qed.

Lemma Settles_ret {A} (a : A) : Settles (World:=World) (ret a).
Proof. intros s. discriminate. Qed.

Lemma Settles_throw {A} e : Settles (World:=World) (A:=A) (throw e).
Proof. intros s. discriminate. Qed.

Lemma Settles_console_log line : Settles (World:=World) (console_log line).
Proof. intros s. discriminate. Qed.

Lemma Settles_console_error line e :
  Settles (World:=World) (console_error line e).
Proof. intros s. discriminate. Qed.

Lemma Settles_bind {A B} (m : M World A) (k : A -> M World B) :
  Settles m -> (forall a, Settles (k a)) -> Settles (bind m k).
Proof.
  intros Hm Hk s. unfold bind. specialize (Hm s).
  destruct (m s) as [[a|e|] s1]; simpl in *;
    [apply Hk|discriminate|congruence].
Qed.

Lemma Settles_try_catch {A} (m : M World A) (h : Err -> M World A) :
  Settles m -> (forall e, Settles (h e)) -> Settles (try_catch m h).
Proof.
  intros Hm Hh s. unfold try_catch. specialize (Hm s).
  destruct (m s) as [[a|e|] s1]; simpl in *;
    [discriminate|apply Hh|congruence].
Qed.

Lemma Settles_await {A} (call : World -> World * Resp A) ev :
  Settles (await call ev).
Proof.
  intros s. unfold await. destruct (call (world s)) as [w' []]; discriminate.
Qed.

Lemma Settles_axios {A} (call : World -> option string -> World * Resp A) ev :
  Settles (axios call ev).
Proof. intros s. unfold axios. apply Settles_await. Qed.

(** A loop over a prefix followed by the loop over the rest. *)
Lemma for_of_app {A S} (l1 l2 : list A) (body : A -> S -> M World S) acc s :
  for_of (l1 ++ l2) body acc s
  = bind (for_of l1 body acc) (fun acc' => for_of l2 body acc') s.
Proof.
  revert acc s. induction l1 as [|x l1 IH]; intros acc s; simpl.
  - reflexivity.
  - unfold bind.
    destruct (body x acc s) as [[a|e|] s1]; [|reflexivity|reflexivity].
    rewrite IH. reflexivity.
Qed.

Lemma for_of_single {A S} (x : A) (body : A -> S -> M World S) acc s :
  for_of [x] body acc s = body x acc s.
Proof.
  simpl. unfold bind, ret.
  destruct (body x acc s) as [[a|e|] s1]; reflexivity.
Qed.

Lemma for_of_cons_val {A S} (x : A) (l : list A) (body : A -> S -> M World S)
    acc s a s1 :
  body x acc s = (Val a, s1) ->
  for_of (x :: l) body acc s = for_of l body a s1.
Proof. intros H. cbn [for_of]. unfold bind. now rewrite H. Qed.

Lemma for_of_cons_throw {A S} (x : A) (l : list A)
    (body : A -> S -> M World S) acc s e s1 :
  body x acc s = (Throw e, s1) ->
  for_of (x :: l) body acc s = (Throw e, s1).
Proof. intros H. cbn [for_of]. unfold bind. now rewrite H. Qed.

Lemma for_of_cons_out_of_fuel {A S} (x : A) (l : list A)
    (body : A -> S -> M World S) acc s s1 :
  body x acc s = (OutOfFuel, s1) ->
  for_of (x :: l) body acc s = (OutOfFuel, s1).
Proof. intros H. cbn [for_of]. unfold bind. now rewrite H. Qed.

End MonadFacts.

Create HintDb evolving.
#[export] Hint Resolve Evolving_ret Evolving_throw Evolving_out_of_fuel
  Evolving_console_log Evolving_console_error Evolving_bind
  Evolving_try_catch Evolving_for_of : evolving.

Create HintDb settles.
#[export] Hint Resolve Settles_ret Settles_throw Settles_console_log
  Settles_console_error Settles_bind Settles_try_catch Settles_await
  Settles_axios : settles.

(** ** Traces *)

Lemma submitted_app (t1 t2 : list Event) :
  submitted (t1 ++ t2) = submitted t1 ++ submitted t2.
Proof.
  induction t1 as [|ev t1 IH]; simpl; [reflexivity|].
  destruct ev; simpl; rewrite IH; reflexivity.
Qed.

Lemma last_readback_app (t1 t2 : list Event) (dflt : Z) :
  last_readback (t1 ++ t2) dflt = last_readback t2 (last_readback t1 dflt).
Proof.
  revert dflt. induction t1 as [|ev t1 IH]; intros dflt; simpl; [reflexivity|].
  destruct ev as [| ? ? [sc|e] | | | |]; simpl; apply IH.
Qed.

Lemma candidates_S (i n : nat) :
  candidates i (S n) = options !! i :: candidates (S i) n.
Proof. reflexivity. Qed.

Lemma candidates_snoc (i n : nat) :
  candidates i (S n) = candidates i n ++ [options !! (i + n)%nat].
Proof.
  unfold candidates. rewrite seq_S, map_app. reflexivity.
Qed.

Lemma candidates_length (i n : nat) : length (candidates i n) = n.
Proof. unfold candidates. rewrite length_map. apply length_seq. Qed.

(** ** The remote client *)

Section ClientFacts.
Context {World : Type} (svc : Service World).
Implicit Types s : St World.

Lemma Evolving_getScore quizId : Evolving (getScore svc quizId).
Proof.
  unfold getScore. apply Evolving_try_catch.
  - apply Evolving_axios. reflexivity.
  - intros e. auto with evolving.
Qed.

Lemma Settles_getScore quizId : Settles (getScore svc quizId).
Proof. unfold getScore. auto 6 with settles. Qed.

Lemma Evolving_attemptQuizApi quizId questionId userAnswer :
  Evolving (attemptQuizApi svc quizId questionId userAnswer).
Proof.
  unfold attemptQuizApi. apply Evolving_try_catch.
  - apply Evolving_bind.
    + apply Evolving_axios. reflexivity.
    + intros _. apply Evolving_getScore.
  - intros e. auto with evolving.
Qed.

Lemma Settles_attemptQuizApi quizId questionId userAnswer :
  Settles (attemptQuizApi svc quizId questionId userAnswer).
Proof.
  unfold attemptQuizApi. apply Settles_try_catch.
  - apply Settles_bind; [apply Settles_axios|]. intros _.
    apply Settles_getScore.
  - intros e. auto with settles.
Qed.

(** One submission is one save request, then, when the answer was saved,
    one score readback; its result is the readback's. *)
Lemma attemptQuizApi_cases quizId questionId userAnswer s :
  let tok := ACCESS_TOKEN s in
  let save r := EvSaveAnswer tok quizId questionId userAnswer r in
  let attempting :=
    LogError ("Error attempting quiz " +:+ pretty quizId +:+ ", question "
              +:+ pretty questionId +:+ ":") in
  let submitting :=
    LogError ("Error submitting quiz " +:+ pretty quizId +:+ ":") in
  match save_user_quiz_answer svc (world s) tok quizId questionId userAnswer
  with
  | (w1, Fail e) =>
      attemptQuizApi svc quizId questionId userAnswer s
      = (Throw e, mkSt w1 tok (trace s ++ [save (Fail e)])
                       (console s ++ [attempting e]))
  | (w1, Ok u) =>
      match submit_quiz svc w1 tok quizId with
      | (w2, Ok sc) =>
          attemptQuizApi svc quizId questionId userAnswer s
          = (Val sc,
             mkSt w2 tok
                  ((trace s ++ [save (Ok u)])
                     ++ [EvSubmitQuiz tok quizId (Ok sc)])
                  (console s))
      | (w2, Fail e) =>
          attemptQuizApi svc quizId questionId userAnswer s
          = (Throw e,
             mkSt w2 tok
                  ((trace s ++ [save (Ok u)])
                     ++ [EvSubmitQuiz tok quizId (Fail e)])
                  ((console s ++ [submitting e]) ++ [attempting e]))
      end
  end.
Proof.
  cbv zeta.
  unfold attemptQuizApi, getScore, try_catch, bind, axios, await; simpl.
  destruct (save_user_quiz_answer svc (world s) (ACCESS_TOKEN s) quizId
              questionId userAnswer) as [w1 [u|e]]; simpl; [|reflexivity].
  destruct (submit_quiz svc w1 (ACCESS_TOKEN s) quizId) as [w2 [sc|e]];
    reflexivity.
Qed.

(** Every submission issues exactly one save request, whatever comes of
    it. *)
Lemma attemptQuizApi_submitted quizId questionId userAnswer s :
  submitted (trace (snd (attemptQuizApi svc quizId questionId userAnswer s)))
  = submitted (trace s) ++ [userAnswer].
Proof.
  pose proof (attemptQuizApi_cases quizId questionId userAnswer s) as H.
  cbv zeta in H.
  destruct (save_user_quiz_answer svc (world s) (ACCESS_TOKEN s) quizId
              questionId userAnswer) as [w1 [u|e]].
  - destruct (submit_quiz svc w1 (ACCESS_TOKEN s) quizId) as [w2 [sc|e]];
      rewrite H; simpl; rewrite !submitted_app; simpl;
      rewrite app_nil_r; reflexivity.
  - rewrite H; simpl. rewrite submitted_app. reflexivity.
Qed.

(** The score a successful submission returns is the last readback of the
    trace it leaves. *)
Lemma attemptQuizApi_readback quizId questionId userAnswer s sc s1 dflt :
  attemptQuizApi svc quizId questionId userAnswer s = (Val sc, s1) ->
  exists ext, trace s1 = trace s ++ ext /\ last_readback ext dflt = sc.
Proof.
  intros Hrun.
  pose proof (attemptQuizApi_cases quizId questionId userAnswer s) as H.
  cbv zeta in H.
  destruct (save_user_quiz_answer svc (world s) (ACCESS_TOKEN s) quizId
              questionId userAnswer) as [w1 [u|e]]; [|congruence].
  destruct (submit_quiz svc w1 (ACCESS_TOKEN s) quizId) as [w2 [sc'|e]];
    [|congruence].
  rewrite H in Hrun. inversion Hrun; subst; simpl.
  eexists. split; [symmetry; apply app_assoc|]. reflexivity.
Qed.

(** A failed submission has no successful readback. *)
Lemma attemptQuizApi_no_readback quizId questionId userAnswer s e s1 dflt :
  attemptQuizApi svc quizId questionId userAnswer s = (Throw e, s1) ->
  exists ext, trace s1 = trace s ++ ext /\ last_readback ext dflt = dflt.
Proof.
  intros Hrun.
  pose proof (attemptQuizApi_cases quizId questionId userAnswer s) as H.
  cbv zeta in H.
  destruct (save_user_quiz_answer svc (world s) (ACCESS_TOKEN s) quizId
              questionId userAnswer) as [w1 [u|e']].
  - destruct (submit_quiz svc w1 (ACCESS_TOKEN s) quizId) as [w2 [sc'|e']];
      [congruence|].
    rewrite H in Hrun. inversion Hrun; subst; simpl.
    eexists. split; [symmetry; apply app_assoc|]. reflexivity.
  - rewrite H in Hrun. inversion Hrun; subst; simpl.
    eexists. split; [reflexivity|]. reflexivity.
Qed.

Lemma submissions_submitted quizId questionId answers s :
  submitted (trace (snd (submissions svc quizId questionId answers s)))
  = submitted (trace s) ++ answers.
Proof.
  revert s. induction answers as [|a rest IH]; intros s; simpl.
  - symmetry. apply app_nil_r.
  - pose proof (attemptQuizApi_submitted quizId questionId a s) as Ha.
    destruct (attemptQuizApi svc quizId questionId a s) as [r s1].
    specialize (IH s1).
    destruct (submissions svc quizId questionId rest s1) as [rs s2].
    simpl in *. rewrite IH, Ha, <- app_assoc. reflexivity.
Qed.

(** Submitting a sequence of options, then one more. *)
Lemma submissions_snoc quizId questionId answers a s :
  submissions svc quizId questionId (answers ++ [a]) s
  = let '(rs, s1) := submissions svc quizId questionId answers s in
    let '(r, s2) := attemptQuizApi svc quizId questionId a s1 in
    (rs ++ [r], s2).
Proof.
  revert s. induction answers as [|b rest IH]; intros s; simpl.
  - destruct (attemptQuizApi svc quizId questionId a s) as [r s1].
    reflexivity.
  - destruct (attemptQuizApi svc quizId questionId b s) as [r s1].
    rewrite IH.
    destruct (submissions svc quizId questionId rest s1) as [rs s2].
    destruct (attemptQuizApi svc quizId questionId a s2) as [r' s3].
    reflexivity.
Qed.

End ClientFacts.

(** ** The answer prober *)

Section ProberFacts.
Context {World : Type} (svc : Service World).
Implicit Types s : St World.

(** The loop is not entered again once the score is [currentScore + 1]. *)
Lemma while_exit fuel quizId questionId currentScore i correctOption s :
  attemptQuiz_while svc fuel quizId questionId currentScore
    (currentScore + 1) i correctOption s
  = (Val (mkProbeResult (currentScore + 1) correctOption), s).
Proof.
  destruct fuel; simpl; rewrite Z.eqb_refl; reflexivity.
Qed.

(** A pass whose submission returns a score other than [currentScore + 1]:
    the loop goes on with that score and the next index. *)
Lemma while_pass_continue fuel quizId questionId currentScore score i
    correctOption s score' s1 :
  score <> currentScore + 1 ->
  attemptQuizApi svc quizId questionId (options !! i) s = (Val score', s1) ->
  score' <> currentScore + 1 ->
  attemptQuiz_while svc (S fuel) quizId questionId currentScore score i
    correctOption s
  = attemptQuiz_while svc fuel quizId questionId currentScore score' (S i)
      correctOption s1.
Proof.
  intros Hsc Hapi Hsc'. simpl.
  apply Z.eqb_neq in Hsc. rewrite Hsc.
  unfold bind at 1, try_catch at 1, bind at 1. rewrite Hapi.
  apply Z.eqb_neq in Hsc'. rewrite Hsc'. unfold ret at 1.
  rewrite Nat.add_1_r. reflexivity.
Qed.

(** A pass whose submission returns [currentScore + 1]: [options[i]] is
    captured and the loop ends. *)
Lemma while_pass_lock fuel quizId questionId currentScore score i
    correctOption s s1 :
  score <> currentScore + 1 ->
  attemptQuizApi svc quizId questionId (options !! i) s
  = (Val (currentScore + 1), s1) ->
  attemptQuiz_while svc (S fuel) quizId questionId currentScore score i
    correctOption s
  = (Val (mkProbeResult (currentScore + 1) (jsval_of_lookup (options !! i))),
     logged ("Option " +:+ show_undefined (options !! i)
             +:+ " locked for question " +:+ pretty questionId) s1).
Proof.
  intros Hsc Hapi. simpl.
  apply Z.eqb_neq in Hsc. rewrite Hsc.
  unfold bind at 1, try_catch at 1, bind at 1. rewrite Hapi.
  rewrite Z.eqb_refl. unfold bind at 1, console_log at 1, ret at 1.
  apply while_exit.
Qed.

(** A pass whose submission fails: the [catch] logs and breaks. *)
Lemma while_pass_fail fuel quizId questionId currentScore score i
    correctOption s e s1 :
  score <> currentScore + 1 ->
  attemptQuizApi svc quizId questionId (options !! i) s = (Throw e, s1) ->
  attemptQuiz_while svc (S fuel) quizId questionId currentScore score i
    correctOption s
  = (Val (mkProbeResult score correctOption),
     logged ("Error with quiz " +:+ pretty quizId +:+ ", question "
             +:+ pretty questionId +:+ ", stopping attempts.") s1).
Proof.
  intros Hsc Hapi. simpl.
  apply Z.eqb_neq in Hsc. rewrite Hsc.
  unfold bind at 1, try_catch at 1, bind at 1. rewrite Hapi.
  reflexivity.
Qed.

(** Passes whose submissions all return scores other than
    [currentScore + 1]: the loop goes through them, keeping the last score
    read back. *)
Lemma while_run scores : forall fuel quizId questionId currentScore score i
    correctOption s,
  score <> currentScore + 1 ->
  fst (submissions svc quizId questionId (candidates i (length scores)) s)
  = map Val scores ->
  Forall (fun x => x <> currentScore + 1) scores ->
  attemptQuiz_while svc (length scores + fuel) quizId questionId currentScore
    score i correctOption s
  = attemptQuiz_while svc fuel quizId questionId currentScore
      (last_assigned scores score) (i + length scores) correctOption
      (snd (submissions svc quizId questionId (candidates i (length scores)) s)).
Proof.
  induction scores as [|x rest IH];
    intros fuel quizId questionId currentScore score i correctOption s
           Hsc Hsub Hall.
  - simpl. rewrite Nat.add_0_r. reflexivity.
  - simpl length in *. rewrite candidates_S in *.
    cbn [submissions] in Hsub |- *.
    destruct (attemptQuizApi svc quizId questionId (options !! i) s)
      as [r s1] eqn:Hapi.
    destruct (submissions svc quizId questionId
                (candidates (S i) (length rest)) s1) as [rs s2] eqn:Hrest.
    simpl in Hsub. injection Hsub as Hr Hrs. subst r.
    pose proof (Forall_inv Hall) as Hx.
    pose proof (Forall_inv_tail Hall) as Hrest_ok. simpl in Hx.
    change (attemptQuiz_while svc (S (length rest + fuel)) quizId questionId
              currentScore score i correctOption s
            = attemptQuiz_while svc fuel quizId questionId currentScore
                (last_assigned rest x) (i + S (length rest)) correctOption s2).
    rewrite (while_pass_continue _ _ _ _ _ _ _ _ _ _ Hsc Hapi Hx).
    rewrite (IH fuel quizId questionId currentScore x (S i) correctOption s1 Hx).
    + rewrite Hrest. simpl. rewrite Nat.add_succ_r. reflexivity.
    + rewrite Hrest. exact Hrs.
    + exact Hrest_ok.
Qed.

Lemma Evolving_attemptQuiz_while fuel : forall quizId questionId currentScore
    score i correctOption,
  Evolving (attemptQuiz_while svc fuel quizId questionId currentScore score i
              correctOption).
Proof.
  induction fuel as [|fuel IH];
    intros quizId questionId currentScore score i correctOption; simpl.
  - destruct (score =? currentScore + 1); auto with evolving.
  - destruct (score =? currentScore + 1); [auto with evolving|].
    apply Evolving_bind.
    + apply Evolving_try_catch.
      * apply Evolving_bind; [apply Evolving_attemptQuizApi|].
        intros sc'. destruct (sc' =? currentScore + 1); auto with evolving.
      * intros e. auto with evolving.
    + intros [sc' co'|]; [apply IH|auto with evolving].
Qed.

Lemma Evolving_attemptQuiz fuel quizId questionId currentScore :
  Evolving (attemptQuiz svc fuel quizId questionId currentScore).
Proof. apply Evolving_attemptQuiz_while. Qed.

(** The prober never throws: its [catch] swallows every failure. *)
Lemma attemptQuiz_while_no_throw fuel : forall quizId questionId currentScore
    score i correctOption s e,
  fst (attemptQuiz_while svc fuel quizId questionId currentScore score i
         correctOption s) <> Throw e.
Proof.
  induction fuel as [|fuel IH];
    intros quizId questionId currentScore score i correctOption s e; simpl.
  - destruct (score =? currentScore + 1); discriminate.
  - destruct (score =? currentScore + 1) eqn:Hsc; [discriminate|].
    apply Z.eqb_neq in Hsc.
    destruct (attemptQuizApi svc quizId questionId (options !! i) s)
      as [[sc'|e'|] s1] eqn:Hapi.
    + destruct (Z.eq_dec sc' (currentScore + 1)) as [->|Hne].
      * pose proof (while_pass_lock fuel _ _ _ _ _ correctOption _ _ Hsc Hapi)
          as H. simpl in H. apply Z.eqb_neq in Hsc. rewrite Hsc in H.
        rewrite H. discriminate.
      * pose proof (while_pass_continue fuel _ _ _ _ _ correctOption _ _ _
                      Hsc Hapi Hne) as H.
        simpl in H. apply Z.eqb_neq in Hsc. rewrite Hsc in H.
        rewrite H. apply IH.
    + pose proof (while_pass_fail fuel _ _ _ _ _ correctOption _ _ _ Hsc Hapi)
        as H. simpl in H. apply Z.eqb_neq in Hsc. rewrite Hsc in H.
      rewrite H. discriminate.
    + exfalso. apply (Settles_attemptQuizApi svc quizId questionId
                        (options !! i) s). now rewrite Hapi.
Qed.

End ProberFacts.

Lemma last_assigned_Forall {A} (P : A -> Prop) (l : list A) (x : A) :
  P x -> Forall P l -> P (last_assigned l x).
Proof.
  unfold last_assigned. revert x.
  induction l as [|y l IH]; intros x Hx Hl; simpl; [exact Hx|].
  apply IH; [exact (Forall_inv Hl)|exact (Forall_inv_tail Hl)].
Qed.

Lemma last_assigned_const {A} (l : list A) (x : A) :
  Forall (fun y => y = x) l -> last_assigned l x = x.
Proof. intros H. apply (last_assigned_Forall (fun y => y = x)); auto. Qed.

Section ProbeRuns.
Context {World : Type} (svc : Service World).
Implicit Types s : St World.

(** The first [k] passes of a probe whose first [k] submissions return
    scores other than [currentScore + 1]: the loop stands at index [k], about
    to issue submission [k + 1], whose outcome is [r]. *)
Lemma probe_prefix fuel quizId questionId currentScore s scores r :
  Forall (fun x => x <> currentScore + 1) scores ->
  fst (submissions svc quizId questionId (candidates 0 (S (length scores))) s)
  = map Val scores ++ [r] ->
  let s1 :=
    snd (submissions svc quizId questionId (candidates 0 (length scores)) s) in
  let s2 :=
    snd (submissions svc quizId questionId
           (candidates 0 (S (length scores))) s) in
  last_assigned scores currentScore <> currentScore + 1 /\
  attemptQuizApi svc quizId questionId (options !! length scores) s1 = (r, s2) /\
  attemptQuiz svc (length scores + S fuel) quizId questionId currentScore s
  = attemptQuiz_while svc (S fuel) quizId questionId currentScore
      (last_assigned scores currentScore) (length scores) JsNull s1.
Proof.
  intros Hall Hsub. cbv zeta.
  rewrite candidates_snoc, submissions_snoc in Hsub |- *.
  destruct (submissions svc quizId questionId
              (candidates 0 (length scores)) s) as [rs s1] eqn:Hpre.
  simpl (0 + length scores)%nat in *.
  destruct (attemptQuizApi svc quizId questionId (options !! length scores) s1)
    as [r' s2] eqn:Hapi.
  simpl in Hsub |- *. apply app_inj_tail in Hsub as [Hrs Hr]. subst r' rs.
  assert (currentScore <> currentScore + 1) as Hcs by lia.
  split; [apply last_assigned_Forall; assumption|].
  split; [exact Hapi|].
  unfold attemptQuiz.
  rewrite (while_run svc scores (S fuel) quizId questionId currentScore
             currentScore 0 JsNull s Hcs); [|now rewrite Hpre|exact Hall].
  rewrite Hpre. reflexivity.
Qed.

(** One pass of the loop issues the submission of [options[i]]; whatever
    follows only adds to the trace. *)
Lemma while_pass_trace fuel quizId questionId currentScore score i
    correctOption s :
  score <> currentScore + 1 ->
  exists ext,
    trace (snd (attemptQuiz_while svc (S fuel) quizId questionId currentScore
                  score i correctOption s))
    = trace (snd (attemptQuizApi svc quizId questionId (options !! i) s))
        ++ ext.
Proof.
  intros Hsc.
  destruct (attemptQuizApi svc quizId questionId (options !! i) s)
    as [[sc'|e|] s1] eqn:Hapi.
  - destruct (Z.eq_dec sc' (currentScore + 1)) as [->|Hne].
    + rewrite (while_pass_lock svc fuel _ _ _ _ _ correctOption _ _ Hsc Hapi).
      exists []. simpl. now rewrite app_nil_r.
    + rewrite (while_pass_continue svc fuel _ _ _ _ _ correctOption _ _ _
                 Hsc Hapi Hne).
      destruct (Evolving_attemptQuiz_while svc fuel quizId questionId
                  currentScore sc' (S i) correctOption s1)
        as [_ (ext & Hext & _)].
      exists ext. exact Hext.
  - rewrite (while_pass_fail svc fuel _ _ _ _ _ correctOption _ _ _ Hsc Hapi).
    exists []. simpl. now rewrite app_nil_r.
  - exfalso. apply (Settles_attemptQuizApi svc quizId questionId
                      (options !! i) s). now rewrite Hapi.
Qed.

End ProbeRuns.

(** On a service whose score never moves, a pass of the loop leaves the
    loop where it was, one index further. *)
Lemma steady_pass (sc : Z) fuel quizId questionId i correctOption
    (s : St unit) :
  attemptQuiz_while (steady_service sc) (S fuel) quizId questionId sc sc i
    correctOption s
  = attemptQuiz_while (steady_service sc) fuel quizId questionId sc sc (S i)
      correctOption
      (snd (attemptQuizApi (steady_service sc) quizId questionId
              (options !! i) s)).
Proof.
  assert (sc <> sc + 1) as Hsc by lia.
  apply while_pass_continue; [exact Hsc| |exact Hsc].
  pose proof (attemptQuizApi_cases (steady_service sc) quizId questionId
                (options !! i) s) as H.
  simpl in H. rewrite H. reflexivity.
Qed.

Lemma steady_while (sc : Z) fuel : forall quizId questionId i correctOption
    (s : St unit),
  let run :=
    attemptQuiz_while (steady_service sc) fuel quizId questionId sc sc i
      correctOption s in
  fst run = OutOfFuel /\
  submitted (trace (snd run)) = submitted (trace s) ++ candidates i fuel.
Proof.
  induction fuel as [|fuel IH]; intros quizId questionId i correctOption s.
  - cbv zeta. simpl.
    replace (sc =? sc + 1) with false by (symmetry; apply Z.eqb_neq; lia).
    simpl. split; [reflexivity|]. unfold candidates. simpl.
    now rewrite app_nil_r.
  - cbv zeta. rewrite steady_pass.
    destruct (IH quizId questionId (S i) correctOption
                (snd (attemptQuizApi (steady_service sc) quizId questionId
                        (options !! i) s))) as [Hres Htr].
    split; [exact Hres|].
    rewrite Htr, attemptQuizApi_submitted, candidates_S, <- app_assoc.
    reflexivity.
Qed.

Lemma trace_logged {World} line (s : St World) :
  trace (logged line s) = trace s.
Proof. reflexivity. Qed.

(** * The quiz runner *)

Lemma append_cons (ch : ascii) (a b : string) :
  String ch a +:+ b = String ch (a +:+ b).
Proof. reflexivity. Qed.

Lemma append_assoc (a b c : string) : (a +:+ b) +:+ c = a +:+ (b +:+ c).
Proof.
  induction a as [|ch a IH]; [reflexivity|].
  rewrite !append_cons. f_equal. exact IH.
Qed.

Lemma append_empty_r (a : string) : a +:+ "" = a.
Proof.
  induction a as [|ch a IH]; [reflexivity|].
  rewrite append_cons. f_equal. exact IH.
Qed.

(** The loop over [Object.entries(question.options)] appends one "key: text"
    line per option. *)
Lemma option_lines (opts : list (string * string)) (content : string) :
  fold_left (fun content '(key, value) =>
               content +:+ (key +:+ ": " +:+ value +:+ nl)) opts content
  = content +:+ concat_strings (map render_option opts).
Proof.
  revert content. induction opts as [|[key value] opts IH]; intros content.
  - simpl. now rewrite append_empty_r.
  - cbn [fold_left map]. rewrite IH.
    change (concat_strings (render_option (key, value)
                              :: map render_option opts))
      with (render_option (key, value)
              +:+ concat_strings (map render_option opts)).
    rewrite append_assoc. reflexivity.
Qed.

Lemma capturable_correct_value (v : jsval) :
  capturable v -> In (or_default v "Not locked") correct_values.
Proof.
  destruct v as [| |o]; simpl; [tauto|tauto|].
  intros [<-|[<-|[<-|[<-|[]]]]]; simpl; tauto.
Qed.

Lemma capturable_lookup (i : nat) : capturable (jsval_of_lookup (options !! i)).
Proof.
  destruct i as [|[|[|[|i]]]]; simpl; tauto.
Qed.

Section RunnerFacts.
Context {World : Type} (svc : Service World).
Implicit Types s : St World.

(** What the prober returns as [correctOption]. *)
Lemma attemptQuiz_while_capturable fuel : forall quizId questionId
    currentScore score0 i captured s result s',
  capturable captured ->
  attemptQuiz_while svc fuel quizId questionId currentScore score0 i
    captured s = (Val result, s') ->
  capturable (correctOption result).
Proof.
  induction fuel as [|fuel IH];
    intros quizId questionId currentScore score0 i captured s result s'
           Hco Hrun.
  - simpl in Hrun. destruct (score0 =? currentScore + 1); [|discriminate].
    inversion Hrun; subst. exact Hco.
  - destruct (Z.eq_dec score0 (currentScore + 1)) as [->|Hsc].
    { rewrite while_exit in Hrun. inversion Hrun; subst. exact Hco. }
    destruct (attemptQuizApi svc quizId questionId (options !! i) s)
      as [[sc'|e|] s1] eqn:Hapi.
    + destruct (Z.eq_dec sc' (currentScore + 1)) as [->|Hne].
      * rewrite (while_pass_lock svc fuel _ _ _ _ _ captured _ _ Hsc Hapi)
          in Hrun.
        inversion Hrun; subst. apply capturable_lookup.
      * rewrite (while_pass_continue svc fuel _ _ _ _ _ captured _ _ _
                   Hsc Hapi Hne) in Hrun.
        eapply IH; eassumption.
    + rewrite (while_pass_fail svc fuel _ _ _ _ _ captured _ _ _ Hsc Hapi)
        in Hrun.
      inversion Hrun; subst. exact Hco.
    + exfalso. apply (Settles_attemptQuizApi svc quizId questionId
                        (options !! i) s). now rewrite Hapi.
Qed.

(** The score the prober returns is the last one read back during the
    probe, or the score it started from when nothing was read back. *)
Lemma attemptQuiz_while_readback fuel : forall quizId questionId currentScore
    score0 i captured s result s',
  attemptQuiz_while svc fuel quizId questionId currentScore score0 i
    captured s = (Val result, s') ->
  exists ext,
    trace s' = trace s ++ ext /\
    score result = last_readback ext score0.
Proof.
  induction fuel as [|fuel IH];
    intros quizId questionId currentScore score0 i captured s result s'
           Hrun.
  - simpl in Hrun. destruct (score0 =? currentScore + 1); [|discriminate].
    inversion Hrun; subst. exists []. now rewrite app_nil_r.
  - destruct (Z.eq_dec score0 (currentScore + 1)) as [->|Hsc].
    { rewrite while_exit in Hrun. inversion Hrun; subst.
      exists []. now rewrite app_nil_r. }
    destruct (attemptQuizApi svc quizId questionId (options !! i) s)
      as [[sc'|e|] s1] eqn:Hapi.
    + destruct (attemptQuizApi_readback svc _ _ _ _ _ _ score0 Hapi)
        as (e1 & He1 & Hr1).
      destruct (Z.eq_dec sc' (currentScore + 1)) as [->|Hne].
      * rewrite (while_pass_lock svc fuel _ _ _ _ _ captured _ _ Hsc Hapi)
          in Hrun.
        inversion Hrun; subst result s'. exists e1.
        rewrite trace_logged. split; [exact He1|]. simpl. now rewrite Hr1.
      * rewrite (while_pass_continue svc fuel _ _ _ _ _ captured _ _ _
                   Hsc Hapi Hne) in Hrun.
        destruct (IH _ _ _ _ _ _ _ _ _ Hrun) as (e2 & He2 & Hr2).
        exists (e1 ++ e2). split.
        -- rewrite He2, He1. symmetry. apply app_assoc.
        -- rewrite last_readback_app, Hr1. exact Hr2.
    + destruct (attemptQuizApi_no_readback svc _ _ _ _ _ _ score0 Hapi)
        as (e1 & He1 & Hr1).
      rewrite (while_pass_fail svc fuel _ _ _ _ _ captured _ _ _ Hsc Hapi)
        in Hrun.
      inversion Hrun; subst result s'. exists e1.
      rewrite trace_logged. split; [exact He1|]. simpl. now rewrite Hr1.
    + exfalso. apply (Settles_attemptQuizApi svc quizId questionId
                        (options !! i) s). now rewrite Hapi.
Qed.

(** The body of the loop over the questions: the question's lines are
    appended, the question is probed once with the running score, the score
    returned replaces it and the "Correct Option:" line closes the block. *)
Lemma question_body_eq fuel quiz_Id question currentScore content s :
  question_body svc fuel quiz_Id question (currentScore, content) s
  = (result <- attemptQuiz svc fuel quiz_Id (Question.questionId question)
                           currentScore ;;
     ret (score result, content +:+ render_block (block_of question result))) s.
Proof.
  unfold question_body. rewrite option_lines. unfold bind.
  destruct (attemptQuiz svc fuel quiz_Id (Question.questionId question)
              currentScore s) as [[result|e|] s1]; [|reflexivity|reflexivity].
  unfold ret. f_equal. f_equal. f_equal.
  unfold render_block, block_of; simpl.
  rewrite !append_assoc. reflexivity.
Qed.

End RunnerFacts.

Section Inversions.
Context {World : Type}.
Implicit Types s : St World.

Lemma bind_val_inv {A B} (m : M World A) (k : A -> M World B) s b s' :
  bind m k s = (Val b, s') ->
  exists a s1, m s = (Val a, s1) /\ k a s1 = (Val b, s').
Proof.
  unfold bind. destruct (m s) as [[a|e|] s1]; intros H;
    [eauto|discriminate|discriminate].
Qed.

Lemma try_catch_val_inv {A} (m : M World A) (h : Err -> M World A) s a s' :
  try_catch m h s = (Val a, s') ->
  m s = (Val a, s') \/
  exists e s1, m s = (Throw e, s1) /\ h e s1 = (Val a, s').
Proof.
  unfold try_catch. destruct (m s) as [[a'|e|] s1]; intros H;
    [left; exact H|right; eauto|discriminate].
Qed.

Lemma rethrow_not_val {A} (m : M World unit) e s (a : A) s' :
  (m ;; throw e) s <> (Val a, s').
Proof.
  unfold bind, throw. destruct (m s) as [[u|e'|] s1]; discriminate.
Qed.

Lemma axios_val_inv {A} (call : World -> option string -> World * Resp A)
    ev s a s' :
  axios call ev s = (Val a, s') ->
  exists w1,
    call (world s) (ACCESS_TOKEN s) = (w1, Ok a) /\
    s' = mkSt w1 (ACCESS_TOKEN s) (trace s ++ [ev (ACCESS_TOKEN s) (Ok a)])
              (console s).
Proof.
  unfold axios, await.
  destruct (call (world s) (ACCESS_TOKEN s)) as [w1 [a'|e]]; intros H;
    [|discriminate].
  inversion H; subst. eauto.
Qed.

Lemma await_val_inv {A} (call : World -> World * Resp A) ev s a s' :
  await call ev s = (Val a, s') ->
  exists w1,
    call (world s) = (w1, Ok a) /\
    s' = mkSt w1 (ACCESS_TOKEN s) (trace s ++ [ev (Ok a)]) (console s).
Proof.
  unfold await.
  destruct (call (world s)) as [w1 [a'|e]]; intros H; [|discriminate].
  inversion H; subst. eauto.
Qed.

(** A [try] block that starts with an axios call. *)
Lemma try_catch_bind_axios {A B}
    (call : World -> option string -> World * Resp A) ev
    (k : A -> M World B) (h : Err -> M World B) s :
  try_catch (bind (axios call ev) k) h s
  = let '(w1, r) := call (world s) (ACCESS_TOKEN s) in
    let s1 := mkSt w1 (ACCESS_TOKEN s) (trace s ++ [ev (ACCESS_TOKEN s) r])
                   (console s) in
    match r with
    | Ok a => try_catch (k a) h s1
    | Fail e => h e s1
    end.
Proof.
  unfold try_catch, bind, axios, await.
  destruct (call (world s) (ACCESS_TOKEN s)) as [w1 [a|e]]; reflexivity.
Qed.

End Inversions.

Section RunnerLoop.
Context {World : Type} (svc : Service World).
Implicit Types s : St World.

(** The loop over the questions, from any values of its two variables: the
    running score ends as the last score read back, and one block per
    question has been appended to the content. *)
Lemma questions_from fuel quiz_Id questions : forall score0 content0 s
    currentScore content s1,
  for_of questions (question_body svc fuel quiz_Id) (score0, content0) s
  = (Val (currentScore, content), s1) ->
  (exists ext,
      trace s1 = trace s ++ ext /\ currentScore = last_readback ext score0) /\
  (exists blocks,
      Forall2 block_for questions blocks /\
      content = content0 +:+ render_report blocks).
Proof.
  induction questions as [|question rest IH];
    intros score0 content0 s currentScore content s1 Hrun.
  - simpl in Hrun. inversion Hrun; subst. split.
    + exists []. now rewrite app_nil_r.
    + exists []. split; [constructor|]. simpl. now rewrite append_empty_r.
  - cbn [for_of] in Hrun.
    apply bind_val_inv in Hrun as ([sc1 c1] & s2 & Hbody & Hrest).
    rewrite question_body_eq in Hbody.
    apply bind_val_inv in Hbody as (result & s2' & Hprobe & Hret).
    inversion Hret; subst sc1 c1 s2'. clear Hret.
    destruct (IH _ _ _ _ _ _ Hrest) as [(e2 & He2 & Hr2) (bs & Hbs & Hc)].
    destruct (attemptQuiz_while_readback svc _ _ _ _ _ _ _ _ _ _ Hprobe)
      as (e1 & He1 & Hr1).
    split.
    + exists (e1 ++ e2). split.
      * rewrite He2, He1. symmetry. apply app_assoc.
      * rewrite last_readback_app, <- Hr1. exact Hr2.
    + exists (block_of question result :: bs). split.
      * constructor; [|exact Hbs].
        unfold block_for, block_of; simpl.
        repeat split. apply capturable_correct_value.
        eapply attemptQuiz_while_capturable; [|exact Hprobe]. exact I.
      * rewrite Hc, append_assoc. reflexivity.
Qed.

End RunnerLoop.

(** * Properties of the answer prober *)

(** C1 (what the code does instead): against a service
    whose score readback stays at [currentScore] for every submission, the
    prober does not stop after the four options [a, b, c, d] and does not
    return [{score: currentScore, correctOption: null}]: whatever number of
    passes it is given it is still looping, having submitted one candidate
    per pass, [options[0]], [options[1]], ..., which from the fifth on is
    [undefined]. *)
Theorem attemptQuiz_unbounded_on_steady_score :
  forall (fuel : nat) (quizId questionId currentScore : Z)
         (env_token : option string),
    let run :=
      attemptQuiz (steady_service currentScore) fuel quizId questionId
        currentScore (start tt env_token) in
    fst run = OutOfFuel /\
    submitted (trace (snd run)) = candidates 0 fuel /\
    candidates 0 4 = [Some "a"; Some "b"; Some "c"; Some "d"] /\
    forall i : nat, (4 <= i)%nat -> options !! i = None.
Proof.
  intros fuel quizId questionId currentScore env_token. cbv zeta.
  destruct (steady_while currentScore fuel quizId questionId 0%nat JsNull
              (start tt env_token)) as [Hres Htr].
  split; [exact Hres|]. split; [exact Htr|]. split; [reflexivity|].
  intros i Hi. apply lookup_ge_None_2. exact Hi.
Qed.

(** C3 (counterexample): probing from [currentScore = 0], the first
    submission reads back the score 3 and the second submission fails; the
    prober returns [correctOption = null] but the score 3, not the input
    [currentScore]. *)
Lemma attemptQuiz_failure_returns_last_readback :
  fst (submissions scripted 77 901 (candidates 0 2) (start script_stale None))
  = [Val 3; Throw unavailable] /\
  fst (attemptQuiz scripted 10 77 901 0 (start script_stale None))
  = Val (mkProbeResult 3 JsNull) /\
  mkProbeResult 3 JsNull <> mkProbeResult 0 JsNull.
Proof.
  split; [reflexivity|]. split; [reflexivity|]. discriminate.
Qed.

(** C3 (amended): when a submission fails after submissions that each read
    back a score other than [currentScore + 1], the prober leaves the loop at
    once ([fuel] passes were allowed, only the failed one and those before it
    were made), returns [correctOption = null] and the score of the last
    successful readback of this probe, which is the input [currentScore] when
    the failure is at the first option or when every earlier readback was
    [currentScore]; the runner writes "Not locked" for the question and goes
    on with the remaining questions without probing the failed one again. *)
Theorem attemptQuiz_failure_aborts_probe :
  forall (World : Type) (svc : Service World) (fuel : nat)
         (quizId questionId currentScore : Z) (s : St World)
         (scores : list Z) (e : Err),
    Forall (fun x => x <> currentScore + 1) scores ->
    fst (submissions svc quizId questionId
           (candidates 0 (S (length scores))) s)
    = map Val scores ++ [Throw e] ->
    (length scores < fuel)%nat ->
    let run := attemptQuiz svc fuel quizId questionId currentScore s in
    fst run = Val (mkProbeResult (last_assigned scores currentScore) JsNull) /\
    (Forall (fun x => x = currentScore) scores ->
     fst run = Val (mkProbeResult currentScore JsNull)) /\
    submitted (trace (snd run))
    = submitted (trace s) ++ candidates 0 (S (length scores)) /\
    forall (question : Question.t) (rest : list Question.t) (content : string),
      Question.questionId question = questionId ->
      for_of (question :: rest) (question_body svc fuel quizId)
             (currentScore, content) s
      = for_of rest (question_body svc fuel quizId)
               (last_assigned scores currentScore,
                content
                  +:+ render_block
                        (mkBlock questionId (Question.question question)
                                 (Question.options question) "Not locked"))
               (snd run).
Proof.
  intros World svc fuel quizId questionId currentScore s scores e
         Hall Hsub Hfuel. cbv zeta.
  destruct (Nat.le_exists_sub (S (length scores)) fuel Hfuel) as (f & -> & _).
  replace (f + S (length scores))%nat with (length scores + S f)%nat by lia.
  destruct (probe_prefix svc f quizId questionId currentScore s scores
              (Throw e) Hall Hsub) as (Hlast & Hapi & Hrun).
  rewrite Hrun.
  rewrite (while_pass_fail svc f _ _ _ _ _ JsNull _ _ _ Hlast Hapi).
  cbn [fst snd].
  split; [reflexivity|].
  split; [intros Hsame; now rewrite last_assigned_const|].
  split; [rewrite trace_logged; apply submissions_submitted|].
  intros question rest content Hid.
  cbn [for_of]. unfold bind at 1. rewrite question_body_eq.
  unfold bind at 1. rewrite Hid, Hrun.
  rewrite (while_pass_fail svc f _ _ _ _ _ JsNull _ _ _ Hlast Hapi).
  unfold ret, block_of. cbn [score correctOption or_default].
  rewrite Hid. reflexivity.
Qed.

Lemma attemptQuiz_failure_aborts_probe_witness :
  let run := attemptQuiz scripted 10 77 901 0 (start script_fail_second None) in
  fst run = Val (mkProbeResult 0 JsNull) /\
  submitted (trace (snd run)) = [Some "a"; Some "b"].
Proof.
  cbv zeta.
  pose proof (attemptQuiz_failure_aborts_probe Script scripted 10 77 901 0
                (start script_fail_second None) [0] unavailable) as H.
  cbv zeta in H.
  destruct H as (_ & Hsame & Htr & _).
  - repeat constructor. discriminate.
  - reflexivity.
  - simpl. lia.
  - split; [apply Hsame; repeat constructor|exact Htr].
Defined.

(** C4: the first option whose submission reads back [currentScore + 1],
    after submissions that each read back another score, is the one
    captured, the probe returns [currentScore + 1] and no further option is
    submitted; in particular, when the first three submissions read back
    [currentScore] and the fourth [currentScore + 1], exactly the four
    submissions [a, b, c, d] are issued, in this order, and [d] is
    captured. *)
Theorem attemptQuiz_locks_first_increment :
  forall (World : Type) (svc : Service World) (fuel : nat)
         (quizId questionId currentScore : Z) (s : St World),
    let run := attemptQuiz svc fuel quizId questionId currentScore s in
    (forall (scores : list Z) (option : string),
        options !! length scores = Some option ->
        Forall (fun x => x <> currentScore + 1) scores ->
        fst (submissions svc quizId questionId
               (candidates 0 (S (length scores))) s)
        = map Val scores ++ [Val (currentScore + 1)] ->
        (length scores < fuel)%nat ->
        fst run = Val (mkProbeResult (currentScore + 1) (JsStr option)) /\
        submitted (trace (snd run))
        = submitted (trace s) ++ candidates 0 (S (length scores))) /\
    (fst (submissions svc quizId questionId
            [Some "a"; Some "b"; Some "c"; Some "d"] s)
     = [Val currentScore; Val currentScore; Val currentScore;
        Val (currentScore + 1)] ->
     (4 <= fuel)%nat ->
     fst run = Val (mkProbeResult (currentScore + 1) (JsStr "d")) /\
     submitted (trace (snd run))
     = submitted (trace s) ++ [Some "a"; Some "b"; Some "c"; Some "d"]).
Proof.
  intros World svc fuel quizId questionId currentScore s. cbv zeta.
  assert (forall (scores : list Z) (option : string),
             options !! length scores = Some option ->
             Forall (fun x => x <> currentScore + 1) scores ->
             fst (submissions svc quizId questionId
                    (candidates 0 (S (length scores))) s)
             = map Val scores ++ [Val (currentScore + 1)] ->
             (length scores < fuel)%nat ->
             fst (attemptQuiz svc fuel quizId questionId currentScore s)
             = Val (mkProbeResult (currentScore + 1) (JsStr option)) /\
             submitted
               (trace (snd (attemptQuiz svc fuel quizId questionId
                              currentScore s)))
             = submitted (trace s) ++ candidates 0 (S (length scores)))
    as Hgen.
  { intros scores option Hopt Hall Hsub Hfuel.
    destruct (Nat.le_exists_sub (S (length scores)) fuel Hfuel)
      as (f & -> & _).
    replace (f + S (length scores))%nat with (length scores + S f)%nat by lia.
    destruct (probe_prefix svc f quizId questionId currentScore s scores
                (Val (currentScore + 1)) Hall Hsub) as (Hlast & Hapi & Hrun).
    rewrite Hrun.
    rewrite (while_pass_lock svc f _ _ _ _ _ JsNull _ _ Hlast Hapi).
    cbn [fst snd]. rewrite Hopt, trace_logged.
    split; [reflexivity|apply submissions_submitted]. }
  split; [exact Hgen|].
  intros Hsub Hfuel.
  apply (Hgen [currentScore; currentScore; currentScore] "d").
  - reflexivity.
  - repeat constructor; lia.
  - exact Hsub.
  - simpl. lia.
Qed.

Lemma attemptQuiz_locks_first_increment_witness :
  let run := attemptQuiz scripted 4 77 901 0 (start script_d (Some "token")) in
  fst run = Val (mkProbeResult 1 (JsStr "d")) /\
  submitted (trace (snd run)) = [Some "a"; Some "b"; Some "c"; Some "d"].
Proof.
  cbv zeta.
  apply (proj2 (attemptQuiz_locks_first_increment Script scripted 4 77 901 0
                  (start script_d (Some "token")))).
  - reflexivity.
  - lia.
Defined.

(** C6: the index [i] of the loop is incremented with no check against the
    four elements of [options], whose lookup past the end is [undefined]:
    when the submissions of [a, b, c, d] each read back the unchanged
    [currentScore] and none fails, a pass is made with [i = 4] and submits
    [options[4]], which is [undefined], to the service. *)
Theorem attemptQuiz_submits_past_the_options :
  forall (World : Type) (svc : Service World) (fuel : nat)
         (quizId questionId currentScore : Z) (s : St World),
    fst (submissions svc quizId questionId (candidates 0 4) s)
    = [Val currentScore; Val currentScore; Val currentScore;
       Val currentScore] ->
    (5 <= fuel)%nat ->
    length options = 4%nat /\
    options !! 4%nat = None /\
    exists later,
      submitted (trace (snd (attemptQuiz svc fuel quizId questionId
                               currentScore s)))
      = submitted (trace s)
          ++ [Some "a"; Some "b"; Some "c"; Some "d"; None] ++ later.
Proof.
  intros World svc fuel quizId questionId currentScore s Hsub Hfuel.
  split; [reflexivity|]. split; [reflexivity|].
  destruct (Nat.le_exists_sub 5 fuel Hfuel) as (f & -> & _).
  replace (f + 5)%nat with (4 + S f)%nat by lia.
  assert (currentScore <> currentScore + 1) as Hcs by lia.
  unfold attemptQuiz.
  pose proof (while_run svc [currentScore; currentScore; currentScore;
                             currentScore]
                (S f) quizId questionId currentScore currentScore 0 JsNull s
                Hcs Hsub) as Hrun.
  cbn [length last_assigned fold_left Nat.add] in Hrun.
  cbn [Nat.add]. rewrite Hrun by (repeat constructor; exact Hcs).
  destruct (while_pass_trace svc f quizId questionId currentScore currentScore
              4 JsNull
              (snd (submissions svc quizId questionId (candidates 0 4) s)) Hcs)
    as (ext & Hext).
  rewrite Hext, submitted_app, attemptQuizApi_submitted,
    submissions_submitted.
  exists (submitted ext). rewrite <- !app_assoc. reflexivity.
Qed.

Lemma attemptQuiz_submits_past_the_options_witness :
  exists later,
    submitted (trace (snd (attemptQuiz (steady_service 0) 5 77 901 0
                             (start tt None))))
    = [Some "a"; Some "b"; Some "c"; Some "d"; None] ++ later.
Proof.
  destruct (attemptQuiz_submits_past_the_options unit (steady_service 0) 5
              77 901 0 (start tt None)) as (_ & _ & later & Hlater).
  - reflexivity.
  - lia.
  - exists later. exact Hlater.
Defined.

(** * Properties of the quiz runner *)

Lemma bind_from {World A B} (m m' : M World A) (k : A -> M World B)
    (s s' : St World) :
  m s = m' s' -> bind m k s = bind m' k s'.
Proof. intros H. unfold bind. rewrite H. reflexivity. Qed.

Lemma try_catch_from {World A} (m m' : M World A) (h : Err -> M World A)
    (s s' : St World) :
  m s = m' s' -> try_catch m h s = try_catch m' h s'.
Proof. intros H. unfold try_catch. rewrite H. reflexivity. Qed.

Lemma bind_bind {World A B C} (m : M World A) (k : A -> M World B)
    (k' : B -> M World C) (s : St World) :
  bind (bind m k) k' s = bind m (fun a => bind (k a) k') s.
Proof. unfold bind. destruct (m s) as [[a|e|] s1]; reflexivity. Qed.

Lemma questions_loop_resumes {World} (svc : Service World) fuel quiz_Id
    before question after s currentScore content s1 :
  questions_loop svc fuel quiz_Id before s = (Val (currentScore, content), s1) ->
  questions_loop svc fuel quiz_Id (before ++ question :: after) s
  = (result <- attemptQuiz svc fuel quiz_Id (Question.questionId question)
                           currentScore ;;
     for_of after (question_body svc fuel quiz_Id)
            (score result,
             content +:+ render_block (block_of question result))) s1.
Proof.
  intros Hloop. unfold questions_loop in *. rewrite for_of_app.
  unfold bind at 1. rewrite Hloop. cbn [for_of].
  unfold bind. rewrite question_body_eq. unfold bind.
  destruct (attemptQuiz svc fuel quiz_Id (Question.questionId question)
              currentScore s1) as [[result|e|] s2]; reflexivity.
Qed.

(** C5: in every run of the runner, the running score is 0 before the
    first question, and when the runner reaches a question (the quiz was
    created and the loop went through the questions before it) the running
    score is the last score read back from the service since the runner
    started, 0 when there was none; the runner then probes the question
    with that score and goes on with the score the probe returns, whatever
    [correctOption] is: the statement gives the rest of the run of
    [attemptOneQuiz] from that point. *)
Theorem currentScore_tracks_last_readback :
  forall (World : Type) (svc : Service World) (fuel : nat) (topic : Z)
         (topicName : string) (s : St World) (w1 : World) (data : Payload.t)
         (before : list Question.t) (question : Question.t)
         (after : list Question.t) (currentScore : Z) (content : string)
         (s1 : St World),
    create_quiz svc (world s) (ACCESS_TOKEN s) topic = (w1, Ok data) ->
    Payload.questions data = before ++ question :: after ->
    questions_loop svc fuel (Payload.quizId data) before
      (mkSt w1 (ACCESS_TOKEN s)
            (trace s ++ [EvCreateQuiz (ACCESS_TOKEN s) topic (Ok data)])
            (console s))
    = (Val (currentScore, content), s1) ->
    (before = [] -> currentScore = 0) /\
    (exists ext,
        trace s1
        = trace s ++ EvCreateQuiz (ACCESS_TOKEN s) topic (Ok data) :: ext /\
        currentScore = last_readback ext 0) /\
    attemptOneQuiz svc fuel topic topicName s
    = try_catch
        (result <- attemptQuiz svc fuel (Payload.quizId data)
                     (Question.questionId question) currentScore ;;
         vars <- for_of after (question_body svc fuel (Payload.quizId data))
                   (score result,
                    content +:+ render_block (block_of question result)) ;;
         let '(finalScore, content) := vars in
         await (fun w => writeFile svc w (sanitize topicName +:+ ".txt")
                           content)
               (fun r => EvWriteFile (sanitize topicName +:+ ".txt")
                           content r) ;;
         console_log ("Quiz questions saved to " +:+ sanitize topicName
                      +:+ ".txt") ;;
         ret (mkRunResult (Payload.quizId data) finalScore))
        (fun error =>
           console_log ("Error creating quiz " +:+ pretty topic +:+ ": "
                        +:+ Err_toString error) ;;
           throw error)
        s1.
Proof.
  intros World svc fuel topic topicName s w1 data before question after
    currentScore content s1 Hcreate Hq Hloop.
  split; [|split].
  - intros ->. unfold questions_loop in Hloop. simpl in Hloop.
    now inversion Hloop.
  - destruct (questions_from svc fuel (Payload.quizId data) before 0 "" _
                currentScore content s1 Hloop) as [(ext & Hext & Hcs) _].
    exists ext. cbn [trace] in Hext. rewrite Hext, <- app_assoc.
    split; [reflexivity|exact Hcs].
  - pose proof (questions_loop_resumes svc fuel (Payload.quizId data) before
                  question after _ currentScore content s1 Hloop) as Hres.
    rewrite <- Hq in Hres.
    unfold attemptOneQuiz. rewrite try_catch_bind_axios, Hcreate. cbv zeta.
    apply try_catch_from. rewrite <- bind_bind. apply bind_from. exact Hres.
Qed.

Lemma currentScore_tracks_last_readback_witness :
  exists ext,
    trace (snd (questions_loop scripted 10 77 [first_question]
                  (mkSt (mkScript [Ok tt; Ok tt; Fail unavailable]
                                  [Ok 0; Ok 1] [] [] [] [Ok tt])
                        (Some "token")
                        [EvCreateQuiz (Some "token") 5 (Ok two_questions)]
                        [])))
    = EvCreateQuiz (Some "token") 5 (Ok two_questions) :: ext /\
    1 = last_readback ext 0.
Proof.
  refine (proj1 (proj2 (currentScore_tracks_last_readback Script scripted 10
                          5 "Intro RL"
                          (start script_two_questions (Some "token"))
                          (mkScript [Ok tt; Ok tt; Fail unavailable]
                                    [Ok 0; Ok 1] [] [] [] [Ok tt])
                          two_questions [first_question] second_question []
                          1
                          (render_block
                             (mkBlock 26180 "What is a reward?"
                                (Question.options first_question) "b"))
                          _ _ _ _)));
    [reflexivity|reflexivity|vm_compute; reflexivity].
Defined.

(** ** Reading the report back *)

Lemma no_line_feed_append (a b : string) :
  no_line_feed a = true -> no_line_feed b = true ->
  no_line_feed (a +:+ b) = true.
Proof.
  intros Ha Hb. induction a as [|c a IH]; [exact Hb|].
  rewrite append_cons. unfold no_line_feed in *. simpl in *.
  apply andb_true_iff in Ha as [Hc Ha]. rewrite Hc. simpl. apply IH, Ha.
Qed.

Lemma pretty_N_char_no_line_feed (x : N) :
  negb (Ascii.eqb (pretty_N_char x) (Ascii.ascii_of_nat 10)) = true.
Proof.
  unfold pretty_N_char. repeat case_match; reflexivity.
Qed.

Lemma pretty_N_go_no_line_feed (x : N) :
  forall s, no_line_feed s = true -> no_line_feed (pretty_N_go x s) = true.
Proof.
  induction x as [x IH] using (well_founded_induction N.lt_wf_0).
  intros s Hs.
  destruct (decide (0 < x)%N) as [Hpos|Hzero].
  - rewrite pretty_N_go_step by exact Hpos.
    apply IH; [apply N.div_lt; [exact Hpos|reflexivity]|].
    unfold no_line_feed in *. simpl.
    rewrite pretty_N_char_no_line_feed. exact Hs.
  - assert (x = 0%N) as -> by lia. rewrite pretty_N_go_0. exact Hs.
Qed.

Lemma pretty_Z_no_line_feed (z : Z) : no_line_feed (pretty z) = true.
Proof.
  assert (forall p, no_line_feed (pretty (Npos p)) = true) as Hpos.
  { intros p. unfold pretty, pretty_N.
    destruct (decide (N.pos p = 0%N)) as [H|_]; [discriminate H|].
    apply pretty_N_go_no_line_feed. reflexivity. }
  destruct z as [|p|p]; [reflexivity|apply Hpos|].
  change (pretty (Z.neg p)) with ("-" +:+ pretty (Npos p)).
  apply no_line_feed_append; [reflexivity|apply Hpos].
Qed.

(** A line without line feed, ended by a line feed, is the first line of
    the text. *)
Lemma text_lines_line (line rest : string) :
  no_line_feed line = true ->
  text_lines (line +:+ nl +:+ rest) = line :: text_lines rest.
Proof.
  intros Hline. induction line as [|c line IH]; [reflexivity|].
  rewrite append_cons. unfold no_line_feed in Hline. simpl in Hline.
  apply andb_true_iff in Hline as [Hc Hline].
  apply negb_true_iff in Hc. cbn [text_lines]. rewrite Hc.
  rewrite (IH Hline). reflexivity.
Qed.

Lemma is_blank_append (a b : string) :
  is_blank a = false -> is_blank (a +:+ b) = false.
Proof. destruct a; [discriminate|reflexivity]. Qed.

Lemma split_blank_group (group : list string) (rest : list string) :
  Forall (fun line => is_blank line = false) group ->
  split_blank (group ++ "" :: rest) = group :: split_blank rest.
Proof.
  induction 1 as [|line group Hline _ IH]; [reflexivity|].
  cbn [app split_blank]. rewrite Hline, IH. reflexivity.
Qed.

Lemma text_lines_nl (rest : string) :
  text_lines (nl +:+ rest) = "" :: text_lines rest.
Proof. reflexivity. Qed.

Lemma concat_strings_cons (x : string) (l : list string) :
  concat_strings (x :: l) = x +:+ concat_strings l.
Proof. reflexivity. Qed.

Lemma text_lines_options (opts : list (string * string)) (rest : string) :
  Forall (fun kv => no_line_feed (fst kv) = true /\
                    no_line_feed (snd kv) = true) opts ->
  text_lines (concat_strings (map render_option opts) +:+ rest)
  = map (fun kv => fst kv +:+ ": " +:+ snd kv) opts ++ text_lines rest.
Proof.
  induction 1 as [|kv opts [Hk Hv] _ IH]; [reflexivity|].
  cbn [map]. rewrite concat_strings_cons.
  replace ((render_option kv +:+ concat_strings (map render_option opts))
           +:+ rest)
    with ((fst kv +:+ ": " +:+ snd kv) +:+ nl
          +:+ (concat_strings (map render_option opts) +:+ rest))
    by (unfold render_option; now rewrite !append_assoc).
  rewrite text_lines_line, IH; [reflexivity|].
  apply no_line_feed_append; [exact Hk|].
  apply no_line_feed_append; [reflexivity|exact Hv].
Qed.

Lemma text_lines_block (b : Block) (rest : string) :
  no_line_feed (block_question b) = true ->
  Forall (fun kv => no_line_feed (fst kv) = true /\
                    no_line_feed (snd kv) = true) (block_options b) ->
  no_line_feed (block_correct b) = true ->
  text_lines (render_block b +:+ rest)
  = block_lines b ++ "" :: text_lines rest.
Proof.
  intros Hq Ho Hc. unfold render_block, block_lines.
  replace (("Question ID: " +:+ pretty (block_id b) +:+ nl
            +:+ "Question: " +:+ block_question b +:+ nl
            +:+ "Options:" +:+ nl
            +:+ concat_strings (map render_option (block_options b))
            +:+ "Correct Option: " +:+ block_correct b +:+ nl +:+ nl)
           +:+ rest)
    with (("Question ID: " +:+ pretty (block_id b)) +:+ nl
          +:+ (("Question: " +:+ block_question b) +:+ nl
               +:+ ("Options:" +:+ nl
                    +:+ (concat_strings
                           (map render_option (block_options b))
                         +:+ (("Correct Option: " +:+ block_correct b)
                              +:+ nl +:+ (nl +:+ rest))))))
    by (now rewrite !append_assoc).
  rewrite text_lines_line
    by (apply no_line_feed_append; [reflexivity|apply pretty_Z_no_line_feed]).
  rewrite text_lines_line
    by (apply no_line_feed_append; [reflexivity|exact Hq]).
  rewrite text_lines_line by reflexivity.
  rewrite text_lines_options by exact Ho.
  rewrite text_lines_line
    by (apply no_line_feed_append; [reflexivity|exact Hc]).
  rewrite text_lines_nl. cbn [app]. rewrite <- app_assoc. reflexivity.
Qed.

Lemma block_lines_not_blank (b : Block) :
  Forall (fun line => is_blank line = false) (block_lines b).
Proof.
  unfold block_lines. repeat (constructor; [reflexivity|]).
  apply Forall_app. split; [|repeat constructor].
  induction (block_options b) as [|[k v] opts IH]; constructor; [|exact IH].
  destruct k; reflexivity.
Qed.

Lemma split_blank_report (bs : list Block) (rest : string) :
  Forall single_line_block bs ->
  split_blank (text_lines (render_report bs +:+ rest))
  = map block_lines bs ++ split_blank (text_lines rest).
Proof.
  induction 1 as [|b bs (Hq & Ho & Hc) _ IH]; [reflexivity|].
  unfold render_report in *. cbn [map]. rewrite concat_strings_cons.
  rewrite append_assoc, text_lines_block by assumption.
  rewrite split_blank_group by apply block_lines_not_blank.
  rewrite IH. reflexivity.
Qed.

Lemma report_blocks_of_report (bs : list Block) :
  Forall single_line_block bs ->
  report_blocks (render_report bs) = map block_lines bs.
Proof.
  intros Hbs. unfold report_blocks.
  rewrite <- (append_empty_r (render_report bs)).
  rewrite (split_blank_report bs "" Hbs), List.filter_app.
  cbn [text_lines split_blank is_blank List.filter has_lines].
  rewrite app_nil_r. clear Hbs.
  induction bs as [|b bs IH]; [reflexivity|].
  cbn [map List.filter]. rewrite IH. reflexivity.
Qed.

Lemma single_line_block_for (question : Question.t) (b : Block) :
  single_line question -> block_for question b -> single_line_block b.
Proof.
  intros [Hq Ho] (_ & Hbq & Hbo & Hc). unfold single_line_block.
  rewrite Hbq, Hbo. split; [exact Hq|]. split; [exact Ho|].
  simpl in Hc. repeat (destruct Hc as [<-|Hc]; [reflexivity|]). destruct Hc.
Qed.

Lemma single_line_blocks (questions : list Question.t) (bs : list Block) :
  Forall single_line questions -> Forall2 block_for questions bs ->
  Forall single_line_block bs.
Proof.
  intros Hq Hb. induction Hb as [|question b questions bs Hqb _ IH];
    [constructor|].
  constructor.
  - eapply single_line_block_for; [exact (Forall_inv Hq)|exact Hqb].
  - apply IH. exact (Forall_inv_tail Hq).
Qed.

(** C8 (amended): when the runner completes a quiz of N questions, the
    file it wrote is made of N blocks, one per question and in the
    questions' order, each ended by a blank line and made of the
    "Question ID:" line, the "Question:" line, the "Options:" line followed
    by one "key: text" line per option, and a "Correct Option:" line whose
    value is [a], [b], [c], [d] or "Not locked".  When no question text,
    option key or option text holds a line feed, a reader who cuts the file
    at its blank lines finds exactly these N blocks, line by line. *)
Theorem report_has_one_block_per_question :
  forall (World : Type) (svc : Service World) (fuel : nat) (quizId : Z)
         (topicName : string) (s s' : St World) (result : RunResult),
    attemptOneQuiz svc fuel quizId topicName s = (Val result, s') ->
    exists (data : Payload.t) (blocks : list Block) (before : list Event),
      snd (create_quiz svc (world s) (ACCESS_TOKEN s) quizId) = Ok data /\
      length blocks = length (Payload.questions data) /\
      Forall2 block_for (Payload.questions data) blocks /\
      trace s'
      = trace s ++ before
          ++ [EvWriteFile (sanitize topicName +:+ ".txt")
                          (render_report blocks) (Ok tt)] /\
      (Forall single_line (Payload.questions data) ->
       report_blocks (render_report blocks) = map block_lines blocks /\
       length (report_blocks (render_report blocks))
       = length (Payload.questions data)).
Proof.
  intros World svc fuel quizId topicName s s' result Hrun.
  unfold attemptOneQuiz in Hrun.
  apply try_catch_val_inv in Hrun as [Hrun|(e & s1 & _ & Hh)];
    [|exfalso; eapply rethrow_not_val; exact Hh].
  apply bind_val_inv in Hrun as (data & s1 & Hcreate & Hrun).
  apply axios_val_inv in Hcreate as (w1 & Hcreate & ->).
  cbv zeta in Hrun.
  apply bind_val_inv in Hrun as ([currentScore content] & s2 & Hloop & Hrun).
  apply bind_val_inv in Hrun as ([] & s3 & Hwrite & Hrun).
  apply await_val_inv in Hwrite as (w3 & Hwrite & ->).
  apply bind_val_inv in Hrun as (u & s4 & Hlog & Hret).
  unfold console_log in Hlog. inversion Hlog; subst s4. clear Hlog.
  unfold ret in Hret. inversion Hret; subst s' result. clear Hret.
  unfold questions_loop in Hloop.
  destruct (questions_from svc fuel (Payload.quizId data)
              (Payload.questions data) 0 "" _ currentScore content s2 Hloop)
    as [(ext & Hext & _) (blocks & Hblocks & Hcontent)].
  assert (length blocks = length (Payload.questions data)) as Hlen
      by (symmetry; eapply Forall2_length; exact Hblocks).
  exists data, blocks, ([EvCreateQuiz (ACCESS_TOKEN s) quizId (Ok data)] ++ ext).
  split; [now rewrite Hcreate|].
  split; [exact Hlen|].
  split; [exact Hblocks|].
  split.
  - cbn [trace]. rewrite Hext. cbn [trace]. rewrite Hcontent.
    rewrite <- !app_assoc. reflexivity.
  - intros Hsingle.
    rewrite (report_blocks_of_report blocks
               (single_line_blocks _ _ Hsingle Hblocks)).
    split; [reflexivity|]. rewrite length_map. exact Hlen.
Qed.

Lemma report_has_one_block_per_question_witness :
  exists (blocks : list Block) (before : list Event),
    trace (snd (attemptOneQuiz scripted 10 5 "Intro RL"
                  (start script_two_questions (Some "token"))))
    = before ++ [EvWriteFile "intro_rl.txt" (render_report blocks) (Ok tt)] /\
    length (report_blocks (render_report blocks)) = 2%nat.
Proof.
  destruct (report_has_one_block_per_question Script scripted 10 5 "Intro RL"
              (start script_two_questions (Some "token"))
              (snd (attemptOneQuiz scripted 10 5 "Intro RL"
                      (start script_two_questions (Some "token"))))
              (mkRunResult 77 1))
    as (data & blocks & before & Hdata & _ & _ & Htrace & Hread).
  - vm_compute. reflexivity.
  - vm_compute in Hdata. inversion Hdata; subst data.
    exists blocks, before. split; [exact Htrace|].
    apply Hread. repeat constructor.
Defined.

(** C8, as worded: a question text is copied into the report as it is, so
    a text with a blank line cuts its block in two.  The runner completes a
    quiz of one question whose text has two paragraphs, and the file it
    writes reads as two blocks. *)
Theorem report_blocks_exceed_questions :
  exists (before : list Event) (content : string),
    fst (attemptOneQuiz (offline_answers two_paragraph_quiz) 1 5 "Maze"
           (start tt (Some "token")))
    = Val (mkRunResult 78 0) /\
    trace (snd (attemptOneQuiz (offline_answers two_paragraph_quiz) 1 5
                  "Maze" (start tt (Some "token"))))
    = before ++ [EvWriteFile "maze.txt" content (Ok tt)] /\
    length (Payload.questions two_paragraph_quiz) = 1%nat /\
    length (report_blocks content) = 2%nat.
Proof.
  exists [EvCreateQuiz (Some "token") 5 (Ok two_paragraph_quiz);
          EvSaveAnswer (Some "token") 78 26190 (Some "a") (Fail unavailable)].
  eexists. split; [vm_compute; reflexivity|].
  split; [vm_compute; reflexivity|].
  split; vm_compute; reflexivity.
Qed.

(** The runner on the first question of the repository's report
    [applying_bandits_to_optimize_ad_placements.txt], for the topic of that
    name, writes the file of that name with the block the report starts
    with. *)
Example report_of_sample_question :
  trace (snd (attemptOneQuiz scripted 4 310
                "Applying Bandits to Optimize Ad Placements"
                (start script_sample (Some "token"))))
  = [EvCreateQuiz (Some "token") 310
       (Ok (Payload.mk 4001 [sample_question]));
     EvSaveAnswer (Some "token") 4001 28006 (Some "a") (Ok tt);
     EvSubmitQuiz (Some "token") 4001 (Ok 0);
     EvSaveAnswer (Some "token") 4001 28006 (Some "b") (Ok tt);
     EvSubmitQuiz (Some "token") 4001 (Ok 1);
     EvWriteFile "applying_bandits_to_optimize_ad_placements.txt"
       ("Question ID: 28006" +:+ nl
        +:+ "Question: What does using deep learning in contextual bandits help with?"
        +:+ nl
        +:+ "Options:" +:+ nl
        +:+ "a: Storing all possible state-action pairs" +:+ nl
        +:+ "b: Approximate the function mapping states to optimal actions"
        +:+ nl
        +:+ "c: Reducing the need for context" +:+ nl
        +:+ "d: Maximizing user interactions" +:+ nl
        +:+ "Correct Option: b" +:+ nl
        +:+ nl)
       (Ok tt)].
Proof. vm_compute. reflexivity. Qed.

(** * The orchestrator *)

Section OrchestratorFacts.
Context {World : Type} (svc : Service World).
Implicit Types s : St World.

Lemma Evolving_question_body fuel quiz_Id question vars :
  Evolving (question_body svc fuel quiz_Id question vars).
Proof.
  destruct vars as [currentScore content]. unfold question_body.
  apply Evolving_bind; [apply Evolving_attemptQuiz|].
  intros result. apply Evolving_ret.
Qed.

Lemma Evolving_attemptOneQuiz fuel quizId topicName :
  Evolving (attemptOneQuiz svc fuel quizId topicName).
Proof.
  unfold attemptOneQuiz, questions_loop. apply Evolving_try_catch.
  - apply Evolving_bind; [apply Evolving_axios; reflexivity|].
    intros data. cbv zeta. apply Evolving_bind.
    + apply Evolving_for_of. intros. apply Evolving_question_body.
    + intros [currentScore content].
      apply Evolving_bind; [apply Evolving_await; reflexivity|].
      intros _. auto with evolving.
  - intros e. auto with evolving.
Qed.

Lemma Evolving_getUnitTopics unitId : Evolving (getUnitTopics svc unitId).
Proof.
  unfold getUnitTopics. apply Evolving_try_catch.
  - apply Evolving_bind; [apply Evolving_axios; reflexivity|].
    intros topics. apply Evolving_ret.
  - intros e. auto with evolving.
Qed.

Lemma Evolving_resultQuiz topicId : Evolving (resultQuiz svc topicId).
Proof.
  unfold resultQuiz. apply Evolving_try_catch.
  - apply Evolving_bind; [apply Evolving_axios; reflexivity|].
    intros badge. apply Evolving_ret.
  - intros e. auto with evolving.
Qed.

Lemma Evolving_topic_body fuel topic u :
  Evolving (topic_body svc fuel topic u).
Proof.
  unfold topic_body. apply Evolving_bind; [apply Evolving_resultQuiz|].
  intros [|]; [apply Evolving_console_log|].
  apply Evolving_bind; [apply Evolving_console_log|]. intros _.
  apply Evolving_bind; [apply Evolving_attemptOneQuiz|]. intros _.
  auto with evolving.
Qed.

Lemma Evolving_unit_body fuel unit u : Evolving (unit_body svc fuel unit u).
Proof.
  unfold unit_body. apply Evolving_bind; [apply Evolving_getUnitTopics|].
  intros topics. apply Evolving_bind.
  - apply Evolving_for_of. intros. apply Evolving_console_log.
  - intros _. apply Evolving_for_of. intros. apply Evolving_topic_body.
Qed.

(** A request with both fields non-empty: the credential is replaced, then
    the units are processed inside the handler's single [try]. *)
Lemma app_post_accepted fuel body unitIds s :
  falsy (accessToken body) = false ->
  unitId body = Some unitIds ->
  unitIds <> "" ->
  app_post svc fuel body s
  = match for_of (split_space unitIds) (unit_body svc fuel) tt
            (with_token (accessToken body) s) with
    | (Val _, s') =>
        (Val (mkHttpResponse 200 (DoneBody logs "Processing complete")), s')
    | (Throw error, s') =>
        (Val (mkHttpResponse 500 (ErrorBody (emessage error))), s')
    | (OutOfFuel, s') => (OutOfFuel, s')
    end.
Proof.
  intros Htok Hunit Hne. unfold app_post. rewrite Htok, Hunit.
  assert (falsy (Some unitIds) = false) as ->
      by (unfold falsy; apply bool_decide_eq_false_2; exact Hne).
  cbv beta iota delta [orb].
  unfold bind at 1, set_ACCESS_TOKEN at 1. unfold try_catch, bind.
  cbv beta iota delta [default id]. fold (with_token (accessToken body) s).
  destruct (for_of (split_space unitIds) (unit_body svc fuel) tt
              (with_token (accessToken body) s)) as [[[]|e|] s'];
    reflexivity.
Qed.

(** The first loop over the topics prints one line per topic. *)
Lemma for_of_names (topics : list TopicRef) s :
  for_of topics
         (fun topic (_ : unit) =>
            console_log (pretty (topicId topic) +:+ ": " +:+ topicName topic))
         tt s
  = (Val tt, names_logged topics s).
Proof.
  revert s. induction topics as [|topic rest IH]; intros s.
  - unfold names_logged. simpl. rewrite app_nil_r. destruct s; reflexivity.
  - cbn [for_of]. unfold bind, console_log at 1. rewrite IH.
    unfold names_logged. simpl. rewrite <- app_assoc. reflexivity.
Qed.

Lemma resultQuiz_ok topicId s w1 badge :
  quiz_result svc (world s) (ACCESS_TOKEN s) topicId = (w1, Ok badge) ->
  resultQuiz svc topicId s
  = (Val (badge =? 1),
     mkSt w1 (ACCESS_TOKEN s)
          (trace s ++ [EvQuizResult (ACCESS_TOKEN s) topicId (Ok badge)])
          (console s)).
Proof.
  intros H. unfold resultQuiz, try_catch, bind, axios, await.
  rewrite H. reflexivity.
Qed.

Lemma getUnitTopics_ok unitId s w1 topics :
  get_topics_unit svc (world s) (ACCESS_TOKEN s) unitId = (w1, Ok topics) ->
  getUnitTopics svc unitId s
  = (Val (eligible topics),
     mkSt w1 (ACCESS_TOKEN s)
          (trace s ++ [EvTopicsUnit (ACCESS_TOKEN s) unitId (Ok topics)])
          (console s)).
Proof.
  intros H. unfold getUnitTopics, try_catch, bind, axios, await.
  rewrite H. reflexivity.
Qed.

(** The unit's body once its topics are listed. *)
Lemma unit_body_listed fuel unit s w1 topics :
  get_topics_unit svc (world s) (ACCESS_TOKEN s) unit = (w1, Ok topics) ->
  unit_body svc fuel unit tt s
  = for_of (eligible topics) (topic_body svc fuel) tt
      (names_logged (eligible topics)
         (mkSt w1 (ACCESS_TOKEN s)
               (trace s ++ [EvTopicsUnit (ACCESS_TOKEN s) unit (Ok topics)])
               (console s))).
Proof.
  intros H. unfold unit_body. unfold bind at 1.
  rewrite (getUnitTopics_ok _ _ _ _ H).
  unfold bind at 1. rewrite for_of_names. reflexivity.
Qed.

End OrchestratorFacts.

(** ** What the runner leaves in the trace and on the console *)

Lemma creations_app (t1 t2 : list Event) :
  creations (t1 ++ t2) = creations t1 ++ creations t2.
Proof.
  induction t1 as [|ev t1 IH]; simpl; [reflexivity|].
  destruct ev; simpl; rewrite IH; reflexivity.
Qed.

Lemma skipped_app (c1 c2 : list ConsoleEntry) :
  skipped (c1 ++ c2) = skipped c1 ++ skipped c2.
Proof. unfold skipped. apply List.filter_app. Qed.

Lemma pretty_N_char_numeric (x : N) : In (pretty_N_char x) numeric_chars.
Proof.
  unfold pretty_N_char.
  repeat case_match; simpl; tauto.
Qed.

Lemma pretty_N_go_starts_numeric (x : N) :
  forall s, starts_numeric s -> starts_numeric (pretty_N_go x s).
Proof.
  induction x as [x IH] using (well_founded_induction N.lt_wf_0).
  intros s Hs.
  destruct (decide (0 < x)%N) as [Hpos|Hzero].
  - rewrite pretty_N_go_step by exact Hpos.
    apply IH; [apply N.div_lt; [exact Hpos|reflexivity]|].
    eexists _, _. split; [reflexivity|apply pretty_N_char_numeric].
  - assert (x = 0%N) as -> by lia. rewrite pretty_N_go_0. exact Hs.
Qed.

Lemma pretty_Z_starts_numeric (z : Z) : starts_numeric (pretty z).
Proof.
  destruct z as [|p|p].
  - eexists _, _. split; [reflexivity|simpl; tauto].
  - change (starts_numeric (pretty (Npos p))). unfold pretty, pretty_N.
    destruct (decide (N.pos p = 0%N)) as [H|_]; [discriminate H|].
    rewrite pretty_N_go_step by reflexivity.
    apply pretty_N_go_starts_numeric.
    eexists _, _. split; [reflexivity|apply pretty_N_char_numeric].
  - eexists _, _. split; [reflexivity|simpl; tauto].
Qed.

Lemma numeric_not_letter (ch : ascii) :
  In ch numeric_chars -> ch <> "w"%char /\ ch <> "Q"%char.
Proof.
  simpl. intros H.
  repeat (destruct H as [<-|H]; [split; discriminate|]). destruct H.
Qed.

Lemma prefix_cons (a b : ascii) (s1 s2 : string) :
  String.prefix (String a s1) (String b s2)
  = if Ascii.ascii_dec a b then String.prefix s1 s2 else false.
Proof. reflexivity. Qed.

(** "N: name" is not a skip entry. *)
Lemma name_is_not_skip (topic : TopicRef) :
  is_skip (Log (pretty (topicId topic) +:+ ": " +:+ topicName topic)) = false.
Proof.
  destruct (pretty_Z_starts_numeric (topicId topic))
    as (ch & rest & -> & Hnum).
  destruct (numeric_not_letter ch Hnum) as [_ Hch].
  unfold is_skip. rewrite append_cons, prefix_cons.
  destruct (Ascii.ascii_dec "Q" ch) as [?|?]; [congruence|reflexivity].
Qed.

Lemma names_are_not_skips (topics : list TopicRef) :
  skipped (map (fun topic => Log (pretty (topicId topic) +:+ ": "
                                  +:+ topicName topic)) topics) = [].
Proof.
  induction topics as [|topic rest IH]; [reflexivity|].
  unfold skipped in *. cbn [map List.filter].
  rewrite name_is_not_skip. exact IH.
Qed.

(** "Quiz N is finished." is not a skip entry. *)
Lemma finished_is_not_skip (topicId : Z) :
  is_skip (Log ("Quiz " +:+ pretty topicId +:+ " is finished.")) = false.
Proof.
  destruct (pretty_Z_starts_numeric topicId) as (ch & rest & -> & Hnum).
  destruct (numeric_not_letter ch Hnum) as [Hch _].
  change (String.prefix "Quiz with id "
            (String "Q" (String "u" (String "i" (String "z" (String " "
               (String ch (rest +:+ " is finished."))))))) = false).
  repeat (rewrite prefix_cons;
          destruct (Ascii.ascii_dec _ _) as [?|?];
          [try congruence|reflexivity]).
Qed.

Lemma prefix_empty (s : string) : String.prefix "" s = true.
Proof. destruct s; reflexivity. Qed.

Lemma skip_entry_is_skip (topicId : Z) : is_skip (skip_entry topicId) = true.
Proof.
  unfold skip_entry, is_skip.
  repeat (rewrite append_cons, prefix_cons;
          destruct (Ascii.ascii_dec _ _) as [?|?]; [|congruence]).
  apply prefix_empty.
Qed.

Lemma skip_entries_are_skips (topics : list TopicRef) :
  skipped (map (fun topic => skip_entry (topicId topic)) topics)
  = map (fun topic => skip_entry (topicId topic)) topics.
Proof.
  induction topics as [|topic rest IH]; [reflexivity|].
  unfold skipped in *. cbn [map List.filter].
  rewrite skip_entry_is_skip. f_equal. exact IH.
Qed.

Section QuietFacts.
Context {World : Type}.
Implicit Types s : St World.

Lemma Quiet_same {A} (m : M World A) :
  (forall s, snd (m s) = s) -> Quiet m.
Proof.
  intros H s. exists [], []. rewrite H, !app_nil_r. repeat split.
Qed.

Lemma Quiet_ret {A} (a : A) : Quiet (World:=World) (ret a).
Proof. apply Quiet_same. reflexivity. Qed.

Lemma Quiet_throw {A} e : Quiet (World:=World) (A:=A) (throw e).
Proof. apply Quiet_same. reflexivity. Qed.

Lemma Quiet_out_of_fuel {A} : Quiet (World:=World) (A:=A) out_of_fuel.
Proof. apply Quiet_same. reflexivity. Qed.

Lemma Quiet_console_log line :
  is_skip (Log line) = false -> Quiet (World:=World) (console_log line).
Proof.
  intros Hline s. exists [], [Log line]. simpl. rewrite app_nil_r.
  repeat split. unfold skipped. simpl in *. now rewrite Hline.
Qed.

Lemma Quiet_console_error line e :
  Quiet (World:=World) (console_error line e).
Proof.
  intros s. exists [], [LogError line e]. simpl. rewrite app_nil_r.
  repeat split.
Qed.

Lemma Quiet_seq s1 s2 s3 ext1 c1 ext2 c2 :
  trace s2 = trace s1 ++ ext1 -> creations ext1 = [] ->
  console s2 = console s1 ++ c1 -> skipped c1 = [] ->
  trace s3 = trace s2 ++ ext2 -> creations ext2 = [] ->
  console s3 = console s2 ++ c2 -> skipped c2 = [] ->
  exists ext c,
    trace s3 = trace s1 ++ ext /\ creations ext = [] /\
    console s3 = console s1 ++ c /\ skipped c = [].
Proof.
  intros Ht1 Hc1 Hk1 Hs1 Ht2 Hc2 Hk2 Hs2.
  exists (ext1 ++ ext2), (c1 ++ c2).
  rewrite Ht2, Ht1, Hk2, Hk1, creations_app, skipped_app, Hc1, Hc2, Hs1, Hs2,
    <- !app_assoc.
  repeat split.
Qed.

Lemma Quiet_bind {A B} (m : M World A) (k : A -> M World B) :
  Quiet m -> (forall a, Quiet (k a)) -> Quiet (bind m k).
Proof.
  intros Hm Hk s. unfold bind.
  destruct (Hm s) as (ext1 & c1 & Ht1 & Hc1 & Hk1 & Hs1).
  destruct (m s) as [[a|e|] s1]; simpl in *; [|eauto 10|eauto 10].
  destruct (Hk a s1) as (ext2 & c2 & Ht2 & Hc2 & Hk2 & Hs2).
  eapply Quiet_seq; eassumption.
Qed.

Lemma Quiet_try_catch {A} (m : M World A) (h : Err -> M World A) :
  Quiet m -> (forall e, Quiet (h e)) -> Quiet (try_catch m h).
Proof.
  intros Hm Hh s. unfold try_catch.
  destruct (Hm s) as (ext1 & c1 & Ht1 & Hc1 & Hk1 & Hs1).
  destruct (m s) as [[a|e|] s1]; simpl in *; [eauto 10| |eauto 10].
  destruct (Hh e s1) as (ext2 & c2 & Ht2 & Hc2 & Hk2 & Hs2).
  eapply Quiet_seq; eassumption.
Qed.

Lemma Quiet_await {A} (call : World -> World * Resp A) ev :
  (forall r, creations [ev r] = []) -> Quiet (await call ev).
Proof.
  intros Hev s. unfold await. destruct (call (world s)) as [w' r].
  exists [ev r], [].
  destruct r; cbn [snd trace console]; rewrite app_nil_r;
    (split; [reflexivity|]); (split; [apply Hev|]); split; reflexivity.
Qed.

Lemma Quiet_axios {A} (call : World -> option string -> World * Resp A) ev :
  (forall tok r, creations [ev tok r] = []) -> Quiet (axios call ev).
Proof. intros Hev s. unfold axios. apply Quiet_await. apply Hev. Qed.

Lemma Quiet_for_of {A S} (l : list A) (body : A -> S -> M World S) acc :
  (forall x a, Quiet (body x a)) -> Quiet (for_of l body acc).
Proof.
  intros Hb. revert acc.
  induction l as [|x rest IH]; intros acc; simpl.
  - apply Quiet_ret.
  - apply Quiet_bind; [apply Hb|]. intros a. apply IH.
Qed.

End QuietFacts.

Create HintDb quiet.
#[export] Hint Resolve Quiet_ret Quiet_throw Quiet_out_of_fuel
  Quiet_console_error Quiet_bind Quiet_try_catch Quiet_for_of : quiet.

(** Closes goals [is_skip (Log line) = false] for a line that starts with
    literal characters other than those of a skip entry. *)
Ltac not_skip :=
  unfold is_skip;
  repeat (rewrite ?append_cons, prefix_cons;
          destruct (Ascii.ascii_dec _ _) as [?|?];
          [try congruence|reflexivity]).

Section RunnerFootprint.
Context {World : Type} (svc : Service World).
Implicit Types s : St World.

Lemma Quiet_getScore quizId : Quiet (getScore svc quizId).
Proof.
  unfold getScore. apply Quiet_try_catch.
  - apply Quiet_axios. reflexivity.
  - intros e. auto with quiet.
Qed.

Lemma Quiet_attemptQuizApi quizId questionId userAnswer :
  Quiet (attemptQuizApi svc quizId questionId userAnswer).
Proof.
  unfold attemptQuizApi. apply Quiet_try_catch.
  - apply Quiet_bind; [apply Quiet_axios; reflexivity|].
    intros _. apply Quiet_getScore.
  - intros e. auto with quiet.
Qed.

Lemma Quiet_attemptQuiz_while fuel : forall quizId questionId currentScore
    score0 i captured,
  Quiet (attemptQuiz_while svc fuel quizId questionId currentScore score0 i
           captured).
Proof.
  induction fuel as [|fuel IH];
    intros quizId questionId currentScore score0 i captured; simpl.
  - destruct (score0 =? currentScore + 1); auto with quiet.
  - destruct (score0 =? currentScore + 1); [auto with quiet|].
    apply Quiet_bind.
    + apply Quiet_try_catch.
      * apply Quiet_bind; [apply Quiet_attemptQuizApi|].
        intros sc'. destruct (sc' =? currentScore + 1); [|apply Quiet_ret].
        apply Quiet_bind; [apply Quiet_console_log; not_skip|].
        intros _. apply Quiet_ret.
      * intros e.
        apply Quiet_bind; [apply Quiet_console_log; not_skip|].
        intros _. apply Quiet_ret.
    + intros [sc' co'|]; [apply IH|apply Quiet_ret].
Qed.

Lemma Quiet_question_body fuel quiz_Id question vars :
  Quiet (question_body svc fuel quiz_Id question vars).
Proof.
  destruct vars as [currentScore content]. unfold question_body.
  apply Quiet_bind; [apply Quiet_attemptQuiz_while|].
  intros result. apply Quiet_ret.
Qed.

(** One invocation of the runner requests the creation of one quiz, the one
    it was invoked for, and logs no skip entry. *)
Lemma attemptOneQuiz_footprint fuel quizId topicName s :
  creations (trace (snd (attemptOneQuiz svc fuel quizId topicName s)))
  = creations (trace s) ++ [quizId] /\
  skipped (console (snd (attemptOneQuiz svc fuel quizId topicName s)))
  = skipped (console s).
Proof.
  assert (forall e,
             Quiet (World:=World) (A:=RunResult)
                   (console_log ("Error creating quiz " +:+ pretty quizId
                                 +:+ ": " +:+ Err_toString e) ;;
                    throw e)) as Hhandler.
  { intros e. apply Quiet_bind; [apply Quiet_console_log; not_skip|].
    intros _. apply Quiet_throw. }
  unfold attemptOneQuiz. rewrite try_catch_bind_axios.
  destruct (create_quiz svc (world s) (ACCESS_TOKEN s) quizId)
    as [w1 [data|e]]; cbv zeta.
  - set (s1 := mkSt w1 (ACCESS_TOKEN s)
                    (trace s ++ [EvCreateQuiz (ACCESS_TOKEN s) quizId (Ok data)])
                    (console s)).
    match goal with
    | |- context [try_catch ?rest ?h s1] =>
        assert (Quiet (try_catch rest h)) as Hq
    end.
    { apply Quiet_try_catch; [|exact Hhandler].
      apply Quiet_bind.
      - unfold questions_loop. apply Quiet_for_of.
        intros. apply Quiet_question_body.
      - intros [currentScore content].
        apply Quiet_bind; [apply Quiet_await; reflexivity|]. intros _.
        apply Quiet_bind; [apply Quiet_console_log; not_skip|].
        intros _. apply Quiet_ret. }
    destruct (Hq s1) as (ext & c & Ht & Hc & Hk & Hs).
    rewrite Ht, Hk. subst s1. cbn [trace console].
    rewrite creations_app, creations_app, skipped_app, Hc, Hs, !app_nil_r.
    split; reflexivity.
  - destruct (Hhandler e
                (mkSt w1 (ACCESS_TOKEN s)
                      (trace s ++ [EvCreateQuiz (ACCESS_TOKEN s) quizId
                                                (Fail e)])
                      (console s))) as (ext & c & Ht & Hc & Hk & Hs).
    rewrite Ht, Hk. cbn [trace console].
    rewrite creations_app, creations_app, skipped_app, Hc, Hs, !app_nil_r.
    split; reflexivity.
Qed.

(** The loop body for a topic whose status query answers the badge 1: the
    topic is skipped. *)
Lemma topic_body_passed fuel topic s w1 :
  quiz_result svc (world s) (ACCESS_TOKEN s) (topicId topic) = (w1, Ok 1) ->
  topic_body svc fuel topic tt s
  = (Val tt,
     mkSt w1 (ACCESS_TOKEN s)
          (trace s ++ [EvQuizResult (ACCESS_TOKEN s) (topicId topic) (Ok 1)])
          (console s ++ [skip_entry (topicId topic)])).
Proof.
  intros H. unfold topic_body. unfold bind at 1.
  rewrite (resultQuiz_ok svc _ _ _ _ H). reflexivity.
Qed.

(** The loop body for a topic whose status query answers another badge: the
    runner is invoked once; its failure is not caught here. *)
Lemma topic_body_pending fuel topic s w1 badge :
  quiz_result svc (world s) (ACCESS_TOKEN s) (topicId topic)
  = (w1, Ok badge) ->
  badge <> 1 ->
  topic_body svc fuel topic tt s
  = match attemptOneQuiz svc fuel (topicId topic) (topicName topic)
            (logged ("Solving quiz " +:+ pretty (topicId topic))
               (mkSt w1 (ACCESS_TOKEN s)
                     (trace s ++ [EvQuizResult (ACCESS_TOKEN s)
                                               (topicId topic) (Ok badge)])
                     (console s))) with
    | (Val _, s') =>
        (Val tt,
         logged "" (logged ("Quiz " +:+ pretty (topicId topic)
                            +:+ " is finished.") s'))
    | (Throw e, s') => (Throw e, s')
    | (OutOfFuel, s') => (OutOfFuel, s')
    end.
Proof.
  intros H Hbadge. unfold topic_body. unfold bind at 1.
  rewrite (resultQuiz_ok svc _ _ _ _ H).
  apply Z.eqb_neq in Hbadge. rewrite Hbadge.
  unfold bind at 1, console_log at 1. unfold bind at 1.
  fold (logged ("Solving quiz " +:+ pretty (topicId topic))
          (mkSt w1 (ACCESS_TOKEN s)
                (trace s ++ [EvQuizResult (ACCESS_TOKEN s) (topicId topic)
                                          (Ok badge)])
                (console s))).
  destruct (attemptOneQuiz svc fuel (topicId topic) (topicName topic) _)
    as [[r|e|] s']; reflexivity.
Qed.

End RunnerFootprint.

Lemma count_events_app (p : Event -> bool) (t1 t2 : list Event) :
  count_events p (t1 ++ t2) = (count_events p t1 + count_events p t2)%nat.
Proof. unfold count_events. rewrite List.filter_app. apply length_app. Qed.

Lemma count_events_none (p : Event -> bool) (tr : list Event) :
  Forall (fun ev => p ev = false) tr -> count_events p tr = 0%nat.
Proof.
  unfold count_events. induction 1 as [|ev tr Hev _ IH]; simpl;
    [reflexivity|]. now rewrite Hev.
Qed.

Section SkippedUnit.
Context {World : Type} (svc : Service World).
Implicit Types s : St World.

(** The loop over topics whose status queries all answer the badge 1: one
    status query and one skip entry per topic, nothing else. *)
Lemma topics_all_passed fuel (topics : list TopicRef) : forall s,
  Forall (fun r => r = Ok 1)
         (fst (poll_results svc (ACCESS_TOKEN s) (map topicId topics)
                 (world s))) ->
  for_of topics (topic_body svc fuel) tt s
  = (Val tt,
     mkSt (snd (poll_results svc (ACCESS_TOKEN s) (map topicId topics)
                  (world s)))
          (ACCESS_TOKEN s)
          (trace s ++ map (fun topic =>
                             EvQuizResult (ACCESS_TOKEN s) (topicId topic)
                                          (Ok 1)) topics)
          (console s ++ map (fun topic => skip_entry (topicId topic)) topics)).
Proof.
  induction topics as [|topic rest IH]; intros s Hall.
  - simpl. rewrite !app_nil_r. destruct s; reflexivity.
  - cbn [map poll_results for_of] in Hall |- *.
    destruct (quiz_result svc (world s) (ACCESS_TOKEN s) (topicId topic))
      as [w1 r] eqn:Hq.
    destruct (poll_results svc (ACCESS_TOKEN s) (map topicId rest) w1)
      as [rs w2] eqn:Hrest.
    cbn [fst snd] in Hall |- *.
    pose proof (Forall_inv Hall) as Hr. simpl in Hr. subst r.
    pose proof (Forall_inv_tail Hall) as Hrs.
    unfold bind at 1. rewrite (topic_body_passed svc fuel topic s w1 Hq).
    rewrite IH; cbn [world ACCESS_TOKEN trace console]; rewrite Hrest.
    + cbn [snd]. rewrite <- !app_assoc. reflexivity.
    + exact Hrs.
Qed.

End SkippedUnit.

(** * Properties of the orchestrator *)

(** C10: a request whose credential or unit-identifier field is missing (or
    empty) is answered 400 with the state untouched: no remote call was
    issued and [ACCESS_TOKEN] was not replaced.  When both fields are
    present and non-empty, [ACCESS_TOKEN] is replaced by the supplied
    credential and every remote call the request issues carries it: the
    replacement precedes the first remote call. *)
Theorem app_post_validates_then_replaces_credential :
  forall (World : Type) (svc : Service World) (fuel : nat) (body : ReqBody)
         (s : St World),
    let run := app_post svc fuel body s in
    (accessToken body = None \/ unitId body = None \/
     accessToken body = Some "" \/ unitId body = Some "" ->
     run = (Val (mkHttpResponse 400
                   (ErrorBody "Missing accessToken or unitId in request data.")),
            s)) /\
    (forall tok unitIds : string,
        accessToken body = Some tok -> unitId body = Some unitIds ->
        tok <> "" -> unitIds <> "" ->
        ACCESS_TOKEN (snd run) = Some tok /\
        exists ext,
          trace (snd run) = trace s ++ ext /\
          Forall (carries (Some tok)) ext).
Proof.
  intros World svc fuel body s. cbv zeta. split.
  - intros Hmissing. unfold app_post.
    assert (falsy (accessToken body) || falsy (unitId body) = true) as ->;
      [|reflexivity].
    destruct Hmissing as [H|[H|[H|H]]]; rewrite H; simpl;
      try reflexivity; apply orb_true_r.
  - intros tok unitIds Htok Hunit Htok_ne Hunit_ne.
    assert (falsy (accessToken body) = false) as Hf.
    { rewrite Htok. unfold falsy. now apply bool_decide_eq_false_2. }
    rewrite (app_post_accepted svc fuel body unitIds s Hf Hunit Hunit_ne).
    pose proof (Evolving_for_of (split_space unitIds) (unit_body svc fuel) tt
                  (fun unit u => Evolving_unit_body svc fuel unit u)
                  (with_token (accessToken body) s)) as [Hkeep (ext & Hext & Hall)].
    destruct (for_of (split_space unitIds) (unit_body svc fuel) tt
                (with_token (accessToken body) s)) as [[[]|e|] s'];
      cbn [snd fst] in *; rewrite Htok in *;
      (split; [exact Hkeep|exists ext; split; [exact Hext|exact Hall]]).
Qed.

Lemma app_post_validates_then_replaces_credential_witness :
  app_post (campus (fun _ => true) empty_quiz) 1
           (mkReqBody None (Some "12")) (start tt (Some "old"))
  = (Val (mkHttpResponse 400
            (ErrorBody "Missing accessToken or unitId in request data.")),
     start tt (Some "old")) /\
  ACCESS_TOKEN (snd (app_post (campus (fun _ => true) empty_quiz) 1
                       (mkReqBody (Some "new") (Some "12"))
                       (start tt (Some "old"))))
  = Some "new".
Proof.
  split.
  - apply (proj1 (app_post_validates_then_replaces_credential unit
                    (campus (fun _ => true) empty_quiz) 1
                    (mkReqBody None (Some "12")) (start tt (Some "old")))).
    left. reflexivity.
  - apply (proj2 (app_post_validates_then_replaces_credential unit
                    (campus (fun _ => true) empty_quiz) 1
                    (mkReqBody (Some "new") (Some "12"))
                    (start tt (Some "old"))) "new" "12");
      (reflexivity || discriminate).
Defined.

(** C7: when the topics of a unit are listed and the status query of every
    eligible topic answers the badge 1, the handler answers 200 having
    issued, after the listing, one status query per eligible topic and
    nothing else: no quiz creation is requested and no file is written. *)
Theorem passed_unit_is_only_polled :
  forall (World : Type) (svc : Service World) (fuel : nat)
         (tok unit : string) (s : St World) (w1 : World)
         (topics : list Topic.t),
    tok <> "" -> unit <> "" -> split_space unit = [unit] ->
    get_topics_unit svc (world s) (Some tok) unit = (w1, Ok topics) ->
    Forall (fun r => r = Ok 1)
           (fst (poll_results svc (Some tok)
                   (map topicId (eligible topics)) w1)) ->
    let run := app_post svc fuel (mkReqBody (Some tok) (Some unit)) s in
    fst run
    = Val (mkHttpResponse 200 (DoneBody [] "Processing complete")) /\
    trace (snd run)
    = trace s ++ EvTopicsUnit (Some tok) unit (Ok topics)
        :: map (fun topic => EvQuizResult (Some tok) (topicId topic) (Ok 1))
               (eligible topics) /\
    skipped (console (snd run))
    = skipped (console s)
        ++ map (fun topic => skip_entry (topicId topic)) (eligible topics) /\
    count_events is_create (trace (snd run)) = count_events is_create (trace s)
    /\
    count_events is_write (trace (snd run)) = count_events is_write (trace s).
Proof.
  intros World svc fuel tok unit s w1 topics Htok Hunit Hsplit Hlist Hall.
  cbv zeta.
  assert (falsy (Some tok) = false) as Hf
      by (unfold falsy; now apply bool_decide_eq_false_2).
  assert (app_post svc fuel (mkReqBody (Some tok) (Some unit)) s
          = (Val (mkHttpResponse 200 (DoneBody [] "Processing complete")),
             mkSt (snd (poll_results svc (Some tok)
                          (map topicId (eligible topics)) w1))
                  (Some tok)
                  ((trace s ++ [EvTopicsUnit (Some tok) unit (Ok topics)])
                     ++ map (fun topic =>
                               EvQuizResult (Some tok) (topicId topic) (Ok 1))
                            (eligible topics))
                  ((console s
                      ++ map (fun topic =>
                                Log (pretty (topicId topic) +:+ ": "
                                     +:+ topicName topic)) (eligible topics))
                     ++ map (fun topic => skip_entry (topicId topic))
                            (eligible topics)))) as Hrun.
  { rewrite (app_post_accepted svc fuel (mkReqBody (Some tok) (Some unit))
               unit s Hf eq_refl Hunit).
    rewrite Hsplit, for_of_single. cbn [accessToken].
    rewrite (unit_body_listed svc fuel unit (with_token (Some tok) s) w1
               topics Hlist).
    rewrite topics_all_passed by exact Hall. reflexivity. }
  rewrite Hrun. cbn [fst snd trace console].
  assert (forall p, (forall auth id r, p (EvQuizResult auth id r) = false) ->
                    (forall auth u r, p (EvTopicsUnit auth u r) = false) ->
                    count_events p
                      ((trace s ++ [EvTopicsUnit (Some tok) unit (Ok topics)])
                         ++ map (fun topic =>
                                   EvQuizResult (Some tok) (topicId topic)
                                                (Ok 1)) (eligible topics))
                    = count_events p (trace s)) as Hcount.
  { intros p Hp1 Hp2. rewrite !count_events_app.
    rewrite (count_events_none p [_]) by (repeat constructor; apply Hp2).
    rewrite (count_events_none p (map _ _)); [lia|].
    clear Hall. generalize (eligible topics) as l.
    induction l as [|t l IH]; cbn [map]; constructor; [apply Hp1|exact IH]. }
  split; [reflexivity|].
  split; [rewrite <- app_assoc; reflexivity|].
  split.
  - rewrite !skipped_app, names_are_not_skips, skip_entries_are_skips.
    rewrite app_nil_r. reflexivity.
  - split; apply Hcount; reflexivity.
Qed.

Lemma passed_unit_is_only_polled_witness :
  let run :=
    app_post (campus (fun _ => true) empty_quiz) 1
             (mkReqBody (Some "token") (Some "12")) (start tt None) in
  fst run = Val (mkHttpResponse 200 (DoneBody [] "Processing complete")) /\
  trace (snd run)
  = [EvTopicsUnit (Some "token") "12" (Ok campus_topics);
     EvQuizResult (Some "token") 5 (Ok 1);
     EvQuizResult (Some "token") 7 (Ok 1)].
Proof.
  cbv zeta.
  destruct (passed_unit_is_only_polled unit (campus (fun _ => true) empty_quiz)
              1 "token" "12" (start tt None) tt campus_topics)
    as (Hres & Htrace & _).
  - discriminate.
  - discriminate.
  - reflexivity.
  - reflexivity.
  - repeat constructor.
  - split; [exact Hres|exact Htrace].
Defined.

Section FailedTopic.
Context {World : Type} (svc : Service World).
Implicit Types s : St World.

(** The runner logs the failure it rethrows. *)
Lemma attemptOneQuiz_throw_inv fuel quizId topicName s e s' :
  attemptOneQuiz svc fuel quizId topicName s = (Throw e, s') ->
  exists s1,
    s' = logged ("Error creating quiz " +:+ pretty quizId +:+ ": "
                 +:+ Err_toString e) s1.
Proof.
  unfold attemptOneQuiz, try_catch.
  match goal with
  | |- context [match ?m s with _ => _ end] =>
      destruct (m s) as [[r|e'|] s1]
  end; intros H; [discriminate| |discriminate].
  unfold bind, console_log, throw in H. inversion H; subst.
  exists s1. reflexivity.
Qed.

(** A loop stops at the first pass that throws. *)
Lemma for_of_throw {A} (before : list A) (x : A) (after : list A)
    (body : A -> unit -> M World unit) s s1 e s2 :
  for_of before body tt s = (Val tt, s1) ->
  body x tt s1 = (Throw e, s2) ->
  for_of (before ++ x :: after) body tt s = (Throw e, s2).
Proof.
  intros Hbefore Hx. rewrite for_of_app. unfold bind at 1. rewrite Hbefore.
  cbn [for_of]. unfold bind at 1. rewrite Hx. reflexivity.
Qed.

End FailedTopic.

(** C2 (counterexample): a run over the units 12 and 13, the first of which
    lists the eligible topics 5 and 7, none passed; creating the quiz of
    topic 5 fails.  The run is answered 500 and stops there: topic 7 is
    neither queried nor run, unit 13 is not listed. *)
Lemma runner_failure_stops_remaining_topics :
  let run :=
    app_post (campus (fun _ => false) create_breaks_first) 5
             (mkReqBody (Some "token") (Some "12 13")) (start tt None) in
  eligible campus_topics = [mkTopicRef 5 "Intro RL"; mkTopicRef 7 "Bandits"] /\
  fst run = Val (mkHttpResponse 500 (ErrorBody "Network Error")) /\
  trace (snd run)
  = [EvTopicsUnit (Some "token") "12" (Ok campus_topics);
     EvQuizResult (Some "token") 5 (Ok 0);
     EvCreateQuiz (Some "token") 5 (Fail unavailable)].
Proof.
  cbv zeta. split; [reflexivity|]. split; vm_compute; reflexivity.
Qed.

(** C2 (amended): when the runner invoked for a topic fails, the failure is
    logged by the runner and rethrown; the handler has no handler of its own
    around one topic, so the failure leaves both loops and reaches the
    handler's single [catch]: the request is answered 500 with the error's
    message, and the state is the one the runner left when it threw, so no
    remaining topic of the unit and no later unit is processed. *)
Theorem runner_failure_aborts_run :
  forall (World : Type) (svc : Service World) (fuel : nat)
         (tok unitIds : string) (s : St World)
         (units_before : list string) (unit : string)
         (units_after : list string)
         (s1 : St World) (w2 : World) (topics : list Topic.t)
         (topics_before : list TopicRef) (topic : TopicRef)
         (topics_after : list TopicRef)
         (s3 : St World) (w4 : World) (badge : Z) (e : Err) (s5 : St World),
    tok <> "" -> unitIds <> "" ->
    split_space unitIds = units_before ++ unit :: units_after ->
    for_of units_before (unit_body svc fuel) tt (with_token (Some tok) s)
    = (Val tt, s1) ->
    get_topics_unit svc (world s1) (ACCESS_TOKEN s1) unit = (w2, Ok topics) ->
    eligible topics = topics_before ++ topic :: topics_after ->
    for_of topics_before (topic_body svc fuel) tt
           (names_logged (eligible topics)
              (mkSt w2 (ACCESS_TOKEN s1)
                    (trace s1 ++ [EvTopicsUnit (ACCESS_TOKEN s1) unit
                                               (Ok topics)])
                    (console s1)))
    = (Val tt, s3) ->
    quiz_result svc (world s3) (ACCESS_TOKEN s3) (topicId topic)
    = (w4, Ok badge) ->
    badge <> 1 ->
    attemptOneQuiz svc fuel (topicId topic) (topicName topic)
      (logged ("Solving quiz " +:+ pretty (topicId topic))
         (mkSt w4 (ACCESS_TOKEN s3)
               (trace s3 ++ [EvQuizResult (ACCESS_TOKEN s3) (topicId topic)
                                          (Ok badge)])
               (console s3)))
    = (Throw e, s5) ->
    app_post svc fuel (mkReqBody (Some tok) (Some unitIds)) s
    = (Val (mkHttpResponse 500 (ErrorBody (emessage e))), s5) /\
    exists s4,
      s5 = logged ("Error creating quiz " +:+ pretty (topicId topic) +:+ ": "
                   +:+ Err_toString e) s4.
Proof.
  intros World svc fuel tok unitIds s units_before unit units_after s1 w2
         topics topics_before topic topics_after s3 w4 badge e s5
         Htok Hunit Hsplit Hbefore Hlist Helig Htopics Hstatus Hbadge Hrunner.
  split; [|exact (attemptOneQuiz_throw_inv svc _ _ _ _ _ _ Hrunner)].
  assert (falsy (Some tok) = false) as Hf
      by (unfold falsy; now apply bool_decide_eq_false_2).
  rewrite (app_post_accepted svc fuel (mkReqBody (Some tok) (Some unitIds))
             unitIds s Hf eq_refl Hunit).
  rewrite Hsplit. cbn [accessToken].
  rewrite (for_of_throw units_before unit units_after (unit_body svc fuel)
             (with_token (Some tok) s) s1 e s5 Hbefore); [reflexivity|].
  rewrite (unit_body_listed svc fuel unit s1 w2 topics Hlist).
  rewrite Helig at 1.
  apply (for_of_throw topics_before topic topics_after (topic_body svc fuel)
           _ s3 e s5 Htopics).
  rewrite (topic_body_pending svc fuel topic s3 w4 badge Hstatus Hbadge).
  rewrite Hrunner. reflexivity.
Qed.

Lemma runner_failure_aborts_run_witness :
  fst (app_post (campus (fun _ => false) create_breaks_first) 5
         (mkReqBody (Some "token") (Some "12 13")) (start tt None))
  = Val (mkHttpResponse 500 (ErrorBody "Network Error")).
Proof.
  pose (svc := campus (fun _ => false) create_breaks_first).
  pose (s := start tt None).
  pose (topic := mkTopicRef 5 "Intro RL").
  pose (s3 := names_logged (eligible campus_topics)
                (mkSt tt (Some "token")
                      [EvTopicsUnit (Some "token") "12" (Ok campus_topics)]
                      [])).
  pose (s_run := logged ("Solving quiz " +:+ pretty (topicId topic))
                   (mkSt tt (ACCESS_TOKEN s3)
                         (trace s3 ++ [EvQuizResult (ACCESS_TOKEN s3)
                                                    (topicId topic) (Ok 0)])
                         (console s3))).
  destruct (runner_failure_aborts_run unit svc 5 "token" "12 13" s
              [] "12" ["13"] (with_token (Some "token") s) tt campus_topics
              [] topic [mkTopicRef 7 "Bandits"] s3 tt 0 unavailable
              (snd (attemptOneQuiz svc 5 (topicId topic) (topicName topic)
                      s_run)))
    as [Hrun _];
    [discriminate|discriminate|reflexivity|reflexivity|reflexivity
    |reflexivity|reflexivity|reflexivity|discriminate|reflexivity|].
  exact (f_equal fst Hrun).
Defined.

Section TwoTopics.
Context {World : Type} (svc : Service World).
Implicit Types s : St World.

(** A skipped topic: no runner invocation, one skip entry. *)
Lemma topic_passed_run fuel topic s :
  snd (quiz_result svc (world s) (ACCESS_TOKEN s) (topicId topic)) = Ok 1 ->
  exists s',
    topic_body svc fuel topic tt s = (Val tt, s') /\
    ACCESS_TOKEN s' = ACCESS_TOKEN s /\
    creations (trace s') = creations (trace s) /\
    skipped (console s')
    = skipped (console s) ++ [skip_entry (topicId topic)].
Proof.
  intros Hstatus.
  destruct (quiz_result svc (world s) (ACCESS_TOKEN s) (topicId topic))
    as [w1 r] eqn:Hq.
  simpl in Hstatus. subst r.
  eexists. split; [apply (topic_body_passed svc fuel topic s w1 Hq)|].
  cbn [ACCESS_TOKEN trace console].
  rewrite creations_app, skipped_app. cbn [creations].
  rewrite app_nil_r. repeat split.
  unfold skipped at 2. cbn [List.filter]. now rewrite skip_entry_is_skip.
Qed.

(** A topic that is not passed: one runner invocation, for that topic, and
    no skip entry, however the invocation ends. *)
Lemma topic_pending_run fuel topic s badge :
  snd (quiz_result svc (world s) (ACCESS_TOKEN s) (topicId topic))
  = Ok badge ->
  badge <> 1 ->
  creations (trace (snd (topic_body svc fuel topic tt s)))
  = creations (trace s) ++ [topicId topic] /\
  skipped (console (snd (topic_body svc fuel topic tt s)))
  = skipped (console s).
Proof.
  intros Hstatus Hbadge.
  destruct (quiz_result svc (world s) (ACCESS_TOKEN s) (topicId topic))
    as [w1 r] eqn:Hq.
  simpl in Hstatus. subst r.
  rewrite (topic_body_pending svc fuel topic s w1 badge Hq Hbadge).
  set (s_run := logged _ _).
  destruct (attemptOneQuiz_footprint svc fuel (topicId topic)
              (topicName topic) s_run) as [Hcre Hskip].
  assert (creations (trace s_run) = creations (trace s)) as Hc0.
  { subst s_run. cbn [trace logged]. rewrite creations_app. cbn [creations].
    apply app_nil_r. }
  assert (skipped (console s_run) = skipped (console s)) as Hs0.
  { subst s_run. cbn [console logged]. rewrite skipped_app.
    unfold skipped at 2. cbn [List.filter].
    replace (is_skip (Log ("Solving quiz " +:+ pretty (topicId topic))))
      with false by (symmetry; not_skip).
    apply app_nil_r. }
  rewrite Hc0 in Hcre. rewrite Hs0 in Hskip.
  destruct (attemptOneQuiz svc fuel (topicId topic) (topicName topic) s_run)
    as [[r|e|] s']; cbn [snd] in *; try (split; assumption).
  cbn [trace console logged]. split; [exact Hcre|].
  rewrite !skipped_app, Hskip. unfold skipped at 2 3. cbn [List.filter].
  rewrite finished_is_not_skip. cbn [is_skip String.prefix].
  rewrite !app_nil_r. reflexivity.
Qed.

Lemma topic_body_keeps_token fuel topic s :
  ACCESS_TOKEN (snd (topic_body svc fuel topic tt s)) = ACCESS_TOKEN s.
Proof. apply (Evolving_topic_body svc fuel topic tt s). Qed.

End TwoTopics.




(** * Further properties *)

(** ** Trace footprints *)

Section EmitsFacts.
Context {World : Type} (P : Event -> Prop).
Implicit Types s : St World.

Lemma Emits_same {A} (m : M World A) :
  (forall s, trace (snd (m s)) = trace s) -> Emits P m.
Proof.
  intros H s. exists []. rewrite H, app_nil_r. split; [reflexivity|constructor].
Qed.

Lemma Emits_ret {A} (a : A) : Emits (World:=World) P (ret a).
Proof. apply Emits_same. reflexivity. Qed.

Lemma Emits_throw {A} e : Emits (World:=World) (A:=A) P (throw e).
Proof. apply Emits_same. reflexivity. Qed.

Lemma Emits_out_of_fuel {A} : Emits (World:=World) (A:=A) P out_of_fuel.
Proof. apply Emits_same. reflexivity. Qed.

Lemma Emits_console_log line : Emits (World:=World) P (console_log line).
Proof. apply Emits_same. reflexivity. Qed.

Lemma Emits_console_error line e :
  Emits (World:=World) P (console_error line e).
Proof. apply Emits_same. reflexivity. Qed.

Lemma Emits_bind {A B} (m : M World A) (k : A -> M World B) :
  Emits P m -> (forall a, Emits P (k a)) -> Emits P (bind m k).
Proof.
  intros Hm Hk s. unfold bind.
  destruct (Hm s) as (e1 & Ht1 & Hp1).
  destruct (m s) as [[a|e|] s1]; cbn [snd] in *; [|eauto|eauto].
  destruct (Hk a s1) as (e2 & Ht2 & Hp2).
  exists (e1 ++ e2). rewrite Ht2, Ht1, <- app_assoc.
  split; [reflexivity|]. apply Forall_app. split; assumption.
Qed.

Lemma Emits_try_catch {A} (m : M World A) (h : Err -> M World A) :
  Emits P m -> (forall e, Emits P (h e)) -> Emits P (try_catch m h).
Proof.
  intros Hm Hh s. unfold try_catch.
  destruct (Hm s) as (e1 & Ht1 & Hp1).
  destruct (m s) as [[a|e|] s1]; cbn [snd] in *; [eauto| |eauto].
  destruct (Hh e s1) as (e2 & Ht2 & Hp2).
  exists (e1 ++ e2). rewrite Ht2, Ht1, <- app_assoc.
  split; [reflexivity|]. apply Forall_app. split; assumption.
Qed.

Lemma Emits_await {A} (call : World -> World * Resp A) ev :
  (forall r, P (ev r)) -> Emits P (await call ev).
Proof.
  intros Hev s. unfold await. destruct (call (world s)) as [w' r].
  exists [ev r].
  destruct r; cbn [snd trace]; (split; [reflexivity|]);
    constructor; [apply Hev|constructor|apply Hev|constructor].
Qed.

Lemma Emits_axios {A} (call : World -> option string -> World * Resp A) ev :
  (forall tok r, P (ev tok r)) -> Emits P (axios call ev).
Proof. intros Hev s. unfold axios. apply Emits_await. apply Hev. Qed.

Lemma Emits_for_of {A S} (l : list A) (body : A -> S -> M World S) acc :
  (forall x a, Emits P (body x a)) -> Emits P (for_of l body acc).
Proof.
  intros Hb. revert acc.
  induction l as [|x rest IH]; intros acc; simpl.
  - apply Emits_ret.
  - apply Emits_bind; [apply Hb|]. intros a. apply IH.
Qed.

End EmitsFacts.

Lemma Emits_weaken {World A} (P Q : Event -> Prop) (m : M World A) :
  (forall ev, P ev -> Q ev) -> Emits P m -> Emits Q m.
Proof.
  intros HPQ Hm s. destruct (Hm s) as (ext & Ht & Hp).
  exists ext. split; [exact Ht|].
  clear Ht. induction Hp as [|ev l Hev _ IH];
    [constructor|constructor; [apply HPQ; exact Hev|exact IH]].
Qed.

Create HintDb emits.
#[export] Hint Resolve Emits_ret Emits_throw Emits_out_of_fuel
  Emits_console_log Emits_console_error Emits_bind Emits_try_catch
  Emits_for_of : emits.

(** ** The remote client and the prober, for any service *)

Section ProberExtras.
Context {World : Type} (svc : Service World).
Implicit Types s : St World.

Lemma Emits_attemptQuizApi quizId questionId userAnswer :
  Emits (probe_event quizId questionId)
        (attemptQuizApi svc quizId questionId userAnswer).
Proof.
  unfold attemptQuizApi, getScore. apply Emits_try_catch.
  - apply Emits_bind.
    + apply Emits_axios. intros tok r. split; reflexivity.
    + intros _. apply Emits_try_catch.
      * apply Emits_axios. intros tok r. reflexivity.
      * intros e. auto with emits.
  - intros e. auto with emits.
Qed.

Lemma Emits_attemptQuiz_while fuel : forall quizId questionId currentScore
    score0 i captured,
  Emits (probe_event quizId questionId)
        (attemptQuiz_while svc fuel quizId questionId currentScore score0 i
           captured).
Proof.
  induction fuel as [|fuel IH];
    intros quizId questionId currentScore score0 i captured; simpl.
  - destruct (score0 =? currentScore + 1); auto with emits.
  - destruct (score0 =? currentScore + 1); [auto with emits|].
    apply Emits_bind.
    + apply Emits_try_catch.
      * apply Emits_bind; [apply Emits_attemptQuizApi|].
        intros sc'. destruct (sc' =? currentScore + 1); auto with emits.
      * intros e. auto with emits.
    + intros [sc' co'|]; [apply IH|auto with emits].
Qed.

(** The passes of the loop submit [options[i]], [options[i+1]], ... once
    each, in this order, at most one per unit of fuel. *)
Lemma while_submits_in_order fuel : forall quizId questionId currentScore
    score0 i captured s,
  exists n,
    (n <= fuel)%nat /\
    submitted (trace (snd (attemptQuiz_while svc fuel quizId questionId
                             currentScore score0 i captured s)))
    = submitted (trace s) ++ candidates i n /\
    (fst (attemptQuiz_while svc fuel quizId questionId currentScore score0 i
            captured s) = OutOfFuel -> n = fuel).
Proof.
  induction fuel as [|fuel IH];
    intros quizId questionId currentScore score0 i captured s.
  - exists 0%nat. simpl.
    destruct (score0 =? currentScore + 1); simpl; rewrite app_nil_r;
      repeat split; try lia; discriminate.
  - destruct (Z.eq_dec score0 (currentScore + 1)) as [->|Hsc].
    { exists 0%nat. rewrite while_exit. simpl. rewrite app_nil_r.
      repeat split; try lia; discriminate. }
    pose proof (attemptQuizApi_submitted svc quizId questionId (options !! i) s)
      as Hsub.
    destruct (attemptQuizApi svc quizId questionId (options !! i) s)
      as [[sc'|e|] s1] eqn:Hapi; cbn [snd] in Hsub.
    + destruct (Z.eq_dec sc' (currentScore + 1)) as [->|Hne].
      * exists 1%nat.
        rewrite (while_pass_lock svc fuel _ _ _ _ _ captured _ _ Hsc Hapi).
        cbn [fst snd]. rewrite trace_logged, Hsub.
        repeat split; try lia; discriminate.
      * rewrite (while_pass_continue svc fuel _ _ _ _ _ captured _ _ _
                   Hsc Hapi Hne).
        destruct (IH quizId questionId currentScore sc' (S i) captured s1)
          as (n & Hn & Htr & Hout).
        exists (S n). split; [lia|]. split.
        -- rewrite Htr, Hsub, candidates_S, <- app_assoc. reflexivity.
        -- intros H. f_equal. apply Hout. exact H.
    + exists 1%nat.
      rewrite (while_pass_fail svc fuel _ _ _ _ _ captured _ _ _ Hsc Hapi).
      cbn [fst snd]. rewrite trace_logged, Hsub.
      repeat split; try lia; discriminate.
    + exfalso. apply (Settles_attemptQuizApi svc quizId questionId
                        (options !! i) s). now rewrite Hapi.
Qed.

(** Entered with a score other than [currentScore + 1] and nothing
    captured, the loop returns something captured exactly when it returns
    the score [currentScore + 1]. *)
Lemma while_captures_iff_increment fuel : forall quizId questionId
    currentScore score0 i s result s',
  score0 <> currentScore + 1 ->
  attemptQuiz_while svc fuel quizId questionId currentScore score0 i JsNull s
  = (Val result, s') ->
  (correctOption result = JsNull <-> score result <> currentScore + 1).
Proof.
  induction fuel as [|fuel IH];
    intros quizId questionId currentScore score0 i s result s' Hsc Hrun.
  - simpl in Hrun. apply Z.eqb_neq in Hsc. rewrite Hsc in Hrun.
    discriminate Hrun.
  - destruct (attemptQuizApi svc quizId questionId (options !! i) s)
      as [[sc'|e|] s1] eqn:Hapi.
    + destruct (Z.eq_dec sc' (currentScore + 1)) as [->|Hne].
      * rewrite (while_pass_lock svc fuel _ _ _ _ _ JsNull _ _ Hsc Hapi)
          in Hrun.
        inversion Hrun; subst result s'. cbn [score correctOption].
        split; [|intros H; exfalso; apply H; reflexivity].
        destruct (options !! i); discriminate.
      * rewrite (while_pass_continue svc fuel _ _ _ _ _ JsNull _ _ _
                   Hsc Hapi Hne) in Hrun.
        eapply IH; eassumption.
    + rewrite (while_pass_fail svc fuel _ _ _ _ _ JsNull _ _ _ Hsc Hapi)
        in Hrun.
      inversion Hrun; subst result s'. cbn [score correctOption].
      split; [intros _; exact Hsc|reflexivity].
    + exfalso. apply (Settles_attemptQuizApi svc quizId questionId
                        (options !! i) s). now rewrite Hapi.
Qed.

End ProberExtras.

(** X1: the prober never throws: whatever the service does, a probe returns
    a result or is still looping when its fuel ends; a failed submission
    never escapes as an exception. *)
Theorem attemptQuiz_never_throws :
  forall (World : Type) (svc : Service World) (fuel : nat)
         (quizId questionId currentScore : Z) (s : St World) (e : Err),
    fst (attemptQuiz svc fuel quizId questionId currentScore s) <> Throw e.
Proof.
  intros. apply attemptQuiz_while_no_throw.
Qed.

(** X2: whatever the service answers, the options a probe submits are
    [options[0]], [options[1]], ..., [options[n-1]] for some [n] not above
    the number of passes allowed: each candidate is submitted once, in the
    order of the array, none is skipped or repeated; a probe that is still
    looping has used every pass. *)
Theorem attemptQuiz_submits_in_order :
  forall (World : Type) (svc : Service World) (fuel : nat)
         (quizId questionId currentScore : Z) (s : St World),
    let run := attemptQuiz svc fuel quizId questionId currentScore s in
    exists n : nat,
      (n <= fuel)%nat /\
      submitted (trace (snd run)) = submitted (trace s) ++ candidates 0 n /\
      (fst run = OutOfFuel -> n = fuel).
Proof.
  intros. apply while_submits_in_order.
Qed.

(** X3: a probe that returns has captured an option ([correctOption] is not
    [null]) exactly when the score it returns is [currentScore + 1]. *)
Theorem attemptQuiz_captures_iff_increment :
  forall (World : Type) (svc : Service World) (fuel : nat)
         (quizId questionId currentScore : Z) (s s' : St World)
         (result : ProbeResult),
    attemptQuiz svc fuel quizId questionId currentScore s
    = (Val result, s') ->
    (correctOption result = JsNull <-> score result <> currentScore + 1).
Proof.
  intros World svc fuel quizId questionId currentScore s s' result Hrun.
  eapply while_captures_iff_increment; [|exact Hrun]. lia.
Qed.

Lemma attemptQuiz_captures_iff_increment_witness :
  JsStr "d" = JsNull <-> 1 <> 0 + 1.
Proof.
  apply (attemptQuiz_captures_iff_increment Script scripted 4 77 901 0
           (start script_d (Some "token"))
           (snd (attemptQuiz scripted 4 77 901 0
                   (start script_d (Some "token"))))
           (mkProbeResult 1 (JsStr "d"))).
  reflexivity.
Defined.

(** X4: a probe only saves answers to its own question of its own quiz and
    reads back the score of that quiz: it creates no quiz, lists no topics,
    queries no result and writes no file. *)
Theorem attemptQuiz_only_probes :
  forall (World : Type) (svc : Service World) (fuel : nat)
         (quizId questionId currentScore : Z) (s : St World),
  exists ext,
    trace (snd (attemptQuiz svc fuel quizId questionId currentScore s))
    = trace s ++ ext /\
    Forall (probe_event quizId questionId) ext.
Proof.
  intros. apply Emits_attemptQuiz_while.
Qed.

(** X5: one submission through [attemptQuizApi]: the score is read back
    only after the answer was saved; a returned score is the one read back,
    with nothing logged; a failure of either request is rethrown as it is
    and logged by [attemptQuizApi] as the last console entry. *)
Theorem attemptQuizApi_outcomes :
  forall (World : Type) (svc : Service World) (quizId questionId : Z)
         (userAnswer : option string) (s : St World),
    let run := attemptQuizApi svc quizId questionId userAnswer s in
    let tok := ACCESS_TOKEN s in
    (forall e,
        snd (save_user_quiz_answer svc (world s) tok quizId questionId
               userAnswer) = Fail e ->
        fst run = Throw e /\
        trace (snd run)
        = trace s ++ [EvSaveAnswer tok quizId questionId userAnswer (Fail e)])
    /\
    (forall sc,
        fst run = Val sc ->
        console (snd run) = console s /\
        trace (snd run)
        = trace s ++ [EvSaveAnswer tok quizId questionId userAnswer (Ok tt);
                      EvSubmitQuiz tok quizId (Ok sc)]) /\
    (forall e,
        fst run = Throw e ->
        (exists before ev,
            trace (snd run) = before ++ [ev] /\ failed_with e ev) /\
        exists c,
          console (snd run)
          = c ++ [LogError ("Error attempting quiz " +:+ pretty quizId
                            +:+ ", question " +:+ pretty questionId +:+ ":")
                           e]).
Proof.
  intros World svc quizId questionId userAnswer s. cbv zeta.
  pose proof (attemptQuizApi_cases svc quizId questionId userAnswer s) as H.
  cbv zeta in H.
  destruct (save_user_quiz_answer svc (world s) (ACCESS_TOKEN s) quizId
              questionId userAnswer) as [w1 [[]|e1]].
  - destruct (submit_quiz svc w1 (ACCESS_TOKEN s) quizId) as [w2 [sc1|e2]];
      rewrite H; cbn [fst snd trace console].
    + split; [intros e He; discriminate He|].
      split; [|intros e He; discriminate He].
      intros sc Hsc. inversion Hsc; subst sc.
      split; [reflexivity|]. rewrite <- app_assoc. reflexivity.
    + split; [intros e He; discriminate He|].
      split; [intros sc Hsc; discriminate Hsc|].
      intros e He. inversion He; subst e.
      split; [eexists _, _; split; reflexivity|eexists; reflexivity].
  - rewrite H; cbn [fst snd trace console].
    split; [intros e He; inversion He; subst e; split; reflexivity|].
    split; [intros sc Hsc; discriminate Hsc|].
    intros e He. inversion He; subst e.
    split; [eexists _, _; split; reflexivity|eexists; reflexivity].
Qed.

(** ** File names *)

Lemma sanitize_char_is_file_char (c : ascii) :
  is_file_char (to_lower (if is_alnum c then c else "_"%char)) = true.
Proof. destruct c as [[] [] [] [] [] [] [] []]; reflexivity. Qed.

Lemma sanitize_char_fixed (c : ascii) :
  is_file_char c = true ->
  to_lower (if is_alnum c then c else "_"%char) = c.
Proof. destruct c as [[] [] [] [] [] [] [] []]; intros H; try reflexivity;
         discriminate H. Qed.

Lemma sanitize_cons (c : ascii) (name : string) :
  sanitize (String c name)
  = String (to_lower (if is_alnum c then c else "_"%char)) (sanitize name).
Proof. reflexivity. Qed.

Lemma sanitize_chars (name : string) :
  string_forallb is_file_char (sanitize name) = true.
Proof.
  induction name as [|c name IH]; [reflexivity|].
  rewrite sanitize_cons. cbn [string_forallb].
  rewrite IH, sanitize_char_is_file_char. reflexivity.
Qed.

Lemma sanitize_fixed (name : string) :
  string_forallb is_file_char name = true -> sanitize name = name.
Proof.
  induction name as [|c name IH]; [reflexivity|].
  cbn [string_forallb]. intros H. apply andb_prop in H as [Hc Hrest].
  rewrite sanitize_cons, (sanitize_char_fixed c Hc), (IH Hrest).
  reflexivity.
Qed.

(** X6: the name the runner gives its report file is made from the topic
    name character by character: it has the topic name's length and holds
    only lower-case letters, digits and underscores, so it never holds a
    path separator, a dot or a space. *)
Theorem sanitize_is_a_file_name :
  forall name : string,
    String.length (sanitize name) = String.length name /\
    string_forallb is_file_char (sanitize name) = true.
Proof.
  intros name. split; [|apply sanitize_chars].
  induction name as [|c name IH]; [reflexivity|].
  rewrite sanitize_cons. cbn [String.length]. now rewrite IH.
Qed.

(** X7: sanitizing a sanitized name changes nothing: two topic names that
    sanitize to each other get the same file. *)
Theorem sanitize_idempotent :
  forall name : string, sanitize (sanitize name) = sanitize name.
Proof.
  intros name. apply sanitize_fixed. apply sanitize_chars.
Qed.

(** ** The quiz runner, for any service *)

Section RunnerExtras.
Context {World : Type} (svc : Service World).
Implicit Types s : St World.

Lemma bind_throw_inv {A B} (m : M World A) (k : A -> M World B) s e s' :
  bind m k s = (Throw e, s') ->
  m s = (Throw e, s') \/
  exists a s1, m s = (Val a, s1) /\ k a s1 = (Throw e, s').
Proof.
  unfold bind. destruct (m s) as [[a|e'|] s1]; intros H;
    [right; eauto|left; inversion H; subst; reflexivity|discriminate].
Qed.

Lemma await_throw_inv {A} (call : World -> World * Resp A) ev s e s' :
  await call ev s = (Throw e, s') ->
  exists w1,
    call (world s) = (w1, Fail e) /\
    s' = mkSt w1 (ACCESS_TOKEN s) (trace s ++ [ev (Fail e)]) (console s).
Proof.
  unfold await.
  destruct (call (world s)) as [w1 [a|e']]; intros H; [discriminate|].
  inversion H; subst. eauto.
Qed.

(** The loop over the questions never throws. *)
Lemma questions_never_throw fuel quiz_Id questions : forall vars s e,
  fst (for_of questions (question_body svc fuel quiz_Id) vars s) <> Throw e.
Proof.
  induction questions as [|question rest IH]; intros [cs content] s e.
  - discriminate.
  - cbn [for_of]. unfold bind at 1. rewrite question_body_eq.
    unfold bind at 1.
    pose proof (attemptQuiz_while_no_throw svc fuel quiz_Id
                  (Question.questionId question) cs cs 0 JsNull s) as Hno.
    fold (attemptQuiz svc fuel quiz_Id (Question.questionId question) cs s)
      in Hno.
    destruct (attemptQuiz svc fuel quiz_Id (Question.questionId question)
                cs s) as [[result|e'|] s1]; cbn [fst] in *.
    + unfold ret. apply IH.
    + exfalso. apply (Hno e'). reflexivity.
    + discriminate.
Qed.

Lemma Emits_question_body fuel quiz_Id question vars :
  Emits probing (question_body svc fuel quiz_Id question vars).
Proof.
  destruct vars as [cs content]. unfold question_body.
  apply Emits_bind.
  - apply (Emits_weaken (probe_event quiz_Id (Question.questionId question))).
    + intros [] H; simpl in *; tauto.
    + apply Emits_attemptQuiz_while.
  - intros result. apply Emits_ret.
Qed.

Lemma Emits_questions_loop fuel quiz_Id questions :
  Emits probing (questions_loop svc fuel quiz_Id questions).
Proof.
  unfold questions_loop. apply Emits_for_of.
  intros. apply Emits_question_body.
Qed.

Lemma last_readback_none (ext : list Event) (dflt : Z) :
  Forall (fun ev => is_readback ev = false) ext ->
  last_readback ext dflt = dflt.
Proof.
  induction 1 as [|ev ext Hev _ IH]; [reflexivity|].
  destruct ev as [| ? ? [sc|e] | | | |]; simpl in *; try exact IH;
    discriminate Hev.
Qed.

End RunnerExtras.

(** X11: on a created quiz of the shape the runner reads (a list of
    questions, each with an [options] object) and for a topic name that is
    a string, the runner throws only because the creation of the quiz or
    the writing of the report failed, and then throws that failure: the
    last call it issued is the failed creation or the failed write.  No
    failure of a submission or of a score readback makes the runner fail.
    (On a payload of another shape the source raises a [TypeError] while
    building the report; such payloads are outside [Payload.t].) *)
Theorem attemptOneQuiz_throws_only_on_create_or_write :
  forall (World : Type) (svc : Service World) (fuel : nat) (quizId : Z)
         (topicName : string) (s s' : St World) (e : Err),
    attemptOneQuiz svc fuel quizId topicName s = (Throw e, s') ->
    exists before ev,
      trace s' = before ++ [ev] /\
      failed_with e ev /\
      (is_create ev = true \/ is_write ev = true).
Proof.
  intros World svc fuel quizId topicName s s' e Hrun.
  unfold attemptOneQuiz in Hrun. rewrite try_catch_bind_axios in Hrun.
  destruct (create_quiz svc (world s) (ACCESS_TOKEN s) quizId)
    as [w1 [data|e1]]; cbv zeta in Hrun.
  - unfold try_catch in Hrun.
    match type of Hrun with
    | context [match ?m ?s1 with _ => _ end] =>
        destruct (m s1) as [[r|e'|] s2] eqn:Hrest
    end; [discriminate Hrun| |discriminate Hrun].
    unfold bind, console_log, throw in Hrun. inversion Hrun; subst e' s'.
    clear Hrun. cbn [trace].
    apply bind_throw_inv in Hrest as [Hloop|([cs content] & s3 & _ & Hrest)].
    + exfalso. unfold questions_loop in Hloop.
      match type of Hloop with
      | for_of _ _ _ ?st = _ =>
          apply (questions_never_throw svc fuel (Payload.quizId data)
                   (Payload.questions data) (0, "") st e)
      end.
      rewrite Hloop. reflexivity.
    + apply bind_throw_inv in Hrest as [Hwrite|(u & s4 & _ & Hlog)].
      * apply await_throw_inv in Hwrite as (w4 & _ & ->). cbn [trace].
        eexists _, _. split; [reflexivity|]. split; [reflexivity|].
        right. reflexivity.
      * unfold bind, console_log, ret in Hlog. discriminate Hlog.
  - unfold bind, console_log, throw in Hrun. inversion Hrun; subst e1 s'.
    cbn [trace]. eexists _, _. split; [reflexivity|].
    split; [reflexivity|]. left. reflexivity.
Qed.

Lemma attemptOneQuiz_throws_only_on_create_or_write_witness :
  exists before ev,
    trace (snd (attemptOneQuiz scripted 3 5 "Intro RL"
                  (start script_disk_full (Some "token"))))
    = before ++ [ev] /\
    failed_with (mkErr "Error" "ENOSPC: no space left on device") ev /\
    (is_create ev = true \/ is_write ev = true).
Proof.
  apply (attemptOneQuiz_throws_only_on_create_or_write Script scripted 3 5
           "Intro RL" (start script_disk_full (Some "token"))).
  reflexivity.
Defined.

(** X12: when the runner returns, the quiz id it returns is the one of the
    created attempt (not the topic id it was called with), its final score
    is the last score read back during the quiz (0 when nothing was read
    back), and it wrote exactly one file, as its last call. *)
Theorem attemptOneQuiz_result :
  forall (World : Type) (svc : Service World) (fuel : nat) (topic : Z)
         (topicName : string) (s s' : St World) (result : RunResult),
    attemptOneQuiz svc fuel topic topicName s = (Val result, s') ->
    exists (data : Payload.t) (ext : list Event) (content : string),
      snd (create_quiz svc (world s) (ACCESS_TOKEN s) topic) = Ok data /\
      quizId result = Payload.quizId data /\
      trace s'
      = trace s ++ ext
          ++ [EvWriteFile (sanitize topicName +:+ ".txt") content (Ok tt)] /\
      finalScore result = last_readback ext 0 /\
      count_events is_write ext = 0%nat.
Proof.
  intros World svc fuel topic topicName s s' result Hrun.
  unfold attemptOneQuiz in Hrun.
  apply try_catch_val_inv in Hrun as [Hrun|(e & s1 & _ & Hh)];
    [|exfalso; eapply rethrow_not_val; exact Hh].
  apply bind_val_inv in Hrun as (data & s1 & Hcreate & Hrun).
  apply axios_val_inv in Hcreate as (w1 & Hcreate & ->).
  cbv zeta in Hrun.
  apply bind_val_inv in Hrun as ([currentScore content] & s2 & Hloop & Hrun).
  apply bind_val_inv in Hrun as ([] & s3 & Hwrite & Hrun).
  apply await_val_inv in Hwrite as (w3 & Hwrite & ->).
  apply bind_val_inv in Hrun as (u & s4 & Hlog & Hret).
  unfold console_log in Hlog. inversion Hlog; subst s4. clear Hlog.
  unfold ret in Hret. inversion Hret; subst s' result. clear Hret.
  match type of Hloop with
  | questions_loop _ _ _ _ ?st = _ =>
      destruct (Emits_questions_loop svc fuel (Payload.quizId data)
                  (Payload.questions data) st) as (ext & Hext & Hprobing)
  end.
  rewrite Hloop in Hext. cbn [snd trace] in Hext.
  unfold questions_loop in Hloop.
  destruct (questions_from svc fuel (Payload.quizId data)
              (Payload.questions data) 0 "" _ currentScore content s2 Hloop)
    as [(ext' & Hext' & Hscore) _].
  cbn [trace] in Hext'. rewrite Hext in Hext'.
  apply app_inv_head in Hext'. subst ext'.
  exists data, ([EvCreateQuiz (ACCESS_TOKEN s) topic (Ok data)] ++ ext),
    content.
  split; [now rewrite Hcreate|]. split; [reflexivity|].
  split; [cbn [trace]; rewrite Hext, <- !app_assoc; reflexivity|].
  split.
  - cbn [finalScore]. rewrite last_readback_app. exact Hscore.
  - rewrite count_events_app.
    rewrite (count_events_none is_write ext); [reflexivity|].
    clear Hext Hscore.
    induction Hprobing as [|ev l Hev _ IH]; constructor; [|exact IH].
    destruct ev; simpl in Hev; try contradiction; reflexivity.
Qed.

Lemma attemptOneQuiz_result_witness :
  exists (ext : list Event) (content : string),
    trace (snd (attemptOneQuiz scripted 10 5 "Intro RL"
                  (start script_two_questions (Some "token"))))
    = ext ++ [EvWriteFile "intro_rl.txt" content (Ok tt)] /\
    1 = last_readback ext 0.
Proof.
  destruct (attemptOneQuiz_result Script scripted 10 5 "Intro RL"
              (start script_two_questions (Some "token"))
              (snd (attemptOneQuiz scripted 10 5 "Intro RL"
                      (start script_two_questions (Some "token"))))
              (mkRunResult 77 1))
    as (data & ext & content & _ & _ & Htrace & Hscore & _).
  - vm_compute. reflexivity.
  - exists ext, content. split; [exact Htrace|exact Hscore].
Defined.

Section RejectedAnswers.
Context {World : Type} (svc : Service World).
Hypothesis Hrejects : rejects_every_answer svc.
Implicit Types s : St World.

(** On such a service a probe makes one pass: option [a] is refused, the
    probe gives up with nothing captured and the score it was given. *)
Lemma probe_rejected fuel quizId questionId currentScore s :
  exists s',
    attemptQuiz svc (S fuel) quizId questionId currentScore s
    = (Val (mkProbeResult currentScore JsNull), s') /\
    submitted (trace s') = submitted (trace s) ++ [Some "a"] /\
    count_events is_readback (trace s') = count_events is_readback (trace s).
Proof.
  destruct (Hrejects (world s) (ACCESS_TOKEN s) quizId questionId (Some "a"))
    as (e & Hsave).
  pose proof (attemptQuizApi_cases svc quizId questionId (Some "a") s) as Hapi.
  cbv zeta in Hapi.
  destruct (save_user_quiz_answer svc (world s) (ACCESS_TOKEN s) quizId
              questionId (Some "a")) as [w1 r].
  simpl in Hsave. subst r.
  assert (currentScore <> currentScore + 1) as Hcs by lia.
  eexists. split.
  - unfold attemptQuiz.
    eapply (while_pass_fail svc fuel quizId questionId currentScore
              currentScore 0 JsNull s e); [exact Hcs|exact Hapi].
  - rewrite trace_logged. cbn [trace].
    rewrite submitted_app, count_events_app.
    split; [reflexivity|]. unfold count_events. simpl. lia.
Qed.

Lemma questions_rejected fuel quiz_Id questions : forall currentScore content s,
  exists s',
    for_of questions (question_body svc (S fuel) quiz_Id)
           (currentScore, content) s
    = (Val (currentScore,
            content +:+ render_report (map not_locked_block questions)), s')
    /\
    submitted (trace s')
    = submitted (trace s) ++ map (fun _ => Some "a") questions /\
    count_events is_readback (trace s') = count_events is_readback (trace s).
Proof.
  induction questions as [|question rest IH]; intros currentScore content s.
  - exists s. simpl. rewrite append_empty_r, app_nil_r. repeat split.
  - destruct (probe_rejected fuel quiz_Id (Question.questionId question)
                currentScore s) as (s1 & Hprobe & Hsub1 & Hcount1).
    destruct (IH currentScore
                (content +:+ render_block (not_locked_block question)) s1)
      as (s2 & Hrest & Hsub2 & Hcount2).
    exists s2. split.
    + cbn [for_of]. unfold bind at 1. rewrite question_body_eq.
      unfold bind at 1. rewrite Hprobe. unfold ret.
      change (block_of question (mkProbeResult currentScore JsNull))
        with (not_locked_block question).
      cbn [score]. rewrite Hrest. cbn [map].
      change (render_report (not_locked_block question
                               :: map not_locked_block rest))
        with (render_block (not_locked_block question)
                +:+ render_report (map not_locked_block rest)).
      rewrite append_assoc. reflexivity.
    + rewrite Hsub2, Hsub1, Hcount2, Hcount1, <- app_assoc.
      split; reflexivity.
Qed.

End RejectedAnswers.

(** X15: when the service refuses every answer, each question of a quiz
    costs exactly one submission, of option [a], and no score readback; the
    loop over the questions still completes, with the score 0 and a report
    of one "Not locked" block per question. *)
Theorem rejected_answers_are_reported_not_locked :
  forall (World : Type) (svc : Service World) (fuel : nat) (quiz_Id : Z)
         (questions : list Question.t) (s : St World),
    rejects_every_answer svc ->
    (1 <= fuel)%nat ->
    let run := questions_loop svc fuel quiz_Id questions s in
    fst run = Val (0, render_report (map not_locked_block questions)) /\
    submitted (trace (snd run))
    = submitted (trace s) ++ map (fun _ => Some "a") questions /\
    count_events is_readback (trace (snd run))
    = count_events is_readback (trace s).
Proof.
  intros World svc fuel quiz_Id questions s Hrejects Hfuel. cbv zeta.
  destruct fuel as [|fuel]; [lia|].
  destruct (questions_rejected svc Hrejects fuel quiz_Id questions 0 "" s)
    as (s' & Hrun & Hsub & Hcount).
  unfold questions_loop. rewrite Hrun. cbn [fst snd].
  split; [reflexivity|]. split; assumption.
Qed.

Lemma rejected_answers_are_reported_not_locked_witness :
  let run :=
    questions_loop (offline_answers two_questions) 1 77
                   [first_question; second_question] (start tt None) in
  fst run
  = Val (0, render_report [not_locked_block first_question;
                           not_locked_block second_question]) /\
  submitted (trace (snd run)) = [Some "a"; Some "a"].
Proof.
  cbv zeta.
  destruct (rejected_answers_are_reported_not_locked unit
              (offline_answers two_questions) 1 77
              [first_question; second_question] (start tt None))
    as (Hres & Hsub & _).
  - intros w tok quizId questionId userAnswer. exists unavailable.
    reflexivity.
  - lia.
  - split; [exact Hres|exact Hsub].
Defined.

(** ** The handler, for any service *)

Lemma split_space_nonempty (s : string) : split_space s <> [].
Proof.
  destruct s as [|c rest]; simpl; [discriminate|].
  destruct (Ascii.eqb c " "); [discriminate|].
  destruct (split_space rest); discriminate.
Qed.

(** The pieces [split(' ')] returns, joined by spaces, are the string. *)
Lemma join_split_space (s : string) : join_space (split_space s) = s.
Proof.
  induction s as [|c rest IH]; [reflexivity|].
  simpl split_space.
  pose proof (split_space_nonempty rest) as Hne.
  destruct (Ascii.eqb c " ") eqn:Hc.
  - apply Ascii.eqb_eq in Hc. subst c.
    destruct (split_space rest) as [|h t]; [congruence|].
    change (join_space ("" :: h :: t)) with ("" +:+ " " +:+ join_space (h :: t)).
    rewrite IH. reflexivity.
  - destruct (split_space rest) as [|h t]; [congruence|].
    destruct t as [|h' t].
    + simpl in IH |- *. now rewrite IH.
    + change (join_space (String c h :: h' :: t))
        with (String c h +:+ " " +:+ join_space (h' :: t)).
      change (join_space (h :: h' :: t))
        with (h +:+ " " +:+ join_space (h' :: t)) in IH.
      rewrite append_cons, IH. reflexivity.
Qed.

(** No piece holds a space. *)
Lemma split_space_no_space (s : string) :
  Forall (fun piece => no_space piece = true) (split_space s).
Proof.
  induction s as [|c rest IH]; [repeat constructor|].
  simpl split_space.
  destruct (Ascii.eqb c " ") eqn:Hc.
  - constructor; [reflexivity|exact IH].
  - destruct (split_space rest) as [|h t].
    + constructor; [|constructor]. unfold no_space. simpl. now rewrite Hc.
    + constructor; [|exact (Forall_inv_tail IH)].
      pose proof (Forall_inv IH) as Hh. unfold no_space in *. simpl.
      now rewrite Hc, Hh.
Qed.

Lemma listed_app (t1 t2 : list Event) :
  listed (t1 ++ t2) = listed t1 ++ listed t2.
Proof.
  induction t1 as [|ev t1 IH]; simpl; [reflexivity|].
  destruct ev; simpl; rewrite IH; reflexivity.
Qed.

Lemma listed_none (ext : list Event) : Forall not_listing ext -> listed ext = [].
Proof.
  induction 1 as [|ev ext Hev _ IH]; [reflexivity|].
  destruct ev; simpl in *; try exact IH. contradiction.
Qed.

Lemma not_falsy_inv (v : option string) :
  falsy v = false -> exists s, v = Some s /\ s <> "".
Proof.
  destruct v as [s|]; simpl; [|discriminate].
  intros H. exists s. split; [reflexivity|].
  now apply bool_decide_eq_false in H.
Qed.

Section HandlerFootprint.
Context {World : Type} (svc : Service World) (P : Event -> Prop).
Hypothesis Hprobing : forall ev, probing ev -> P ev.
Hypothesis Hcreate : forall tok quiz r, P (EvCreateQuiz tok quiz r).
Hypothesis Hwrite : forall file content r, P (EvWriteFile file content r).
Hypothesis Hresult : forall tok topic r, P (EvQuizResult tok topic r).
Implicit Types s : St World.

Lemma Emits_attemptOneQuiz fuel quizId topicName :
  Emits P (attemptOneQuiz svc fuel quizId topicName).
Proof.
  unfold attemptOneQuiz. apply Emits_try_catch.
  - apply Emits_bind; [apply Emits_axios; intros; apply Hcreate|].
    intros data. cbv zeta. apply Emits_bind.
    + apply (Emits_weaken probing); [exact Hprobing|].
      apply Emits_questions_loop.
    + intros [currentScore content].
      apply Emits_bind; [apply Emits_await; intros; apply Hwrite|].
      intros _. auto with emits.
  - intros e. auto with emits.
Qed.

Lemma Emits_resultQuiz topicId : Emits P (resultQuiz svc topicId).
Proof.
  unfold resultQuiz. apply Emits_try_catch.
  - apply Emits_bind; [apply Emits_axios; intros; apply Hresult|].
    intros badge. apply Emits_ret.
  - intros e. auto with emits.
Qed.

Lemma Emits_topic_body fuel topic u : Emits P (topic_body svc fuel topic u).
Proof.
  unfold topic_body. apply Emits_bind; [apply Emits_resultQuiz|].
  intros [|]; [apply Emits_console_log|].
  apply Emits_bind; [apply Emits_console_log|]. intros _.
  apply Emits_bind; [apply Emits_attemptOneQuiz|]. intros _.
  auto with emits.
Qed.

End HandlerFootprint.

Section UnitsInOrder.
Context {World : Type} (svc : Service World).
Implicit Types s : St World.

(** The body of the loop over the units lists its unit once, first. *)
Lemma unit_body_listed_once fuel unit s :
  listed (trace (snd (unit_body svc fuel unit tt s)))
  = listed (trace s) ++ [unit].
Proof.
  unfold unit_body, getUnitTopics.
  unfold bind at 1. rewrite try_catch_bind_axios.
  destruct (get_topics_unit svc (world s) (ACCESS_TOKEN s) unit)
    as [w1 [topics|e]]; cbv zeta.
  - unfold try_catch, ret at 1.
    match goal with
    | |- context [(?k ;; ?k2) ?s1] =>
        assert (Emits not_listing (k ;; k2)) as Hrest
    end.
    { apply Emits_bind.
      - apply Emits_for_of. intros. apply Emits_console_log.
      - intros _. apply Emits_for_of. intros topic u.
        apply Emits_topic_body; intros; try exact I.
        destruct ev; simpl in *; tauto. }
    match goal with
    | |- context [(?k ;; ?k2) ?s1] => destruct (Hrest s1) as (ext & Hext & Hno)
    end.
    rewrite Hext. cbn [trace].
    rewrite !listed_app, (listed_none ext Hno), app_nil_r. reflexivity.
  - unfold bind, console_log, throw. cbn [snd trace].
    rewrite listed_app. reflexivity.
Qed.

(** The loop over the units lists a prefix of them, in order; all of them
    when it completes. *)
Lemma units_listed_in_order fuel (units : list string) : forall s,
  exists n : nat,
    listed (trace (snd (for_of units (unit_body svc fuel) tt s)))
    = listed (trace s) ++ take n units /\
    (forall u, fst (for_of units (unit_body svc fuel) tt s) = Val u ->
               take n units = units).
Proof.
  induction units as [|unit rest IH]; intros s.
  - exists 0%nat. simpl. rewrite app_nil_r. split; reflexivity.
  - pose proof (unit_body_listed_once fuel unit s) as Hunit.
    cbn [for_of]. unfold bind at 1 2.
    destruct (unit_body svc fuel unit tt s) as [[[]|e|] s1]; cbn [snd fst] in *.
    + destruct (IH s1) as (n & Hn & Hall).
      exists (S n). cbn [take]. split.
      * rewrite Hn, Hunit, <- app_assoc. reflexivity.
      * intros u Hu. f_equal. eapply Hall. exact Hu.
    + exists 1%nat. cbn [take]. rewrite take_0.
      split; [exact Hunit|discriminate].
    + exists 1%nat. cbn [take]. rewrite take_0.
      split; [exact Hunit|discriminate].
Qed.

End UnitsInOrder.



Section RunLevelFailures.
Context {World : Type} (svc : Service World).
Implicit Types s : St World.

Lemma unit_body_listing_failed fuel unit s w1 e :
  get_topics_unit svc (world s) (ACCESS_TOKEN s) unit = (w1, Fail e) ->
  unit_body svc fuel unit tt s
  = (Throw e,
     mkSt w1 (ACCESS_TOKEN s)
          (trace s ++ [EvTopicsUnit (ACCESS_TOKEN s) unit (Fail e)])
          (console s ++ [Log ("Error fetching topics for unit " +:+ unit
                              +:+ ": " +:+ Err_toString e)])).
Proof.
  intros H. unfold unit_body, getUnitTopics.
  unfold bind at 1. rewrite try_catch_bind_axios, H. reflexivity.
Qed.

Lemma topic_body_status_failed fuel topic s w1 e :
  quiz_result svc (world s) (ACCESS_TOKEN s) (topicId topic) = (w1, Fail e) ->
  topic_body svc fuel topic tt s
  = (Throw e,
     mkSt w1 (ACCESS_TOKEN s)
          (trace s ++ [EvQuizResult (ACCESS_TOKEN s) (topicId topic) (Fail e)])
          (console s ++ [Log ("Error fetching quiz result for topic "
                              +:+ pretty (topicId topic) +:+ ": "
                              +:+ Err_toString e)])).
Proof.
  intros H. unfold topic_body, resultQuiz.
  unfold bind at 1. rewrite try_catch_bind_axios, H. reflexivity.
Qed.

End RunLevelFailures.

(** X9: when the listing of a unit's topics fails, [getUnitTopics] logs the
    failure and rethrows it, and the request is answered 500 with the
    error's message: nothing is issued after the failed listing, so the
    units after it are not processed. *)
Theorem listing_failure_aborts_run :
  forall (World : Type) (svc : Service World) (fuel : nat)
         (tok unitIds : string) (s : St World)
         (units_before : list string) (unit : string)
         (units_after : list string) (s1 : St World) (w2 : World) (e : Err),
    tok <> "" -> unitIds <> "" ->
    split_space unitIds = units_before ++ unit :: units_after ->
    for_of units_before (unit_body svc fuel) tt (with_token (Some tok) s)
    = (Val tt, s1) ->
    get_topics_unit svc (world s1) (ACCESS_TOKEN s1) unit = (w2, Fail e) ->
    app_post svc fuel (mkReqBody (Some tok) (Some unitIds)) s
    = (Val (mkHttpResponse 500 (ErrorBody (emessage e))),
       mkSt w2 (ACCESS_TOKEN s1)
            (trace s1 ++ [EvTopicsUnit (ACCESS_TOKEN s1) unit (Fail e)])
            (console s1 ++ [Log ("Error fetching topics for unit " +:+ unit
                                 +:+ ": " +:+ Err_toString e)])).
Proof.
  intros World svc fuel tok unitIds s units_before unit units_after s1 w2 e
         Htok Hunit Hsplit Hbefore Hlist.
  assert (falsy (Some tok) = false) as Hf
      by (unfold falsy; now apply bool_decide_eq_false_2).
  rewrite (app_post_accepted svc fuel (mkReqBody (Some tok) (Some unitIds))
             unitIds s Hf eq_refl Hunit).
  rewrite Hsplit. cbn [accessToken].
  rewrite (for_of_throw units_before unit units_after (unit_body svc fuel)
             (with_token (Some tok) s) s1 e _ Hbefore
             (unit_body_listing_failed svc fuel unit s1 w2 e Hlist)).
  reflexivity.
Qed.

Lemma listing_failure_aborts_run_witness :
  app_post (steady_service 0) 1 (mkReqBody (Some "token") (Some "12 13"))
           (start tt None)
  = (Val (mkHttpResponse 500 (ErrorBody "Network Error")),
     mkSt tt (Some "token")
          [EvTopicsUnit (Some "token") "12" (Fail unavailable)]
          [Log "Error fetching topics for unit 12: AxiosError: Network Error"]).
Proof.
  apply (listing_failure_aborts_run unit (steady_service 0) 1 "token" "12 13"
           (start tt None) [] "12" ["13"]
           (with_token (Some "token") (start tt None)) tt unavailable);
    (discriminate || reflexivity).
Defined.

(** X10: when the status query of a topic fails, [resultQuiz] logs the
    failure and rethrows it, and the request is answered 500 with the
    error's message: the runner is not invoked for that topic and nothing is
    issued after the failed query. *)
Theorem status_failure_aborts_run :
  forall (World : Type) (svc : Service World) (fuel : nat)
         (tok unitIds : string) (s : St World)
         (units_before : list string) (unit : string)
         (units_after : list string)
         (s1 : St World) (w2 : World) (topics : list Topic.t)
         (topics_before : list TopicRef) (topic : TopicRef)
         (topics_after : list TopicRef)
         (s3 : St World) (w4 : World) (e : Err),
    tok <> "" -> unitIds <> "" ->
    split_space unitIds = units_before ++ unit :: units_after ->
    for_of units_before (unit_body svc fuel) tt (with_token (Some tok) s)
    = (Val tt, s1) ->
    get_topics_unit svc (world s1) (ACCESS_TOKEN s1) unit = (w2, Ok topics) ->
    eligible topics = topics_before ++ topic :: topics_after ->
    for_of topics_before (topic_body svc fuel) tt
           (names_logged (eligible topics)
              (mkSt w2 (ACCESS_TOKEN s1)
                    (trace s1 ++ [EvTopicsUnit (ACCESS_TOKEN s1) unit
                                               (Ok topics)])
                    (console s1)))
    = (Val tt, s3) ->
    quiz_result svc (world s3) (ACCESS_TOKEN s3) (topicId topic)
    = (w4, Fail e) ->
    app_post svc fuel (mkReqBody (Some tok) (Some unitIds)) s
    = (Val (mkHttpResponse 500 (ErrorBody (emessage e))),
       mkSt w4 (ACCESS_TOKEN s3)
            (trace s3 ++ [EvQuizResult (ACCESS_TOKEN s3) (topicId topic)
                                       (Fail e)])
            (console s3 ++ [Log ("Error fetching quiz result for topic "
                                 +:+ pretty (topicId topic) +:+ ": "
                                 +:+ Err_toString e)])).
Proof.
  intros World svc fuel tok unitIds s units_before unit units_after s1 w2
         topics topics_before topic topics_after s3 w4 e
         Htok Hunit Hsplit Hbefore Hlist Helig Htopics Hstatus.
  assert (falsy (Some tok) = false) as Hf
      by (unfold falsy; now apply bool_decide_eq_false_2).
  rewrite (app_post_accepted svc fuel (mkReqBody (Some tok) (Some unitIds))
             unitIds s Hf eq_refl Hunit).
  rewrite Hsplit. cbn [accessToken].
  erewrite (for_of_throw units_before unit units_after (unit_body svc fuel)
              (with_token (Some tok) s) s1 e _ Hbefore); [reflexivity|].
  rewrite (unit_body_listed svc fuel unit s1 w2 topics Hlist).
  rewrite Helig at 1.
  apply (for_of_throw topics_before topic topics_after (topic_body svc fuel)
           _ s3 e _ Htopics).
  apply (topic_body_status_failed svc fuel topic s3 w4 e Hstatus).
Qed.

Lemma status_failure_aborts_run_witness :
  fst (app_post scripted 1 (mkReqBody (Some "token") (Some "12"))
         (start (mkScript [] [] [] [Ok campus_topics] [Ok 1] []) None))
  = Val (mkHttpResponse 500 (ErrorBody "Network Error")).
Proof.
  pose (w0 := mkScript [] [] [] [Ok campus_topics] [Ok 1] []).
  pose (s1 := with_token (Some "token") (start w0 None)).
  pose (w2 := mkScript [] [] [] [] [Ok 1] []).
  pose (s2 := names_logged (eligible campus_topics)
                (mkSt w2 (Some "token")
                      [EvTopicsUnit (Some "token") "12" (Ok campus_topics)]
                      [])).
  pose (s3 := snd (topic_body scripted 1 (mkTopicRef 5 "Intro RL") tt s2)).
  pose proof (status_failure_aborts_run Script scripted 1 "token" "12"
                (start w0 None) [] "12" [] s1 w2 campus_topics
                [mkTopicRef 5 "Intro RL"] (mkTopicRef 7 "Bandits") [] s3
                (mkScript [] [] [] [] [] []) unavailable) as H.
  refine (f_equal fst (H _ _ _ _ _ _ _ _));
    (discriminate || reflexivity).
Defined.

(** ** Runs that do not end *)

Section StallFacts.
Context {World : Type} (fuel : nat).
Implicit Types s : St World.

Lemma Stalls_settled {A} (m : M World A) :
  Settles m -> Emits (fun _ => True) m -> StallsInProbe fuel m.
Proof.
  intros Hs He s. destruct (He s) as (ext & Hext & _).
  exists ext. split; [exact Hext|]. intros H. destruct (Hs s H).
Qed.

Lemma Stalls_ret {A} (a : A) : StallsInProbe (World:=World) fuel (ret a).
Proof. apply Stalls_settled; [apply Settles_ret|apply Emits_ret]. Qed.

Lemma Stalls_throw {A} e : StallsInProbe (World:=World) (A:=A) fuel (throw e).
Proof. apply Stalls_settled; [apply Settles_throw|apply Emits_throw]. Qed.

Lemma Stalls_console_log line :
  StallsInProbe (World:=World) fuel (console_log line).
Proof.
  apply Stalls_settled; [apply Settles_console_log|apply Emits_console_log].
Qed.

Lemma Stalls_axios {A} (call : World -> option string -> World * Resp A) ev :
  StallsInProbe fuel (axios call ev).
Proof.
  apply Stalls_settled; [apply Settles_axios|].
  apply Emits_axios. intros; exact I.
Qed.

Lemma Stalls_await {A} (call : World -> World * Resp A) ev :
  StallsInProbe fuel (await call ev).
Proof.
  apply Stalls_settled; [apply Settles_await|].
  apply Emits_await. intros; exact I.
Qed.

Lemma Stalls_bind {A B} (m : M World A) (k : A -> M World B) :
  StallsInProbe fuel m -> (forall a, StallsInProbe fuel (k a)) ->
  StallsInProbe fuel (bind m k).
Proof.
  intros Hm Hk s. unfold bind.
  destruct (Hm s) as (e1 & Ht1 & Ho1).
  destruct (m s) as [[a|e|] s1]; cbn [fst snd] in *.
  - destruct (Hk a s1) as (e2 & Ht2 & Ho2).
    exists (e1 ++ e2). rewrite Ht2, Ht1, <- app_assoc.
    split; [reflexivity|]. intros H.
    destruct (Ho2 H) as (before & Hb).
    exists (submitted e1 ++ before).
    rewrite submitted_app, Hb, <- app_assoc. reflexivity.
  - exists e1. split; [exact Ht1|discriminate].
  - exists e1. split; [exact Ht1|]. intros _. exact (Ho1 eq_refl).
Qed.

Lemma Stalls_try_catch {A} (m : M World A) (h : Err -> M World A) :
  StallsInProbe fuel m -> (forall e, StallsInProbe fuel (h e)) ->
  StallsInProbe fuel (try_catch m h).
Proof.
  intros Hm Hh s. unfold try_catch.
  destruct (Hm s) as (e1 & Ht1 & Ho1).
  destruct (m s) as [[a|e|] s1]; cbn [fst snd] in *.
  - exists e1. split; [exact Ht1|discriminate].
  - destruct (Hh e s1) as (e2 & Ht2 & Ho2).
    exists (e1 ++ e2). rewrite Ht2, Ht1, <- app_assoc.
    split; [reflexivity|]. intros H.
    destruct (Ho2 H) as (before & Hb).
    exists (submitted e1 ++ before).
    rewrite submitted_app, Hb, <- app_assoc. reflexivity.
  - exists e1. split; [exact Ht1|exact Ho1].
Qed.

Lemma Stalls_for_of {A S} (l : list A) (body : A -> S -> M World S) acc :
  (forall x a, StallsInProbe fuel (body x a)) ->
  StallsInProbe fuel (for_of l body acc).
Proof.
  intros Hb. revert acc.
  induction l as [|x rest IH]; intros acc; simpl.
  - apply Stalls_ret.
  - apply Stalls_bind; [apply Hb|]. intros a. apply IH.
Qed.

End StallFacts.

Create HintDb stalls.
#[export] Hint Resolve Stalls_ret Stalls_throw Stalls_console_log
  Stalls_axios Stalls_await Stalls_bind Stalls_try_catch Stalls_for_of
  : stalls.

Section HandlerStalls.
Context {World : Type} (svc : Service World) (fuel : nat).
Implicit Types s : St World.

(** A probe that is out of fuel has submitted [options[0]], ...,
    [options[fuel-1]] and nothing else. *)
Lemma Stalls_attemptQuiz quizId questionId currentScore :
  StallsInProbe fuel (attemptQuiz svc fuel quizId questionId currentScore).
Proof.
  intros s. unfold attemptQuiz.
  destruct (Emits_attemptQuiz_while svc fuel quizId questionId currentScore
              currentScore 0%nat JsNull s) as (ext & Hext & _).
  destruct (while_submits_in_order svc fuel quizId questionId currentScore
              currentScore 0%nat JsNull s) as (n & _ & Hsub & Hout).
  exists ext. split; [exact Hext|]. intros H.
  rewrite Hext, submitted_app in Hsub. apply app_inv_head in Hsub.
  exists []. rewrite Hsub, (Hout H). reflexivity.
Qed.

Lemma Stalls_attemptOneQuiz quizId topicName :
  StallsInProbe fuel (attemptOneQuiz svc fuel quizId topicName).
Proof.
  unfold attemptOneQuiz. apply Stalls_try_catch.
  - apply Stalls_bind; [apply Stalls_axios|]. intros data. cbv zeta.
    apply Stalls_bind.
    + unfold questions_loop. apply Stalls_for_of.
      intros question [currentScore content]. unfold question_body.
      apply Stalls_bind; [apply Stalls_attemptQuiz|].
      intros result. apply Stalls_ret.
    + intros [currentScore content]. auto with stalls.
  - intros e. auto with stalls.
Qed.

Lemma Stalls_unit_body unit u : StallsInProbe fuel (unit_body svc fuel unit u).
Proof.
  unfold unit_body. apply Stalls_bind.
  - unfold getUnitTopics. auto 6 with stalls.
  - intros topics. apply Stalls_bind; [auto with stalls|]. intros _.
    apply Stalls_for_of. intros topic []. unfold topic_body.
    apply Stalls_bind; [unfold resultQuiz; auto 6 with stalls|].
    intros [|]; [apply Stalls_console_log|].
    apply Stalls_bind; [apply Stalls_console_log|]. intros _.
    apply Stalls_bind; [apply Stalls_attemptOneQuiz|]. intros _.
    auto with stalls.
Qed.

End HandlerStalls.



(** ** What a 200 answer vouches for *)

Section VouchesFacts.
Context {World : Type} (P : Event -> Prop).
Implicit Types s : St World.

Lemma Vouches_of_Emits {A} (m : M World A) : Emits P m -> Vouches P m.
Proof.
  intros Hm s. destruct (Hm s) as (ext & Ht & Hp).
  exists ext. split; [exact Ht|]. intros _ _. exact Hp.
Qed.

Lemma Vouches_bind {A B} (m : M World A) (k : A -> M World B) :
  Vouches P m -> (forall a, Vouches P (k a)) -> Vouches P (bind m k).
Proof.
  intros Hm Hk s. unfold bind.
  destruct (Hm s) as (e1 & Ht1 & Hp1).
  destruct (m s) as [[a|e|] s1]; cbn [snd fst] in *.
  - destruct (Hk a s1) as (e2 & Ht2 & Hp2).
    exists (e1 ++ e2). rewrite Ht2, Ht1, <- app_assoc.
    split; [reflexivity|]. intros b Hb.
    apply Forall_app. split; [apply (Hp1 a); reflexivity|apply (Hp2 b Hb)].
  - exists e1. split; [exact Ht1|]. intros b Hb. discriminate Hb.
  - exists e1. split; [exact Ht1|]. intros b Hb. discriminate Hb.
Qed.

(** [try { m } catch (error) { ...; throw error }] *)
Lemma Vouches_rethrowing {A} (m : M World A) (h : Err -> M World A) :
  Vouches P m ->
  (forall e, Emits (fun _ => True) (h e)) ->
  (forall e, Rethrows (h e)) ->
  Vouches P (try_catch m h).
Proof.
  intros Hm Hext Hh s. unfold try_catch.
  destruct (Hm s) as (e1 & Ht1 & Hp1).
  destruct (m s) as [[a|e|] s1]; cbn [snd fst] in *.
  - exists e1. split; [exact Ht1|]. exact Hp1.
  - destruct (Hext e s1) as (e2 & Ht2 & _).
    exists (e1 ++ e2). rewrite Ht2, Ht1, <- app_assoc.
    split; [reflexivity|]. intros a Ha. exfalso. exact (Hh e s1 a Ha).
  - exists e1. split; [exact Ht1|]. intros b Hb. discriminate Hb.
Qed.

Lemma Vouches_await {A} (call : World -> World * Resp A) ev :
  (forall a, P (ev (Ok a))) -> Vouches P (await call ev).
Proof.
  intros Hev s. unfold await. destruct (call (world s)) as [w' r].
  exists [ev r]. destruct r as [a|e]; cbn [snd fst trace];
    (split; [reflexivity|]); intros b Hb; [|discriminate Hb].
  constructor; [apply Hev|constructor].
Qed.

Lemma Vouches_axios {A} (call : World -> option string -> World * Resp A) ev :
  (forall tok a, P (ev tok (Ok a))) -> Vouches P (axios call ev).
Proof. intros Hev s. unfold axios. apply Vouches_await. apply Hev. Qed.

Lemma Vouches_for_of {A S} (l : list A) (body : A -> S -> M World S) acc :
  (forall x a, Vouches P (body x a)) -> Vouches P (for_of l body acc).
Proof.
  intros Hb. revert acc.
  induction l as [|x rest IH]; intros acc; simpl.
  - apply Vouches_of_Emits, Emits_ret.
  - apply Vouches_bind; [apply Hb|]. intros a. apply IH.
Qed.

Lemma Rethrows_log_throw {A} line e :
  Rethrows (World:=World) (A:=A) (console_log line ;; throw e).
Proof. intros s a. discriminate. Qed.

End VouchesFacts.

Section AnsweredCalls.
Context {World : Type} (svc : Service World).
Implicit Types s : St World.

Lemma Vouches_attemptOneQuiz fuel quizId topicName :
  Vouches probe_or_answered (attemptOneQuiz svc fuel quizId topicName).
Proof.
  unfold attemptOneQuiz. apply Vouches_rethrowing.
  - apply Vouches_bind; [apply Vouches_axios; intros; exact I|].
    intros data. cbv zeta. apply Vouches_bind.
    + apply Vouches_of_Emits.
      apply (Emits_weaken probing); [|apply Emits_questions_loop].
      intros []; simpl; tauto.
    + intros [currentScore content].
      apply Vouches_bind; [apply Vouches_await; intros; exact I|].
      intros _. apply Vouches_of_Emits. auto with emits.
  - intros e. auto with emits.
  - intros e. apply Rethrows_log_throw.
Qed.

Lemma Vouches_resultQuiz topicId :
  Vouches probe_or_answered (resultQuiz svc topicId).
Proof.
  unfold resultQuiz. apply Vouches_rethrowing.
  - apply Vouches_bind; [apply Vouches_axios; intros; exact I|].
    intros badge. apply Vouches_of_Emits, Emits_ret.
  - intros e. auto with emits.
  - intros e. apply Rethrows_log_throw.
Qed.

Lemma Vouches_getUnitTopics unitId :
  Vouches probe_or_answered (getUnitTopics svc unitId).
Proof.
  unfold getUnitTopics. apply Vouches_rethrowing.
  - apply Vouches_bind; [apply Vouches_axios; intros; exact I|].
    intros topics. apply Vouches_of_Emits, Emits_ret.
  - intros e. auto with emits.
  - intros e. apply Rethrows_log_throw.
Qed.

Lemma Vouches_unit_body fuel unit u :
  Vouches probe_or_answered (unit_body svc fuel unit u).
Proof.
  unfold unit_body. apply Vouches_bind; [apply Vouches_getUnitTopics|].
  intros topics. apply Vouches_bind.
  - apply Vouches_of_Emits. apply Emits_for_of. intros.
    apply Emits_console_log.
  - intros _. apply Vouches_for_of. intros topic v. unfold topic_body.
    apply Vouches_bind; [apply Vouches_resultQuiz|].
    intros [|]; [apply Vouches_of_Emits, Emits_console_log|].
    apply Vouches_bind; [apply Vouches_of_Emits, Emits_console_log|].
    intros _. apply Vouches_bind; [apply Vouches_attemptOneQuiz|].
    intros _. apply Vouches_of_Emits. auto with emits.
Qed.

End AnsweredCalls.

(** X14: a 200 answer vouches for the run: every listing, status query,
    quiz creation and file write the request issued was answered by the
    service; the only calls of such a run that may have failed are
    submissions of the prober. *)
Theorem ok_response_means_calls_succeeded :
  forall (World : Type) (svc : Service World) (fuel : nat) (body : ReqBody)
         (s : St World) (response : HttpResponse),
    fst (app_post svc fuel body s) = Val response ->
    status response = 200 ->
    exists ext,
      trace (snd (app_post svc fuel body s)) = trace s ++ ext /\
      Forall probe_or_answered ext.
Proof.
  intros World svc fuel body s response Hrun Hstatus.
  destruct (falsy (accessToken body) || falsy (unitId body)) eqn:Hf.
  - unfold app_post in Hrun. rewrite Hf in Hrun. unfold ret in Hrun.
    cbn [fst] in Hrun. injection Hrun as <-. discriminate Hstatus.
  - apply orb_false_elim in Hf as [Ha Hu].
    destruct (not_falsy_inv _ Hu) as (unitIds & Hunit & Hne).
    rewrite (app_post_accepted svc fuel body unitIds s Ha Hunit Hne) in *.
    destruct (Vouches_for_of probe_or_answered (split_space unitIds)
                (unit_body svc fuel) tt
                (fun unit u => Vouches_unit_body svc fuel unit u)
                (with_token (accessToken body) s))
      as (ext & Hext & Hall).
    destruct (for_of (split_space unitIds) (unit_body svc fuel) tt
                (with_token (accessToken body) s)) as [[[]|e|] s'];
      cbn [fst snd] in *.
    + exists ext. split; [exact Hext|]. apply (Hall tt). reflexivity.
    + injection Hrun as <-. discriminate Hstatus.
    + discriminate Hrun.
Qed.

Lemma ok_response_means_calls_succeeded_witness :
  exists ext,
    trace (snd (app_post (campus (fun topic => topic =? 5) empty_quiz) 1
                  (mkReqBody (Some "token") (Some "12")) (start tt None)))
    = ext /\
    Forall probe_or_answered ext.
Proof.
  apply (ok_response_means_calls_succeeded unit
           (campus (fun topic => topic =? 5) empty_quiz) 1
           (mkReqBody (Some "token") (Some "12")) (start tt None)
           (mkHttpResponse 200 (DoneBody [] "Processing complete")));
    reflexivity.
Defined.

(** ** Against a service that scores answers with a key *)

Lemma options_distinct (i j : nat) (o : string) :
  options !! i = Some o -> options !! j = Some o -> i = j.
Proof.
  destruct i as [|[|[|[|i]]]], j as [|[|[|[|j]]]]; simpl;
    intros Hi Hj; try reflexivity; try discriminate; congruence.
Qed.

Lemma forget_forget (questionId : Z) (saved : list (Z * option string)) :
  forget questionId (forget questionId saved) = forget questionId saved.
Proof.
  unfold forget. induction saved as [|entry saved IH]; [reflexivity|].
  simpl. destruct (negb (fst entry =? questionId)) eqn:H; simpl.
  - rewrite H. f_equal. exact IH.
  - exact IH.
Qed.

Lemma forget_saved (questionId : Z) (answer : option string)
    (saved : list (Z * option string)) :
  forget questionId ((questionId, answer) :: forget questionId saved)
  = forget questionId saved.
Proof.
  unfold forget at 1. simpl. rewrite Z.eqb_refl. simpl.
  apply forget_forget.
Qed.

Lemma forget_absent (questionId : Z) (saved : list (Z * option string)) :
  ~ In questionId (map fst saved) -> forget questionId saved = saved.
Proof.
  unfold forget. induction saved as [|entry saved IH]; [reflexivity|].
  simpl. intros H.
  destruct (Z.eqb_spec (fst entry) questionId) as [Heq|Hne]; [tauto|].
  simpl. f_equal. apply IH. tauto.
Qed.

Lemma keyed_score_saved (key : Z -> string) (questionId : Z)
    (answer : option string) (saved : list (Z * option string)) :
  keyed_score key ((questionId, answer) :: saved)
  = (if is_correct key (questionId, answer) then 1 else 0)
    + keyed_score key saved.
Proof.
  unfold keyed_score. simpl.
  destruct (is_correct key (questionId, answer)); simpl length; lia.
Qed.

Section KeyedProbe.
Variables (key : Z -> string) (quiz : Payload.t).
Implicit Types s : St (list (Z * option string)).

(** One submission: the answer replaces the saved one, the score read back
    counts it when it is the key's. *)
Lemma keyed_submission quizId questionId userAnswer s :
  attemptQuizApi (keyed key quiz) quizId questionId userAnswer s
  = (Val ((if is_correct key (questionId, userAnswer) then 1 else 0)
          + keyed_score key (forget questionId (world s))),
     mkSt ((questionId, userAnswer) :: forget questionId (world s))
          (ACCESS_TOKEN s)
          ((trace s ++ [EvSaveAnswer (ACCESS_TOKEN s) quizId questionId
                                     userAnswer (Ok tt)])
             ++ [EvSubmitQuiz (ACCESS_TOKEN s) quizId
                   (Ok (keyed_score key
                          ((questionId, userAnswer)
                             :: forget questionId (world s))))])
          (console s)).
Proof.
  pose proof (attemptQuizApi_cases (keyed key quiz) quizId questionId
                userAnswer s) as H.
  simpl in H. rewrite H. rewrite keyed_score_saved. reflexivity.
Qed.

(** From index [i], with the key's option at index [i + n]: [n] options are
    refused, the next one is captured. *)
Lemma keyed_while n : forall fuel quizId questionId currentScore score0 i
    captured s,
  options !! (i + n)%nat = Some (key questionId) ->
  score0 <> currentScore + 1 ->
  keyed_score key (forget questionId (world s)) = currentScore ->
  exists s',
    attemptQuiz_while (keyed key quiz) (S n + fuel) quizId questionId
      currentScore score0 i captured s
    = (Val (mkProbeResult (currentScore + 1) (JsStr (key questionId))), s') /\
    submitted (trace s') = submitted (trace s) ++ candidates i (S n) /\
    world s' = (questionId, Some (key questionId))
                 :: forget questionId (world s).
Proof.
  induction n as [|n IH];
    intros fuel quizId questionId currentScore score0 i captured s
           Hkey Hsc Hothers.
  - rewrite Nat.add_0_r in Hkey.
    pose proof (keyed_submission quizId questionId (options !! i) s) as Hapi.
    rewrite Hkey in Hapi. unfold is_correct in Hapi. cbn [snd fst] in Hapi.
    rewrite String.eqb_refl, Hothers in Hapi.
    replace (1 + currentScore) with (currentScore + 1) in Hapi by lia.
    rewrite <- Hkey in Hapi at 1.
    eexists. split; [|split].
    + cbn [Nat.add].
      rewrite (while_pass_lock (keyed key quiz) fuel _ _ _ _ _ captured _ _
                 Hsc Hapi).
      rewrite Hkey. reflexivity.
    + rewrite trace_logged. cbn [trace].
      rewrite candidates_S, Hkey.
      change (candidates (S i) 0) with (@nil (option string)).
      rewrite !submitted_app. cbn [submitted app]. rewrite app_nil_r.
      reflexivity.
    + reflexivity.
  - assert (exists o, options !! i = Some o /\ o <> key questionId)
      as (o & Hi & Hne).
    { destruct (options !! i) as [o|] eqn:Hi.
      - exists o. split; [reflexivity|]. intros ->.
        pose proof (options_distinct _ _ _ Hi Hkey). lia.
      - apply lookup_ge_None_1 in Hi.
        apply lookup_lt_Some in Hkey. lia. }
    pose proof (keyed_submission quizId questionId (options !! i) s) as Hapi.
    rewrite Hi in Hapi. unfold is_correct in Hapi. cbn [snd fst] in Hapi.
    apply String.eqb_neq in Hne. rewrite Hne, Hothers in Hapi.
    replace (0 + currentScore) with currentScore in Hapi by lia.
    rewrite <- Hi in Hapi at 1.
    assert (currentScore <> currentScore + 1) as Hcs by lia.
    match type of Hapi with
    | _ = (_, ?st) =>
        destruct (IH fuel quizId questionId currentScore currentScore (S i)
                    captured st) as (s' & Hrun & Hsub & Hworld)
    end.
    + rewrite <- Hkey. f_equal. lia.
    + exact Hcs.
    + cbn [world]. rewrite forget_saved. exact Hothers.
    + exists s'. split; [|split].
      * change (S (S n) + fuel)%nat with (S (S n + fuel)).
        rewrite (while_pass_continue (keyed key quiz) (S n + fuel) _ _ _ _ _
                   captured _ _ _ Hsc Hapi Hcs).
        exact Hrun.
      * rewrite Hsub. cbn [trace].
        rewrite (candidates_S i (S n)), Hi.
        rewrite !submitted_app. cbn [submitted app].
        rewrite app_nil_r, <- app_assoc. reflexivity.
      * rewrite Hworld. cbn [world]. rewrite forget_saved. reflexivity.
Qed.

End KeyedProbe.

(** A probe on the keyed service, started with the score of the other
    questions. *)
Lemma keyed_probe (key : Z -> string) (quiz : Payload.t) (fuel : nat)
    (quizId questionId currentScore : Z)
    (s : St (list (Z * option string))) (k : nat) :
  options !! k = Some (key questionId) ->
  keyed_score key (forget questionId (world s)) = currentScore ->
  (k < fuel)%nat ->
  let run :=
    attemptQuiz (keyed key quiz) fuel quizId questionId currentScore s in
  fst run
  = Val (mkProbeResult (currentScore + 1) (JsStr (key questionId))) /\
  submitted (trace (snd run)) = submitted (trace s) ++ candidates 0 (S k) /\
  world (snd run)
  = (questionId, Some (key questionId)) :: forget questionId (world s) /\
  keyed_score key (world (snd run)) = currentScore + 1.
Proof.
  intros Hkey Hothers Hfuel. cbv zeta.
  destruct (Nat.le_exists_sub (S k) fuel Hfuel) as (f & -> & _).
  replace (f + S k)%nat with (S k + f)%nat by lia.
  destruct (keyed_while key quiz k f quizId questionId currentScore
              currentScore 0 JsNull s) as (s' & Hrun & Hsub & Hworld);
    [exact Hkey|lia|exact Hothers|].
  unfold attemptQuiz. rewrite Hrun. cbn [fst snd].
  split; [reflexivity|]. split; [exact Hsub|]. split; [exact Hworld|].
  rewrite Hworld, keyed_score_saved. unfold is_correct. cbn [snd fst].
  rewrite String.eqb_refl, Hothers. lia.
Qed.

(** X16: against a service that keeps the last answer saved for each
    question and reads back the number of answers that match a key, a probe
    started with the score of the other questions finds the key's option
    when it is one of [a, b, c, d]: it submits the options up to that one,
    returns it with the score raised by one, and leaves it saved. *)
Theorem attemptQuiz_finds_the_key :
  forall (key : Z -> string) (quiz : Payload.t) (fuel : nat)
         (quizId questionId currentScore : Z)
         (s : St (list (Z * option string))) (k : nat),
    options !! k = Some (key questionId) ->
    keyed_score key (forget questionId (world s)) = currentScore ->
    (k < fuel)%nat ->
    let run :=
      attemptQuiz (keyed key quiz) fuel quizId questionId currentScore s in
    fst run
    = Val (mkProbeResult (currentScore + 1) (JsStr (key questionId))) /\
    submitted (trace (snd run)) = submitted (trace s) ++ candidates 0 (S k) /\
    world (snd run)
    = (questionId, Some (key questionId)) :: forget questionId (world s) /\
    keyed_score key (world (snd run)) = currentScore + 1.
Proof.
  intros. apply keyed_probe; assumption.
Qed.

Lemma attemptQuiz_finds_the_key_witness :
  let run :=
    attemptQuiz (keyed two_keys two_questions) 4 77 26183 1
                (start [(26180, Some "b")] None) in
  fst run = Val (mkProbeResult 2 (JsStr "d")) /\
  submitted (trace (snd run)) = [Some "a"; Some "b"; Some "c"; Some "d"].
Proof.
  cbv zeta.
  destruct (attemptQuiz_finds_the_key two_keys two_questions 4 77 26183 1
              (start [(26180, Some "b")] None) 3)
    as (Hres & Hsub & _); [reflexivity|reflexivity|lia|].
  split; [exact Hres|exact Hsub].
Defined.

Lemma option_is_kept (o dflt : string) :
  In o options -> or_default (JsStr o) dflt = o.
Proof.
  simpl. intros [<-|[<-|[<-|[<-|[]]]]]; reflexivity.
Qed.

Lemma option_index (o : string) :
  In o options -> exists k, (k < 4)%nat /\ options !! k = Some o.
Proof.
  simpl. intros [<-|[<-|[<-|[<-|[]]]]];
    [exists 0%nat|exists 1%nat|exists 2%nat|exists 3%nat];
    (split; [lia|reflexivity]).
Qed.

Section KeyedQuiz.
Variables (key : Z -> string) (quiz : Payload.t).
Implicit Types s : St (list (Z * option string)).

(** The loop over questions none of which has an answer saved yet: each is
    locked on the key's option and raises the score by one. *)
Lemma keyed_questions fuel quiz_Id questions : forall currentScore content s,
  List.NoDup (map Question.questionId questions) ->
  Forall (fun question => In (key (Question.questionId question)) options)
         questions ->
  (forall question, In question questions ->
                    ~ In (Question.questionId question) (map fst (world s))) ->
  keyed_score key (world s) = currentScore ->
  exists s',
    for_of questions (question_body (keyed key quiz) (4 + fuel) quiz_Id)
           (currentScore, content) s
    = (Val (currentScore + Z.of_nat (length questions),
            content +:+ render_report (map (keyed_block key) questions)),
       s').
Proof.
  induction questions as [|question rest IH];
    intros currentScore content s Hnodup Hkeys Hfresh Hscore.
  - exists s. simpl. rewrite append_empty_r, Z.add_0_r. reflexivity.
  - cbn [map] in Hnodup. apply List.NoDup_cons_iff in Hnodup as [Hq Hnodup].
    pose proof (Forall_inv Hkeys) as Hkey. cbn beta in Hkey.
    pose proof (Forall_inv_tail Hkeys) as Hkeys'.
    destruct (option_index _ Hkey) as (k & Hk & Hlookup).
    assert (forget (Question.questionId question) (world s) = world s)
      as Hforget.
    { apply forget_absent. apply Hfresh. left. reflexivity. }
    destruct (keyed_probe key quiz (4 + fuel) quiz_Id
                (Question.questionId question) currentScore s k Hlookup)
      as (Hres & _ & Hworld & Hscore'); [now rewrite Hforget|lia|].
    destruct (attemptQuiz (keyed key quiz) (4 + fuel) quiz_Id
                (Question.questionId question) currentScore s)
      as [r s1] eqn:Hprobe.
    cbn [fst snd] in *. subst r.
    destruct (IH (currentScore + 1)
                (content +:+ render_block (keyed_block key question)) s1)
      as (s2 & Hrest); [exact Hnodup|exact Hkeys'| |exact Hscore'|].
    { intros question' Hin. rewrite Hworld, Hforget. cbn [map fst].
      intros [Heq|Hold].
      - apply Hq. rewrite Heq. apply in_map. exact Hin.
      - apply (Hfresh question'); [right; exact Hin|exact Hold]. }
    exists s2. cbn [for_of]. unfold bind at 1. rewrite question_body_eq.
    unfold bind at 1. rewrite Hprobe. unfold ret.
    unfold block_of. cbn [score correctOption].
    rewrite (option_is_kept _ "Not locked" Hkey).
    fold (keyed_block key question). rewrite Hrest.
    cbn [length map].
    change (render_report (keyed_block key question
                             :: map (keyed_block key) rest))
      with (render_block (keyed_block key question)
              +:+ render_report (map (keyed_block key) rest)).
    rewrite append_assoc, Nat2Z.inj_succ.
    replace (currentScore + 1 + Z.of_nat (length rest))
      with (currentScore + Z.succ (Z.of_nat (length rest))) by lia.
    reflexivity.
Qed.

(** The runner on a fresh attempt of the keyed service. *)
Lemma keyed_runner fuel topic topicName s :
  world s = [] ->
  List.NoDup (map Question.questionId (Payload.questions quiz)) ->
  Forall (fun question => In (key (Question.questionId question)) options)
         (Payload.questions quiz) ->
  exists before s',
    attemptOneQuiz (keyed key quiz) (4 + fuel) topic topicName s
    = (Val (mkRunResult (Payload.quizId quiz)
                        (Z.of_nat (length (Payload.questions quiz)))), s') /\
    trace s'
    = before
        ++ [EvWriteFile (sanitize topicName +:+ ".txt")
              (render_report (map (keyed_block key) (Payload.questions quiz)))
              (Ok tt)].
Proof.
  intros Hfresh Hnodup Hkeys.
  unfold attemptOneQuiz. rewrite try_catch_bind_axios.
  cbn [create_quiz keyed]. cbv zeta.
  match goal with
  | |- context [try_catch _ _ ?st] => set (s1 := st)
  end.
  destruct (keyed_questions fuel (Payload.quizId quiz)
              (Payload.questions quiz) 0 "" s1 Hnodup Hkeys)
    as (s2 & Hloop).
  { intros question _. subst s1. cbn [world]. rewrite Hfresh.
    intros []. }
  { subst s1. cbn [world]. rewrite Hfresh. reflexivity. }
  unfold try_catch, questions_loop. unfold bind at 1. rewrite Hloop.
  unfold bind, await, console_log, ret. cbn [writeFile keyed].
  eexists _, _. split; [reflexivity|]. cbn [trace]. reflexivity.
Qed.

End KeyedQuiz.

(** X17: on a fresh attempt of a service that scores the saved answers
    against a key, for a quiz whose questions have distinct ids and keys
    among [a, b, c, d], the runner completes, its final score is the number
    of questions, and the report it writes gives for every question the
    option of the key. *)
Theorem attemptOneQuiz_reports_the_key :
  forall (key : Z -> string) (quiz : Payload.t) (fuel : nat) (topic : Z)
         (topicName : string) (s : St (list (Z * option string))),
    world s = [] ->
    List.NoDup (map Question.questionId (Payload.questions quiz)) ->
    Forall (fun question => In (key (Question.questionId question)) options)
           (Payload.questions quiz) ->
    (4 <= fuel)%nat ->
    exists before s',
      attemptOneQuiz (keyed key quiz) fuel topic topicName s
      = (Val (mkRunResult (Payload.quizId quiz)
                          (Z.of_nat (length (Payload.questions quiz)))), s')
      /\
      trace s'
      = before
          ++ [EvWriteFile (sanitize topicName +:+ ".txt")
                (render_report
                   (map (keyed_block key) (Payload.questions quiz)))
                (Ok tt)].
Proof.
  intros key quiz fuel topic topicName s Hfresh Hnodup Hkeys Hfuel.
  destruct (Nat.le_exists_sub 4 fuel Hfuel) as (f & -> & _).
  replace (f + 4)%nat with (4 + f)%nat by lia.
  apply keyed_runner; assumption.
Qed.

Lemma attemptOneQuiz_reports_the_key_witness :
  exists before s',
    attemptOneQuiz (keyed two_keys two_questions) 4 5 "Intro RL"
                   (start [] (Some "token"))
    = (Val (mkRunResult 77 2), s') /\
    trace s'
    = before
        ++ [EvWriteFile "intro_rl.txt"
              (render_report [keyed_block two_keys first_question;
                              keyed_block two_keys second_question])
              (Ok tt)].
Proof.
  apply (attemptOneQuiz_reports_the_key two_keys two_questions 4 5 "Intro RL"
           (start [] (Some "token"))).
  - reflexivity.
  - repeat constructor; simpl; intuition discriminate.
  - repeat constructor; simpl; tauto.
  - lia.
Defined.

(** ** The form and the handler together *)

Lemma app_post_accepts_present_fields {World} (svc : Service World) fuel
    (tok unitIds : string) (s : St World) response :
  tok <> "" -> unitIds <> "" ->
  fst (app_post svc fuel (mkReqBody (Some tok) (Some unitIds)) s)
  = Val response ->
  status response = 200 \/ status response = 500.
Proof.
  intros Htok Hunit.
  assert (falsy (Some tok) = false) as Hf
      by (unfold falsy; now apply bool_decide_eq_false_2).
  rewrite (app_post_accepted svc fuel (mkReqBody (Some tok) (Some unitIds))
             unitIds s Hf eq_refl Hunit).
  destruct (for_of (split_space unitIds) (unit_body svc fuel) tt _)
    as [[[]|e|] s']; cbn [fst]; intros H; try discriminate H;
    injection H as <-; [left|right]; reflexivity.
Qed.

(** X18: the form posts only when both inputs are non-empty once trimmed,
    and then posts the trimmed values; so a request sent by the form is
    never answered 400 by the handler. *)
Theorem form_requests_pass_validation :
  forall (trim : string -> string) (fetch : ReqBody -> FetchOutcome)
         (accessTokenValue unitIdValue : string) (body : ReqBody),
    In (Fetch body) (on_submit trim fetch accessTokenValue unitIdValue) ->
    body = mkReqBody (Some (trim accessTokenValue)) (Some (trim unitIdValue))
    /\
    trim accessTokenValue <> "" /\ trim unitIdValue <> "" /\
    forall (World : Type) (svc : Service World) (fuel : nat) (s : St World)
           (response : HttpResponse),
      fst (app_post svc fuel body s) = Val response ->
      status response <> 400.
Proof.
  intros trim fetch accessTokenValue unitIdValue body Hin.
  unfold on_submit in Hin. cbv zeta in Hin.
  destruct (String.eqb_spec (trim accessTokenValue) "") as [Ha|Ha];
    [simpl in Hin; intuition discriminate|].
  destruct (String.eqb_spec (trim unitIdValue) "") as [Hu|Hu];
    [simpl in Hin; intuition discriminate|].
  cbn [orb] in Hin.
  assert (body = mkReqBody (Some (trim accessTokenValue))
                           (Some (trim unitIdValue))) as ->.
  { destruct Hin as [H|[H|Hrest]]; [discriminate H|now inversion H|].
    destruct (fetch _) as [|e|st blob]; simpl in Hrest;
      [tauto|intuition discriminate|].
    destruct (response_ok st); simpl in Hrest; intuition discriminate. }
  split; [reflexivity|]. split; [exact Ha|]. split; [exact Hu|].
  intros World svc fuel s response Hresp.
  destruct (app_post_accepts_present_fields svc fuel _ _ s response Ha Hu
              Hresp) as [H|H]; rewrite H; discriminate.
Qed.

Lemma form_requests_pass_validation_witness :
  mkReqBody (Some "token") (Some "12 13")
  = mkReqBody (Some (trim_ascii "  token ")) (Some (trim_ascii "12 13  ")).
Proof.
  apply (form_requests_pass_validation trim_ascii
           (fun _ => FetchPending) "  token " "12 13  "
           (mkReqBody (Some "token") (Some "12 13"))).
  right. left. reflexivity.
Defined.

(** X19: the form in front of the handler.  When an input is empty once
    trimmed the user is asked for both values and nothing is sent.
    Otherwise one request is sent, and the user gets the download
    [quizzes.txt] exactly when the handler answers 200, its content being
    the handler's [{logs, message}] summary with no log line, and the
    failure alert exactly when the handler answers 500. *)
Theorem form_outcome_follows_the_handler :
  forall (World : Type) (svc : Service World) (fuel : nat) (s : St World)
         (trim : string -> string) (accessTokenValue unitIdValue : string),
    let actions :=
      on_submit trim (serve svc fuel s) accessTokenValue unitIdValue in
    let body :=
      mkReqBody (Some (trim accessTokenValue)) (Some (trim unitIdValue)) in
    (trim accessTokenValue = "" \/ trim unitIdValue = "" ->
     actions
     = [PreventDefault; Alert "Please enter both Access Token and Unit ID."])
    /\
    (trim accessTokenValue <> "" -> trim unitIdValue <> "" ->
     (forall response,
         fst (app_post svc fuel body s) = Val response ->
         status response = 200 ->
         actions
         = [PreventDefault; Fetch body;
            Download "quizzes.txt" (DoneBody [] "Processing complete")]) /\
     (forall response,
         fst (app_post svc fuel body s) = Val response ->
         status response = 500 ->
         actions
         = [PreventDefault; Fetch body;
            ConsoleError "Fetch error:"
              (mkErr "Error" "Network response was not ok");
            Alert fetch_failed_alert]) /\
     (fst (app_post svc fuel body s) = OutOfFuel ->
      actions = [PreventDefault; Fetch body])).
Proof.
  intros World svc fuel s trim accessTokenValue unitIdValue. cbv zeta.
  unfold on_submit. cbv zeta. split.
  - intros [H|H]; rewrite H; [reflexivity|].
    rewrite orb_true_r. reflexivity.
  - intros Ha Hu.
    apply String.eqb_neq in Ha as Ha'. apply String.eqb_neq in Hu as Hu'.
    rewrite Ha', Hu'. cbn [orb].
    assert (falsy (Some (trim accessTokenValue)) = false) as Hf
        by (unfold falsy; now apply bool_decide_eq_false_2).
    unfold serve.
    rewrite (app_post_accepted svc fuel
               (mkReqBody (Some (trim accessTokenValue))
                          (Some (trim unitIdValue)))
               (trim unitIdValue) s Hf eq_refl Hu).
    destruct (for_of (split_space (trim unitIdValue)) (unit_body svc fuel) tt
                _) as [[[]|e|] s']; cbn [fst status json];
      (split; [|split]); try (intros response H; try discriminate H;
                              injection H as <-; intros Hst;
                              try discriminate Hst; reflexivity);
      intros H; try discriminate H; reflexivity.
Qed.

Lemma form_outcome_follows_the_handler_witness :
  on_submit trim_ascii
            (serve (campus (fun _ => true) empty_quiz) 1 (start tt None))
            " token" "12 "
  = [PreventDefault;
     Fetch (mkReqBody (Some "token") (Some "12"));
     Download "quizzes.txt" (DoneBody [] "Processing complete")].
Proof.
  apply (proj1 (proj2 (form_outcome_follows_the_handler unit
                         (campus (fun _ => true) empty_quiz) 1 (start tt None)
                         trim_ascii " token" "12 ")
                      ltac:(discriminate) ltac:(discriminate))
               (mkHttpResponse 200 (DoneBody [] "Processing complete")));
    reflexivity.
Defined.
